(** * Double-layer HotStuff simulator: a shallow embedding of the backend

    The development follows the Python sources of the backend:
    - [consensus_engine.py]  : quorum thresholds, phase succession, the
      SafeNode predicate and the per-node QC updates (module [Engine]);
    - [topology_manager.py]  : leader rotation and the two-level topology
      resolver (module [Topology]);
    - [socket_handlers.py]   : the session driver: vote aggregation, QC
      application, finalisation, PRE-PREPARE emission and the view change
      (module [Handlers]);
    - [consensus_service.py] : the socket-free copy of the aggregator and of
      the finaliser (module [Service]);
    - [robot_agent.py]       : the robots' proposals and votes (module
      [RobotAgent]).

    Python integers are unbounded, so they are [Z]; [//] and [%] are floor
    division and the matching remainder, which is what [Z.div] and
    [Z.modulo] compute.  Dictionaries are [gmap]s, Python sets are [gset]s,
    strings are [string]s.  A session dictionary is the record [Session];
    every handler is a function from sessions to outcomes.  Timestamps,
    socket emission and the random delivery gate do not influence the session
    fields modelled here and are left out; tasks that a handler only schedules
    ([asyncio.create_task]) are not run inside that handler, and a handler
    runs to its end before the next one starts.

    A stored session has [nodeCount <> 0] ([create_session] raises
    otherwise), so [view % nodeCount] never raises in a handler; the
    division by the configured [branchCount] in the broadcast code can raise
    and is modelled with its exception. *)

From Stdlib Require Import ZArith SpecFloat Lia.
#[local] Set Warnings "-clear-no-such-hyp".
From stdpp Require Import gmap strings list fin_maps fin_sets pretty.

Open Scope string_scope.
Open Scope list_scope.
Open Scope Z_scope.

(** ** Data model *)

(** A quorum certificate, the dictionary built by the aggregator. *)
Record QC := mkQC {
  qc_phase : string;
  qc_view : Z;
  qc_signers : list Z;
  qc_value : Z;
  qc_total_weight : Z;
  qc_is_multi_layer : bool
}.

(** [session["node_states"][node_id]]. *)
Record NodeState := mkNodeState {
  lockedQC : option QC;
  prepareQC : option QC;
  ns_currentView : Z;
  highQC : option QC
}.

(** The fields of [session["config"]] read by the core. *)
Record Config := mkConfig {
  nodeCount : Z;
  branchCount : Z;
  proposalValue : Z
}.

(** A vote message.  Every vote that reaches the aggregator is built by the
    server with the keys [from], [to], [value], [phase], [view] and [round].
    [vote_is_group_vote], [vote_weight], [vote_group_id] and
    [vote_group_voters] are the keys [is_group_vote], [weight], [group_id]
    and [group_voters], absent ([false], [None]) in a direct vote. *)
Record Vote := mkVote {
  vote_from : Z;
  vote_to : Z;
  vote_value : Z;
  vote_phase : string;
  vote_view : Z;
  vote_round : Z;
  vote_is_group_vote : bool;
  vote_weight : option Z;
  vote_group_id : option Z;
  vote_group_voters : option (list Z)
}.

(** A PRE-PREPARE message; [prop_to] is always the string "group_leaders". *)
Record Proposal := mkProposal {
  prop_from : Z;
  prop_value : Z;
  prop_phase : string;
  prop_view : Z;
  prop_round : Z;
  prop_qc : option QC
}.

(** A QC broadcast message. *)
Record QCMsg := mkQCMsg {
  qcm_from : Z;
  qcm_phase : string;
  qcm_next_phase : string;
  qcm_view : Z;
  qcm_round : Z;
  qcm_qc : QC
}.

(** A NEW-VIEW message. *)
Record NewView := mkNewView {
  nv_from : Z;
  nv_to : Z;
  nv_view : Z;
  nv_old_view : Z;
  nv_round : Z;
  nv_highQC : option QC
}.

(** One entry of [pending_votes[key]["group_votes"]]. *)
Record Contribution := mkContribution {
  contrib_from : Z;
  contrib_weight : Z;
  contrib_group_voters : list Z
}.

(** [pending_votes[key]]. *)
Record Pending := mkPending {
  total_weight : Z;
  group_votes : list Contribution
}.

(** [session["robot_node_states"][robot_id]]. *)
Record RobotState := mkRobotState {
  received_pre_prepare : bool;
  received_prepare_count : Z;
  received_commit_count : Z;
  sent_prepare : bool;
  sent_commit : bool
}.

(** A Python [float] is an IEEE 754 binary64 value: [spec_float] with a
    mantissa of 53 bits and the exponent bound 1024. *)
Definition float : Type := spec_float.

(** [float(i)] for an integer that is a dividend or a divisor: the integer
    itself as mantissa with exponent 0, not yet rounded. *)
Definition float_of_int (i : Z) : float :=
  match i with
  | Z0 => S754_zero false
  | Zpos p => S754_finite false p 0
  | Zneg p => S754_finite true p 0
  end.

(** [a / b] on Python integers, for [b <> 0]: true division, the quotient
    of the two integers rounded once, to the nearest double, ties to even
    (so [32 / 3] is the double 10.666666666666666).  The finalisers divide
    only by a positive count.  A quotient of 2^1024 or more, for which
    Python raises OverflowError, is the infinity here; it needs a node
    count above 2^500, and the nodes are created one by one. *)
Definition true_div (a b : Z) : float :=
  SFdiv 53 1024 (float_of_int a) (float_of_int b).

(** The float literal [0.0]. *)
Definition zero_float : float := S754_zero false.

(** One row of the complexity comparison; the row of the running system has
    no [optimization_ratio].  The ratio is the float that Python's [/]
    gives on the two integers. *)
Record ComplexityRow := mkRow {
  row_theoretical : Z;
  row_actual : Z;
  row_optimization_ratio : option float
}.

Record ComplexityComparison := mkComparison {
  double_hotstuff : ComplexityRow;
  pbft_pure : ComplexityRow;
  hotstuff_pure : ComplexityRow;
  pbft_multi_layer : ComplexityRow
}.

Record Stats := mkStats {
  expected_nodes : Z;
  expected_prepare_nodes : Z;
  total_messages : Z;
  complexity_comparison : ComplexityComparison;
  stat_actual_messages : Z;
  stat_node_count : Z;
  stat_branch_count : Z
}.

Record ConsensusResult := mkResult {
  res_status : string;
  res_description : string;
  res_stats : Stats
}.

Record HistoryItem := mkHistory {
  hist_round : Z;
  hist_view : Z;
  hist_status : string;
  hist_description : string;
  hist_stats : Stats
}.

(** [session["messages"]]: the append-only log, one list per kind.  The
    lists [prepare] and [commit] only ever receive generic messages; the
    finaliser reads their lengths. *)
Record Messages := mkMessages {
  msgs_pre_prepare : list Proposal;
  msgs_prepare : list Vote;
  msgs_commit : list Vote;
  msgs_vote : list Vote;
  msgs_qc : list QCMsg;
  msgs_new_view : list NewView
}.

(** The session dictionary.  [message_buffer] is the vote compartment of the
    buffer (view to deferred votes); the proposal compartment is written
    only for a proposal of a future view, and the proposals handled are
    those of the current view. *)
Record Session := mkSession {
  config : Config;
  status : string;
  phase : string;
  phase_step : Z;
  current_view : Z;
  current_round : Z;
  leader_id : Z;
  robot_nodes : list Z;
  robot_node_states : gmap Z RobotState;
  messages : Messages;
  node_states : gmap Z NodeState;
  pending_group_votes : gmap (Z * string * Z * Z) (gset Z);
  pending_votes : gmap (Z * string * Z) Pending;
  pending_new_views : gmap Z (gmap Z NewView);
  message_buffer : gmap Z (list Vote);
  total_messages_sent : Z;
  consensus_finalized_view : option Z;
  last_pre_prepare_view : option Z;
  consensus_result : option ConsensusResult;
  consensus_history : list HistoryItem
}.

(** Field updates of the session, one per assignment the handlers make. *)
Definition set_phase (p : string) (step : Z) (s : Session) : Session :=
  mkSession (config s) (status s) p step (current_view s) (current_round s)
    (leader_id s) (robot_nodes s) (robot_node_states s) (messages s)
    (node_states s) (pending_group_votes s) (pending_votes s)
    (pending_new_views s) (message_buffer s) (total_messages_sent s)
    (consensus_finalized_view s) (last_pre_prepare_view s)
    (consensus_result s) (consensus_history s).

Definition set_status (st : string) (s : Session) : Session :=
  mkSession (config s) st (phase s) (phase_step s) (current_view s)
    (current_round s) (leader_id s) (robot_nodes s) (robot_node_states s)
    (messages s) (node_states s) (pending_group_votes s) (pending_votes s)
    (pending_new_views s) (message_buffer s) (total_messages_sent s)
    (consensus_finalized_view s) (last_pre_prepare_view s)
    (consensus_result s) (consensus_history s).

Definition set_view (v leader : Z) (s : Session) : Session :=
  mkSession (config s) (status s) (phase s) (phase_step s) v
    (current_round s) leader (robot_nodes s) (robot_node_states s)
    (messages s) (node_states s) (pending_group_votes s) (pending_votes s)
    (pending_new_views s) (message_buffer s) (total_messages_sent s)
    (consensus_finalized_view s) (last_pre_prepare_view s)
    (consensus_result s) (consensus_history s).

Definition set_robot_node_states (r : gmap Z RobotState) (s : Session) : Session :=
  mkSession (config s) (status s) (phase s) (phase_step s) (current_view s)
    (current_round s) (leader_id s) (robot_nodes s) r (messages s)
    (node_states s) (pending_group_votes s) (pending_votes s)
    (pending_new_views s) (message_buffer s) (total_messages_sent s)
    (consensus_finalized_view s) (last_pre_prepare_view s)
    (consensus_result s) (consensus_history s).

Definition set_messages (m : Messages) (s : Session) : Session :=
  mkSession (config s) (status s) (phase s) (phase_step s) (current_view s)
    (current_round s) (leader_id s) (robot_nodes s) (robot_node_states s) m
    (node_states s) (pending_group_votes s) (pending_votes s)
    (pending_new_views s) (message_buffer s) (total_messages_sent s)
    (consensus_finalized_view s) (last_pre_prepare_view s)
    (consensus_result s) (consensus_history s).

Definition set_node_states (ns : gmap Z NodeState) (s : Session) : Session :=
  mkSession (config s) (status s) (phase s) (phase_step s) (current_view s)
    (current_round s) (leader_id s) (robot_nodes s) (robot_node_states s)
    (messages s) ns (pending_group_votes s) (pending_votes s)
    (pending_new_views s) (message_buffer s) (total_messages_sent s)
    (consensus_finalized_view s) (last_pre_prepare_view s)
    (consensus_result s) (consensus_history s).

Definition set_pending_group_votes (g : gmap (Z * string * Z * Z) (gset Z))
    (s : Session) : Session :=
  mkSession (config s) (status s) (phase s) (phase_step s) (current_view s)
    (current_round s) (leader_id s) (robot_nodes s) (robot_node_states s)
    (messages s) (node_states s) g (pending_votes s)
    (pending_new_views s) (message_buffer s) (total_messages_sent s)
    (consensus_finalized_view s) (last_pre_prepare_view s)
    (consensus_result s) (consensus_history s).

Definition set_pending_votes (p : gmap (Z * string * Z) Pending)
    (s : Session) : Session :=
  mkSession (config s) (status s) (phase s) (phase_step s) (current_view s)
    (current_round s) (leader_id s) (robot_nodes s) (robot_node_states s)
    (messages s) (node_states s) (pending_group_votes s) p
    (pending_new_views s) (message_buffer s) (total_messages_sent s)
    (consensus_finalized_view s) (last_pre_prepare_view s)
    (consensus_result s) (consensus_history s).

Definition set_pending_new_views (p : gmap Z (gmap Z NewView))
    (s : Session) : Session :=
  mkSession (config s) (status s) (phase s) (phase_step s) (current_view s)
    (current_round s) (leader_id s) (robot_nodes s) (robot_node_states s)
    (messages s) (node_states s) (pending_group_votes s) (pending_votes s)
    p (message_buffer s) (total_messages_sent s)
    (consensus_finalized_view s) (last_pre_prepare_view s)
    (consensus_result s) (consensus_history s).

Definition set_message_buffer (b : gmap Z (list Vote)) (s : Session) : Session :=
  mkSession (config s) (status s) (phase s) (phase_step s) (current_view s)
    (current_round s) (leader_id s) (robot_nodes s) (robot_node_states s)
    (messages s) (node_states s) (pending_group_votes s) (pending_votes s)
    (pending_new_views s) b (total_messages_sent s)
    (consensus_finalized_view s) (last_pre_prepare_view s)
    (consensus_result s) (consensus_history s).

Definition set_total_messages_sent (c : Z) (s : Session) : Session :=
  mkSession (config s) (status s) (phase s) (phase_step s) (current_view s)
    (current_round s) (leader_id s) (robot_nodes s) (robot_node_states s)
    (messages s) (node_states s) (pending_group_votes s) (pending_votes s)
    (pending_new_views s) (message_buffer s) c
    (consensus_finalized_view s) (last_pre_prepare_view s)
    (consensus_result s) (consensus_history s).

Definition set_consensus_finalized_view (v : option Z) (s : Session) : Session :=
  mkSession (config s) (status s) (phase s) (phase_step s) (current_view s)
    (current_round s) (leader_id s) (robot_nodes s) (robot_node_states s)
    (messages s) (node_states s) (pending_group_votes s) (pending_votes s)
    (pending_new_views s) (message_buffer s) (total_messages_sent s)
    v (last_pre_prepare_view s)
    (consensus_result s) (consensus_history s).

Definition set_last_pre_prepare_view (v : option Z) (s : Session) : Session :=
  mkSession (config s) (status s) (phase s) (phase_step s) (current_view s)
    (current_round s) (leader_id s) (robot_nodes s) (robot_node_states s)
    (messages s) (node_states s) (pending_group_votes s) (pending_votes s)
    (pending_new_views s) (message_buffer s) (total_messages_sent s)
    (consensus_finalized_view s) v
    (consensus_result s) (consensus_history s).

Definition set_consensus_result (r : option ConsensusResult) (s : Session) : Session :=
  mkSession (config s) (status s) (phase s) (phase_step s) (current_view s)
    (current_round s) (leader_id s) (robot_nodes s) (robot_node_states s)
    (messages s) (node_states s) (pending_group_votes s) (pending_votes s)
    (pending_new_views s) (message_buffer s) (total_messages_sent s)
    (consensus_finalized_view s) (last_pre_prepare_view s)
    r (consensus_history s).

Definition set_consensus_history (h : list HistoryItem) (s : Session) : Session :=
  mkSession (config s) (status s) (phase s) (phase_step s) (current_view s)
    (current_round s) (leader_id s) (robot_nodes s) (robot_node_states s)
    (messages s) (node_states s) (pending_group_votes s) (pending_votes s)
    (pending_new_views s) (message_buffer s) (total_messages_sent s)
    (consensus_finalized_view s) (last_pre_prepare_view s)
    (consensus_result s) h.

(** Appending to one list of the message log. *)
Definition log_pre_prepare (m : Proposal) (s : Session) : Session :=
  let ms := messages s in
  set_messages (mkMessages (msgs_pre_prepare ms ++ [m]) (msgs_prepare ms)
    (msgs_commit ms) (msgs_vote ms) (msgs_qc ms) (msgs_new_view ms)) s.

Definition log_vote (m : Vote) (s : Session) : Session :=
  let ms := messages s in
  set_messages (mkMessages (msgs_pre_prepare ms) (msgs_prepare ms)
    (msgs_commit ms) (msgs_vote ms ++ [m]) (msgs_qc ms) (msgs_new_view ms)) s.

Definition log_qc (m : QCMsg) (s : Session) : Session :=
  let ms := messages s in
  set_messages (mkMessages (msgs_pre_prepare ms) (msgs_prepare ms)
    (msgs_commit ms) (msgs_vote ms) (msgs_qc ms ++ [m]) (msgs_new_view ms)) s.

Definition log_new_view (m : NewView) (s : Session) : Session :=
  let ms := messages s in
  set_messages (mkMessages (msgs_pre_prepare ms) (msgs_prepare ms)
    (msgs_commit ms) (msgs_vote ms) (msgs_qc ms) (msgs_new_view ms ++ [m])) s.

(** ** consensus_engine.py *)
Module Engine.

(** [get_quorum_threshold]: 2f+1 with f = (n-1) // 3. *)
Definition get_quorum_threshold (s : Session) : Z :=
  let n := nodeCount (config s) in
  let f := (n - 1) / 3 in
  2 * f + 1.

(** [get_local_quorum_threshold]. *)
Definition get_local_quorum_threshold (s : Session) (group_size : Z) : Z :=
  let f_local := (group_size - 1) / 3 in
  2 * f_local + 1.

(** [get_next_phase]: the table, with "prepare" for every other string. *)
Definition get_next_phase (p : string) : string :=
  if decide (p = "new-view") then "prepare"
  else if decide (p = "prepare") then "pre-commit"
  else if decide (p = "pre-commit") then "commit"
  else if decide (p = "commit") then "decide"
  else if decide (p = "decide") then "decide"
  else "prepare".

(** [qc_extends qc1 qc2]. *)
Definition qc_extends (qc1 qc2 : option QC) : bool :=
  match qc2 with
  | None => true
  | Some q2 =>
      match qc1 with
      | None => false
      | Some q1 =>
          let view1 := qc_view q1 in
          let view2 := qc_view q2 in
          let value1 := qc_value q1 in
          let value2 := qc_value q2 in
          (view2 <? view1) && (value1 =? value2)
      end
  end.

(** [check_safe_node].  A node missing from [node_states] has the empty
    dictionary as state, hence no lockedQC.  A QC dictionary is never
    empty, so the truth test [if proposal_qc] is the test for presence. *)
Definition check_safe_node (s : Session) (node_id : Z) (proposal_view : Z)
    (proposal_value : Z) (proposal_qc : option QC) : bool :=
  let locked := node_states s !! node_id ≫= lockedQC in
  match locked with
  | None => true
  | Some lq =>
      let locked_view := qc_view lq in
      if locked_view <? proposal_view then true
      else
        match proposal_qc with
        | Some _ =>
            if qc_extends proposal_qc locked then true else false
        | None =>
            let locked_value := qc_value lq in
            if (proposal_value =? locked_value) && (locked_view <=? proposal_view)
            then true
            else false
        end
  end.

(** [update_node_locked_qc]: the assignment goes to the state dictionary
    of the node; for an unknown node it goes to a temporary dictionary and
    is lost. *)
Definition update_node_locked_qc (s : Session) (node_id : Z) (qc : QC) : Session :=
  match node_states s !! node_id with
  | None => s
  | Some node_state =>
      let current_locked := lockedQC node_state in
      let qc_view' := qc_view qc in
      match current_locked with
      | None =>
          set_node_states
            (<[node_id := mkNodeState (Some qc) (prepareQC node_state)
                            (ns_currentView node_state) (highQC node_state)]>
               (node_states s)) s
      | Some cl =>
          if qc_view cl <? qc_view' then
            set_node_states
              (<[node_id := mkNodeState (Some qc) (prepareQC node_state)
                              (ns_currentView node_state) (highQC node_state)]>
                 (node_states s)) s
          else s
      end
  end.

(** [update_node_prepare_qc]. *)
Definition update_node_prepare_qc (s : Session) (node_id : Z) (qc : QC) : Session :=
  match node_states s !! node_id with
  | None => s
  | Some node_state =>
      let current_prepare := prepareQC node_state in
      let qc_view' := qc_view qc in
      match current_prepare with
      | None =>
          set_node_states
            (<[node_id := mkNodeState (lockedQC node_state) (Some qc)
                            (ns_currentView node_state) (Some qc)]>
               (node_states s)) s
      | Some cp =>
          if qc_view cp <? qc_view' then
            set_node_states
              (<[node_id := mkNodeState (lockedQC node_state) (Some qc)
                              (ns_currentView node_state) (Some qc)]>
                 (node_states s)) s
          else s
      end
  end.

(** [is_honest node_id n m faulty_proposer]: the nodes counted as honest
    when [m] nodes are faulty. *)
Definition is_honest (node_id n m : Z) (faulty_proposer : bool) : bool :=
  if decide (m = 0) then true
  else if faulty_proposer then
    if decide (node_id = 0) then false
    else bool_decide (node_id ≤ n - m)
  else
    if decide (node_id = 0) then true
    else bool_decide (node_id < n - m).

End Engine.

(** ** topology_manager.py *)
Module Topology.

Inductive Role := root | group_leader | member.

#[global] Instance Role_eq_dec : EqDecision Role.
Proof. solve_decision. Defined.

(** The dictionary returned by [get_topology_info]; the root has [None]
    for [parent_id], [group_id] and [group_size]. *)
Record TopologyInfo := mkInfo {
  role : Role;
  parent_id : option Z;
  group_id : option Z;
  group_size : option Z
}.

(** [get_current_leader session view]: [view] defaults to the current
    view.  A session has [nodeCount <> 0]: [create_session] computes
    [current_view % nodeCount] before it stores the session. *)
Definition get_current_leader (s : Session) (view : option Z) : Z :=
  let view := default (current_view s) view in
  let n := nodeCount (config s) in
  view mod n.

(** [get_topology_info session node_id view]. *)
Definition get_topology_info (s : Session) (node_id : Z) (view : option Z)
    : TopologyInfo :=
  let n := nodeCount (config s) in
  let branch_count := branchCount (config s) in
  let branch_count := Z.max 1 branch_count in
  let view := default (current_view s) view in
  let global_leader_id := view mod n in
  if decide (node_id = global_leader_id) then
    mkInfo root None None None
  else
    let group_size := Z.max 1 (n / branch_count) in
    let group_id := node_id / group_size in
    let group_start_id := group_id * group_size in
    let group_end_id := Z.min ((group_id + 1) * group_size) n in
    let actual_group_size := Z.max 0 (group_end_id - group_start_id) in
    if decide (node_id = group_start_id ∧ node_id ≠ global_leader_id) then
      mkInfo group_leader (Some global_leader_id) (Some group_id)
        (Some actual_group_size)
    else
      mkInfo member (Some group_start_id) (Some group_id)
        (Some actual_group_size).

End Topology.

(** ** Outcomes of a handler

    A handler either returns, or an exception leaves it with the session as
    mutated so far.  [OutOfFuel] is the third outcome of the recursive
    definitions below; [Handlers.handle_vote_total] shows it never occurs. *)
Inductive error := ZeroDivisionError | KeyError | TypeError.

Inductive result (A : Type) : Type :=
| Ok (a : A)
| Raise (e : error) (s : Session)
| OutOfFuel.
Arguments Ok {A} a.
Arguments Raise {A} e s.
Arguments OutOfFuel {A}.

#[global] Instance result_ret : MRet result := λ A a, Ok a.
#[global] Instance result_bind : MBind result := λ A B f r,
  match r with
  | Ok a => f a
  | Raise e s => Raise e s
  | OutOfFuel => OutOfFuel
  end.

(** [range(n)]. *)
Definition range (n : Z) : list Z := Z.of_nat <$> seq 0 (Z.to_nat n).

(** A [for] loop whose body may raise. *)
Fixpoint for_each {A : Type} (xs : list A) (body : Session → A → result Session)
    (s : Session) : result Session :=
  match xs with
  | [] => Ok s
  | x :: xs' => s' ← body s x; for_each xs' body s'
  end.

(** ** socket_handlers.py *)
Module Handlers.
Import Engine Topology.

(** [count_message_sent]: a call with [is_broadcast=False] counts one
    message whatever [target_count] is. *)
Definition count_message_sent (is_broadcast : bool) (target_count : option Z)
    (s : Session) : Session :=
  let message_count :=
    if is_broadcast then
      match target_count with
      | None => Z.max (nodeCount (config s) - 1) 0
      | Some t => Z.max t 0
      end
    else 1 in
  set_total_messages_sent (total_messages_sent s + message_count) s.

(** [handle_qc_message]. *)
Definition handle_qc_message (s : Session) (qc_msg : QCMsg) (node_id : Z)
    : Session :=
  let qc := qcm_qc qc_msg in
  let qc_phase := qc_phase qc in
  let s := update_node_prepare_qc s node_id qc in
  if decide (qc_phase = "commit") then update_node_locked_qc s node_id qc
  else s.

(** The two-level broadcast accounting, the block shared by [handle_vote]
    (for a QC) and [robot_send_pre_prepare] (for a proposal).  The division
    is by the configured [branchCount] as it is. *)
Definition hierarchical_broadcast (sender : Z) (view : Z) (s : Session)
    : result Session :=
  let n := nodeCount (config s) in
  let branch_count := branchCount (config s) in
  if decide (branch_count = 0) then Raise ZeroDivisionError s
  else
    let group_size := Z.max 1 (n / branch_count) in
    let group_leaders :=
      filter (λ group_start_id, group_start_id < n ∧ group_start_id ≠ sender)
             ((λ gid, gid * group_size) <$> range branch_count) in
    let s := match group_leaders with
             | [] => s
             | _ => count_message_sent false
                      (Some (Z.of_nat (length group_leaders))) s
             end in
    for_each group_leaders (λ s gl_id,
      let gl_info := get_topology_info s gl_id (Some view) in
      match group_id gl_info with
      | None => Raise TypeError s
      | Some group_id =>
          let group_start_id := group_id * group_size in
          let group_end_id := Z.min ((group_id + 1) * group_size) n in
          let target_member_count :=
            Z.max (group_end_id - (group_start_id + 1)) 0 in
          if decide (0 < target_member_count) then
            Ok (count_message_sent false (Some target_member_count) s)
          else Ok s
      end) s.

(** [finalize_consensus].  Cancelling the timeout task and scheduling
    [start_next_round] leave the modelled fields alone. *)
Definition finalize_consensus (s : Session) (status description : string)
    : Session :=
  let current_view' := current_view s in
  if decide (consensus_finalized_view s = Some current_view') then s
  else
    let s := set_consensus_finalized_view (Some current_view') s in
    let s := set_phase "completed" 4 s in
    let s := set_status "completed" s in
    let config := config s in
    let actual_messages := total_messages_sent s in
    let n := nodeCount config in
    let branch_count := branchCount config in
    let k := Z.max 1 branch_count in
    let group_size := if decide (0 < k) then n / k else n in
    let shadow_pbft_actual := 2 * n * (n - 1) in
    let shadow_hotstuff_actual := 8 * (n - 1) in
    let shadow_multilayer_actual :=
      (2 * k * (k - 1)) + (k * 2 * group_size * (group_size - 1)) in
    let hotstuff_double_actual := actual_messages in
    let theoretical_double_hotstuff := 8 * n in
    let theoretical_pbft := 2 * n * n in
    let theoretical_hotstuff := 4 * n in
    let theoretical_multilayer := 2 * k * k + 2 * n * n / k in
    let optimization_vs_pbft_pure :=
      if decide (0 < hotstuff_double_actual)
      then true_div theoretical_pbft hotstuff_double_actual
      else zero_float in
    let optimization_vs_hotstuff_pure :=
      if decide (0 < hotstuff_double_actual)
      then true_div theoretical_hotstuff hotstuff_double_actual
      else zero_float in
    let optimization_vs_pbft_multi :=
      if decide (0 < hotstuff_double_actual)
      then true_div theoretical_multilayer hotstuff_double_actual
      else zero_float in
    let complexity_comparison :=
      mkComparison
        (mkRow theoretical_double_hotstuff hotstuff_double_actual None)
        (mkRow theoretical_pbft shadow_pbft_actual
           (Some optimization_vs_pbft_pure))
        (mkRow theoretical_hotstuff shadow_hotstuff_actual
           (Some optimization_vs_hotstuff_pure))
        (mkRow theoretical_multilayer shadow_multilayer_actual
           (Some optimization_vs_pbft_multi)) in
    let stats :=
      mkStats (nodeCount config) (nodeCount config - 1)
        (Z.of_nat (length (msgs_prepare (messages s)))
         + Z.of_nat (length (msgs_commit (messages s))))
        complexity_comparison actual_messages n branch_count in
    let consensus_result := mkResult status description stats in
    let s := set_consensus_result (Some consensus_result) s in
    let history_item :=
      mkHistory (current_round s) (current_view s) status
        description stats in
    set_consensus_history (consensus_history s ++ [history_item]) s.

(** The voter set collected for a QC: the union of the [group_voters] of
    every recorded contribution. *)
Definition all_voters (gvs : list Contribution) : gset Z :=
  foldl (λ acc gv, acc ∪ list_to_set (contrib_group_voters gv)) ∅ gvs.

(** [handle_vote], the block after the threshold test ("quorum reached"):
    build the QC from the pending entry of the key, advance the phase, log
    and broadcast the QC message, apply it to every node, finalise on
    "decide".  [list(a_set)] is [elements], the order of which is as
    arbitrary as Python's.  Scheduling [trigger_robot_votes] changes
    nothing here. *)
Definition handle_vote_quorum_reached (s : Session) (vote_message : Vote)
    (entry : Pending) (global_leader_id : Z) : result Session :=
  let view := vote_view vote_message in
  let phase' := vote_phase vote_message in
  let value := vote_value vote_message in
  let total_weight' := total_weight entry in
  let qc := mkQC phase' view (elements (all_voters (group_votes entry)))
              value total_weight' true in
  let next_phase := get_next_phase phase' in
  let s := set_phase next_phase (phase_step s + 1) s in
  let qc_message := mkQCMsg global_leader_id phase' next_phase view
                      (current_round s) qc in
  let s := log_qc qc_message s in
  s ← hierarchical_broadcast global_leader_id view s;
  let s := foldl (λ s node_id, handle_qc_message s qc_message node_id)
             s (range (nodeCount (config s))) in
  if decide (next_phase = "decide") then
    Ok (finalize_consensus s "Consensus Success"
          ("View " +:+ pretty view +:+ " consensus reached"))
  else Ok s.

(** [handle_vote], Case B: a vote of a group leader or of the root, to the
    global leader.  The tally is updated before the session phase is
    compared with the phase of the vote. *)
Definition handle_vote_case_B (s : Session) (vote_message : Vote)
    : result Session :=
  let view := vote_view vote_message in
  let phase' := vote_phase vote_message in
  let voter := vote_from vote_message in
  let value := vote_value vote_message in
  let is_group_vote := vote_is_group_vote vote_message in
  let vote_weight' := default 1 (vote_weight vote_message) in
  let target_id := vote_to vote_message in
  let global_leader_id := get_current_leader s (Some view) in
  if decide (target_id ≠ global_leader_id) then Ok s
  else
    let key := (view, phase', value) in
    let old := default (mkPending 0 []) (pending_votes s !! key) in
    let entry :=
      if is_group_vote then
        mkPending (total_weight old + vote_weight')
          (group_votes old ++
             [mkContribution voter vote_weight'
                (default [] (vote_group_voters vote_message))])
      else
        mkPending (total_weight old + 1)
          (group_votes old ++ [mkContribution voter 1 [voter]]) in
    let s := set_pending_votes (<[key := entry]> (pending_votes s)) s in
    let current_session_phase := phase s in
    if decide (phase' ≠ current_session_phase) then Ok s
    else
      let threshold := get_quorum_threshold s in
      let total_weight' := total_weight entry in
      if decide (total_weight' < threshold) then Ok s
      else handle_vote_quorum_reached s vote_message entry global_leader_id.

(** [handle_vote].  The view test comes first; Case A (a member votes to its
    group leader) is written out here, Case B and the quorum block are the
    two definitions above.  In Case A the function calls itself on the
    GroupVote it builds; [fuel] bounds the depth of these calls. *)
Fixpoint handle_vote_rec (fuel : nat) (s : Session) (vote_message : Vote)
    : result Session :=
  match fuel with
  | O => OutOfFuel
  | S fuel =>
    let view := vote_view vote_message in
    let phase' := vote_phase vote_message in
    let voter := vote_from vote_message in
    let value := vote_value vote_message in
    let current_view' := current_view s in
    if decide (current_view' < view) then
      let buffer := message_buffer s in
      Ok (set_message_buffer
            (<[view := default [] (buffer !! view) ++ [vote_message]]> buffer) s)
    else if decide (view < current_view') then Ok s
    else
      let voter_info := get_topology_info s voter (Some view) in
      let voter_role := role voter_info in
      let target_id := vote_to vote_message in
      if decide (voter_role = member) then
        match parent_id voter_info with
        | None => Ok s
        | Some group_leader_id =>
        if decide (target_id ≠ group_leader_id) then Ok s
        else
          let key := (view, phase', value, group_leader_id) in
          let group_voters :=
            default ∅ (pending_group_votes s !! key) ∪ {[voter]} in
          let s := set_pending_group_votes
                     (<[key := group_voters]> (pending_group_votes s)) s in
          match group_size voter_info with
          | None => Raise TypeError s
          | Some group_size =>
            let local_threshold := get_local_quorum_threshold s group_size in
            if decide (Z.of_nat (size group_voters) < local_threshold) then Ok s
            else
              let global_leader_id := get_current_leader s (Some view) in
              let group_vote_message :=
                mkVote group_leader_id global_leader_id value phase' view
                  (current_round s) true
                  (Some (Z.of_nat (size group_voters)))
                  (group_id voter_info)
                  (Some (elements group_voters)) in
              let s := log_vote group_vote_message s in
              handle_vote_rec fuel s group_vote_message
          end
        end
      else handle_vote_case_B s vote_message
  end.

Definition handle_vote (s : Session) (vote_message : Vote) : result Session :=
  handle_vote_rec 2 s vote_message.

(** [robot_send_pre_prepare].  The de-duplication sentinel is written
    before the test that the leader is a robot. *)
Definition robot_send_pre_prepare (s : Session) (highQC : option QC)
    : result Session :=
  let current_view' := current_view s in
  if decide (last_pre_prepare_view s = Some current_view') then Ok s
  else
    let s := set_last_pre_prepare_view (Some current_view') s in
    let proposer_id := get_current_leader s None in
    if decide (proposer_id ∉ robot_nodes s) then Ok s
    else
      let proposal_value :=
        match highQC with
        | Some q => qc_value q
        | None => proposalValue (config s)
        end in
      let message := mkProposal proposer_id proposal_value "prepare"
                       current_view' (current_round s) highQC in
      let s := log_pre_prepare message s in
      s ← hierarchical_broadcast proposer_id current_view' s;
      let s := set_phase "prepare" 1 s in
      for_each (robot_nodes s) (λ s robot_id,
        if decide (robot_id ≠ proposer_id) then
          match robot_node_states s !! robot_id with
          | None => Raise KeyError s
          | Some st =>
              Ok (set_robot_node_states
                    (<[robot_id := mkRobotState true (received_prepare_count st)
                                     (received_commit_count st) (sent_prepare st)
                                     (sent_commit st)]> (robot_node_states s)) s)
          end
        else Ok s) s.

(** [start_new_view_consensus].  The collected NEW-VIEW messages are
    visited in insertion order, which is increasing node id. *)
Definition start_new_view_consensus (s : Session) (view : Z) : result Session :=
  let leader_id := get_current_leader s (Some view) in
  let pending_new_views := default ∅ (pending_new_views s !! view) in
  let n := nodeCount (config s) in
  let f := (n - 1) / 3 in
  let threshold := 2 * f + 1 in
  if decide (Z.of_nat (size pending_new_views) < threshold) then Ok s
  else
    let pick :=
      foldl (λ (acc : option QC * Z) node_id,
               match pending_new_views !! node_id ≫= nv_highQC with
               | Some qc =>
                   if decide (snd acc < qc_view qc) then (Some qc, qc_view qc)
                   else acc
               | None => acc
               end) (None, -1) (range n) in
    let highQC := fst pick in
    if decide (leader_id ∈ robot_nodes s) then robot_send_pre_prepare s highQC
    else Ok s.

(** The loop [for vote_msg in buffered_votes] of [trigger_view_change]:
    [buffered_votes] is the list stored in the buffer itself, so the loop
    reads position [i] of the list as it is at that moment. *)
Fixpoint replay_buffered_votes (fuel : nat) (i : nat) (new_view : Z)
    (s : Session) : result Session :=
  match fuel with
  | O => OutOfFuel
  | S fuel =>
      match default [] (message_buffer s !! new_view) !! i with
      | None => Ok s
      | Some vote_msg =>
          s ← handle_vote s vote_msg;
          replay_buffered_votes fuel (S i) new_view s
      end
  end.

(** [trigger_view_change], up to the call of [start_new_view_consensus]:
    the view and the leader are advanced, the robots' vote flags are reset,
    every node sends NEW-VIEW to the next leader. *)
Definition trigger_view_change_enter (s : Session) (old_view : Z)
    : result Session :=
  let new_view := old_view + 1 in
  let n := nodeCount (config s) in
  let next_leader_id := get_current_leader s (Some new_view) in
  let s := set_view new_view next_leader_id s in
  let s := foldl (λ s robot_id,
                    set_robot_node_states
                      (<[robot_id := mkRobotState false 0 0 false false]>
                         (robot_node_states s)) s)
                 s (robot_nodes s) in
  let s := foldl (λ s node_id,
                    let highQC := node_states s !! node_id ≫= highQC in
                    let new_view_msg :=
                      mkNewView node_id next_leader_id new_view old_view
                        (current_round s) highQC in
                    let s := log_new_view new_view_msg s in
                    if decide (node_id = next_leader_id) then s
                    else
                      let pnv := pending_new_views s in
                      let s := set_pending_new_views
                                 (<[new_view := <[node_id := new_view_msg]>
                                                  (default ∅ (pnv !! new_view))]> pnv) s in
                      count_message_sent false None s)
                 s (range n) in
  start_new_view_consensus s new_view.

(** [trigger_view_change], the end: the votes buffered for the new view are
    handled again and their buffer entry is deleted. *)
Definition trigger_view_change_drain (s : Session) (new_view : Z)
    : result Session :=
  match message_buffer s !! new_view with
  | Some buffered_votes =>
      s ← replay_buffered_votes (S (length buffered_votes)) 0 new_view s;
      Ok (set_message_buffer (delete new_view (message_buffer s)) s)
  | None => Ok s
  end.

(** [trigger_view_change]. *)
Definition trigger_view_change (s : Session) (old_view : Z) : result Session :=
  s ← trigger_view_change_enter s old_view;
  trigger_view_change_drain s (old_view + 1).

(** [create_session]: the session dictionary that is built and, once the
    leader of view 0 is computed, stored.  With [nodeCount = 0] the
    computation [current_view % nodeCount] raises and nothing is stored. *)
Definition create_session (config : Config) : result Session :=
  let n := nodeCount config in
  let session :=
    mkSession config "waiting" "waiting" 0 0 1 0 [] ∅
      (mkMessages [] [] [] [] [] [])
      (foldl (λ m node_id, <[node_id := mkNodeState None None 0 None]> m)
         ∅ (range n))
      ∅ ∅ ∅ ∅ 0 None None None [] in
  if decide (n = 0) then Raise ZeroDivisionError session
  else Ok (set_view (current_view session) (current_view session mod n) session).

(** [start_pbft_process]. *)
Definition start_pbft_process (s : Session) : result Session :=
  let s := set_status "running" s in
  let s := set_phase "new-view" 0 s in
  robot_send_pre_prepare s None.

(** [create_robot_nodes_and_start]: robots are the nodes [0 .. robot_count-1]. *)
Definition create_robot_nodes_and_start (s : Session) (robot_count : Z)
    : result Session :=
  let s := foldl (λ s robot_id,
                    let s := mkSession (config s) (status s) (phase s)
                               (phase_step s) (current_view s) (current_round s)
                               (leader_id s) (robot_nodes s ++ [robot_id])
                               (robot_node_states s) (messages s) (node_states s)
                               (pending_group_votes s) (pending_votes s)
                               (pending_new_views s) (message_buffer s)
                               (total_messages_sent s)
                               (consensus_finalized_view s)
                               (last_pre_prepare_view s) (consensus_result s)
                               (consensus_history s) in
                    set_robot_node_states
                      (<[robot_id := mkRobotState false 0 0 false false]>
                         (robot_node_states s)) s)
                 s (range robot_count) in
  start_pbft_process s.

(** The vote a robot sends to its parent in [handle_robot_prepare],
    [handle_robot_commit] and [trigger_robot_votes]. *)
Definition robot_vote (s : Session) (robot_id target_id value : Z)
    (phase' : string) (view : Z) : Vote :=
  mkVote robot_id target_id value phase' view (current_round s) false
    None None None.

(** [handle_robot_prepare]: the root sends nothing; any other robot logs
    its vote to its parent, counts one message and hands the vote to
    [handle_vote].  A node that is not the root has a parent. *)
Definition handle_robot_prepare (s : Session) (robot_id value : Z)
    : result Session :=
  let current_view' := current_view s in
  let node_info := get_topology_info s robot_id (Some current_view') in
  if decide (role node_info = root) then Ok s
  else
    match parent_id node_info with
    | None => Ok s
    | Some target_id =>
        let vote_message :=
          robot_vote s robot_id target_id value "prepare" current_view' in
        let s := log_vote vote_message s in
        let s := count_message_sent false None s in
        handle_vote s vote_message
    end.

(** [handle_robot_commit]. *)
Definition handle_robot_commit (s : Session) (robot_id value : Z)
    : result Session :=
  let current_view' := current_view s in
  let node_info := get_topology_info s robot_id (Some current_view') in
  if decide (role node_info = root) then Ok s
  else
    match parent_id node_info with
    | None => Ok s
    | Some target_id =>
        let vote_message :=
          robot_vote s robot_id target_id value "commit" current_view' in
        let s := log_vote vote_message s in
        let s := count_message_sent false None s in
        handle_vote s vote_message
    end.

(** [trigger_robot_votes], from the moment the delay is over: nothing for
    a view that is no longer current, the finaliser for "decide", and else
    one vote of the new phase per robot that is not the leader.  These
    votes are logged but no message is counted for them. *)
Definition trigger_robot_votes (s : Session) (view : Z) (phase' : string)
    (value : Z) : result Session :=
  if decide (current_view s ≠ view) then Ok s
  else
    let leader_id := get_current_leader s None in
    if decide (phase' = "decide") then
      Ok (finalize_consensus s "Consensus Success"
            ("View " +:+ pretty view +:+ " consensus reached"))
    else
      for_each (robot_nodes s) (λ s robot_id,
        if decide (robot_id = leader_id) then Ok s
        else
          let node_info := get_topology_info s robot_id (Some view) in
          if decide (role node_info = root) then Ok s
          else
            match parent_id node_info with
            | None => Ok s
            | Some target_id =>
                let vote_msg :=
                  robot_vote s robot_id target_id value phase' view in
                let s := log_vote vote_msg s in
                handle_vote s vote_msg
            end) s.

(** [start_next_round], from the moment the delay is over: round and view
    are incremented, the leader is recomputed, status, phase, result and
    message counter are reset, every robot's flags are reset, and the
    leader, if a robot, proposes.  The message log, the node states, the
    tallies and the buffer are not touched by the function itself. *)
Definition start_next_round (s : Session) : result Session :=
  let s := mkSession (config s) (status s) (phase s) (phase_step s)
             (current_view s + 1) (current_round s + 1) (leader_id s)
             (robot_nodes s) (robot_node_states s) (messages s)
             (node_states s) (pending_group_votes s) (pending_votes s)
             (pending_new_views s) (message_buffer s) (total_messages_sent s)
             (consensus_finalized_view s) (last_pre_prepare_view s)
             (consensus_result s) (consensus_history s) in
  let s := set_view (current_view s) (get_current_leader s None) s in
  let s := set_status "running" s in
  let s := set_phase "pre-prepare" 0 s in
  let s := set_consensus_result None s in
  let s := set_total_messages_sent 0 s in
  let s := foldl (λ s robot_id,
                    set_robot_node_states
                      (<[robot_id := mkRobotState false 0 0 false false]>
                         (robot_node_states s)) s)
                 s (robot_nodes s) in
  robot_send_pre_prepare s None.

End Handlers.

(** ** consensus_service.py

    [ConsensusService] repeats the aggregator and the finaliser without any
    socket.  Each method returns a dictionary; the fields modelled are the
    [status] string and the messages it carries. *)
Module Service.
Import Engine Topology.

Record MemberResult := mkMemberResult {
  mr_status : string;
  mr_group_vote : option Vote
}.

Record VoteResult := mkVoteResult {
  vr_status : string;
  vr_group_vote : option Vote;
  vr_qc_message : option QCMsg
}.

(** [_process_member_vote]. *)
Definition _process_member_vote (s : Session) (voter_info : TopologyInfo)
    (vote_message : Vote) : result (MemberResult * Session) :=
  let view := vote_view vote_message in
  let phase' := vote_phase vote_message in
  let value := vote_value vote_message in
  let voter := vote_from vote_message in
  let target_id := vote_to vote_message in
  match parent_id voter_info with
  | None => Ok (mkMemberResult "invalid_target" None, s)
  | Some group_leader_id =>
    if decide (target_id ≠ group_leader_id) then
      Ok (mkMemberResult "invalid_target" None, s)
    else
      let key := (view, phase', value, group_leader_id) in
      let group_voters :=
        default ∅ (pending_group_votes s !! key) ∪ {[voter]} in
      let s := set_pending_group_votes
                 (<[key := group_voters]> (pending_group_votes s)) s in
      match group_size voter_info with
      | None => Raise TypeError s
      | Some group_size =>
        let local_threshold := get_local_quorum_threshold s group_size in
        if decide (Z.of_nat (size group_voters) < local_threshold) then
          Ok (mkMemberResult "pending" None, s)
        else
          let global_leader_id := get_current_leader s (Some view) in
          let group_vote_message :=
            mkVote group_leader_id global_leader_id value phase' view
              (current_round s) true
              (Some (Z.of_nat (size group_voters)))
              (group_id voter_info)
              (Some (elements group_voters)) in
          let s := log_vote group_vote_message s in
          Ok (mkMemberResult "group_vote_generated" (Some group_vote_message), s)
      end
  end.

(** [_process_global_vote].  There is no comparison of the vote's phase
    with the session's phase in this method. *)
Definition _process_global_vote (s : Session) (vote_message : Vote)
    (voter_role : Role) (voter_info : TopologyInfo)
    : result (VoteResult * Session) :=
  let view := vote_view vote_message in
  let phase' := vote_phase vote_message in
  let value := vote_value vote_message in
  let voter := vote_from vote_message in
  let target_id := vote_to vote_message in
  let is_group_vote := vote_is_group_vote vote_message in
  let vote_weight' := default 1 (vote_weight vote_message) in
  let global_leader_id := get_current_leader s (Some view) in
  if decide (voter_role = member) then
    Ok (mkVoteResult "invalid_target" None None, s)
  else if decide (target_id ≠ global_leader_id) then
    Ok (mkVoteResult "invalid_target" None None, s)
  else
    let key := (view, phase', value) in
    let old := default (mkPending 0 []) (pending_votes s !! key) in
    let entry :=
      if is_group_vote then
        mkPending (total_weight old + vote_weight')
          (group_votes old ++
             [mkContribution voter vote_weight'
                (default [] (vote_group_voters vote_message))])
      else
        mkPending (total_weight old + 1)
          (group_votes old ++ [mkContribution voter 1 [voter]]) in
    let s := set_pending_votes (<[key := entry]> (pending_votes s)) s in
    let threshold := get_quorum_threshold s in
    let total_weight' := total_weight entry in
    if decide (total_weight' < threshold) then
      Ok (mkVoteResult "pending" None None, s)
    else
      let qc := mkQC phase' view
                  (elements (Handlers.all_voters (group_votes entry)))
                  value total_weight' true in
      let next_phase := get_next_phase phase' in
      let s := set_phase next_phase (phase_step s + 1) s in
      let qc_message := mkQCMsg global_leader_id phase' next_phase view
                          (current_round s) qc in
      let s := log_qc qc_message s in
      let n := nodeCount (config s) in
      let branch_count := branchCount (config s) in
      if decide (branch_count = 0) then Raise ZeroDivisionError s
      else
        let group_size := Z.max 1 (n / branch_count) in
        let group_leaders :=
          filter (λ group_start_id,
                    group_start_id < n ∧ group_start_id ≠ global_leader_id)
                 ((λ gid, gid * group_size) <$> range branch_count) in
        _ ← for_each group_leaders (λ s gl_id,
               match group_id (get_topology_info s gl_id (Some view)) with
               | None => Raise TypeError s
               | Some _ => Ok s
               end) s;
        Ok (mkVoteResult "qc_generated" None (Some qc_message), s).

(** [handle_vote]. *)
Definition handle_vote (s : Session) (vote_message : Vote)
    : result (VoteResult * Session) :=
  let view := vote_view vote_message in
  let voter := vote_from vote_message in
  let current_view' := current_view s in
  if decide (current_view' < view) then
    let buffer := message_buffer s in
    Ok (mkVoteResult "buffered" None None,
        set_message_buffer
          (<[view := default [] (buffer !! view) ++ [vote_message]]> buffer) s)
  else if decide (view < current_view') then
    Ok (mkVoteResult "ignored" None None, s)
  else
    let voter_info := get_topology_info s voter (Some view) in
    let voter_role := role voter_info in
    if decide (voter_role = member) then
      '(result, s) ← _process_member_vote s voter_info vote_message;
      if decide (mr_status result ≠ "group_vote_generated") then
        Ok (mkVoteResult (mr_status result) (mr_group_vote result) None, s)
      else
        match mr_group_vote result with
        | None => Raise TypeError s
        | Some group_vote =>
            '(global_result, s) ←
               _process_global_vote s group_vote group_leader voter_info;
            let status' :=
              if decide (vr_status global_result = "qc_generated")
              then "qc_generated" else "group_vote_generated" in
            Ok (mkVoteResult status' (Some group_vote)
                  (vr_qc_message global_result), s)
        end
    else
      '(global_result, s) ←
         _process_global_vote s vote_message voter_role voter_info;
      Ok (mkVoteResult (vr_status global_result) None
            (vr_qc_message global_result), s).

(** [finalize_consensus_state]; the returned dictionary repeats what is
    stored in the session. *)
Definition finalize_consensus_state (s : Session) (status description : string)
    : Session :=
  let current_view' := current_view s in
  if decide (consensus_finalized_view s = Some current_view') then s
  else
    let s := set_consensus_finalized_view (Some current_view') s in
    let s := set_phase "completed" 4 s in
    let s := set_status "completed" s in
    let config := config s in
    let actual_messages := total_messages_sent s in
    let n := nodeCount config in
    let branch_count := branchCount config in
    let k := Z.max 1 branch_count in
    let group_size := if decide (0 < k) then n / k else n in
    let shadow_pbft_actual := 2 * n * (n - 1) in
    let shadow_hotstuff_actual := 8 * (n - 1) in
    let shadow_multilayer_actual :=
      (2 * k * (k - 1)) + (k * 2 * group_size * (group_size - 1)) in
    let theoretical_double_hotstuff := 8 * n in
    let theoretical_pbft := 2 * n * n in
    let theoretical_hotstuff := 4 * n in
    let theoretical_multilayer := 2 * k * k + 2 * n * n / k in
    let hotstuff_double_actual := actual_messages in
    let optimization_vs_pbft_pure :=
      if decide (0 < hotstuff_double_actual)
      then true_div theoretical_pbft hotstuff_double_actual
      else zero_float in
    let optimization_vs_hotstuff_pure :=
      if decide (0 < hotstuff_double_actual)
      then true_div theoretical_hotstuff hotstuff_double_actual
      else zero_float in
    let optimization_vs_pbft_multi :=
      if decide (0 < hotstuff_double_actual)
      then true_div theoretical_multilayer hotstuff_double_actual
      else zero_float in
    let complexity_comparison :=
      mkComparison
        (mkRow theoretical_double_hotstuff hotstuff_double_actual None)
        (mkRow theoretical_pbft shadow_pbft_actual
           (Some optimization_vs_pbft_pure))
        (mkRow theoretical_hotstuff shadow_hotstuff_actual
           (Some optimization_vs_hotstuff_pure))
        (mkRow theoretical_multilayer shadow_multilayer_actual
           (Some optimization_vs_pbft_multi)) in
    let stats :=
      mkStats (nodeCount config) (nodeCount config - 1)
        (Z.of_nat (length (msgs_prepare (messages s)))
         + Z.of_nat (length (msgs_commit (messages s))))
        complexity_comparison actual_messages n branch_count in
    let consensus_result := mkResult status description stats in
    let s := set_consensus_result (Some consensus_result) s in
    let history_item :=
      mkHistory (current_round s) (current_view s) status description stats in
    set_consensus_history (consensus_history s ++ [history_item]) s.

(** [handle_qc_for_node]. *)
Definition handle_qc_for_node (s : Session) (qc_msg : QCMsg) (node_id : Z)
    : Session :=
  let qc := qcm_qc qc_msg in
  let qc_phase := qc_phase qc in
  let s := update_node_prepare_qc s node_id qc in
  if decide (qc_phase = "commit") then update_node_locked_qc s node_id qc
  else s.

(** [handle_qc_for_all_nodes]. *)
Definition handle_qc_for_all_nodes (s : Session) (qc_msg : QCMsg) : Session :=
  let n := nodeCount (config s) in
  foldl (λ s node_id, handle_qc_for_node s qc_msg node_id) s (range n).

End Service.

(** ** robot_agent.py

    [RobotAgent] builds the robots' proposals and votes without sending
    them.  Each method returns its message beside the session it mutated. *)
Module RobotAgent.
Import Engine Topology.

(** [reset_states_for_view_change]. *)
Definition reset_states_for_view_change (s : Session) : Session :=
  foldl (λ s robot_id,
           set_robot_node_states
             (<[robot_id := mkRobotState false 0 0 false false]>
                (robot_node_states s)) s)
        s (robot_nodes s).

(** [reset_states_for_new_round]. *)
Definition reset_states_for_new_round (s : Session) : Session :=
  foldl (λ s robot_id,
           set_robot_node_states
             (<[robot_id := mkRobotState false 0 0 false false]>
                (robot_node_states s)) s)
        s (robot_nodes s).

(** [generate_proposal]: the sentinel [last_pre_prepare_view] is written
    after the test that the leader is a robot. *)
Definition generate_proposal (s : Session) (high_qc : option QC)
    : option Proposal * Session :=
  let current_view' := current_view s in
  if decide (last_pre_prepare_view s = Some current_view') then (None, s)
  else
    let proposer_id := get_current_leader s None in
    if decide (proposer_id ∉ robot_nodes s) then (None, s)
    else
      let s := set_last_pre_prepare_view (Some current_view') s in
      let proposal_value :=
        match high_qc with
        | Some q => qc_value q
        | None => proposalValue (config s)
        end in
      let message := mkProposal proposer_id proposal_value "prepare"
                       current_view' (current_round s) high_qc in
      let s := log_pre_prepare message s in
      (Some message, s).

(** [generate_vote_for_robot]: the target is the parent of the robot in
    the current view. *)
Definition generate_vote_for_robot (s : Session) (robot_id : Z)
    (phase' : string) (value : Z) : option Vote * Session :=
  let current_view' := current_view s in
  let node_info := get_topology_info s robot_id (Some current_view') in
  if decide (role node_info = root) then (None, s)
  else
    match parent_id node_info with
    | None => (None, s)
    | Some target_id =>
        let vote_message :=
          mkVote robot_id target_id value phase' current_view'
            (current_round s) false None None None in
        let s := log_vote vote_message s in
        (Some vote_message, s)
    end.

(** [generate_votes_for_phase]: the roles are looked up for [view], the
    votes are built for the current view. *)
Definition generate_votes_for_phase (s : Session) (view : Z)
    (phase' : string) (value : Z) : list Vote * Session :=
  let leader_id := get_current_leader s None in
  foldl (λ (acc : list Vote * Session) robot_id,
           let '(votes, s) := acc in
           if decide (robot_id = leader_id) then (votes, s)
           else
             let node_info := get_topology_info s robot_id (Some view) in
             if decide (role node_info = root) then (votes, s)
             else
               match generate_vote_for_robot s robot_id phase' value with
               | (Some vote, s) => (votes ++ [vote], s)
               | (None, s) => (votes, s)
               end)
        ([], s) (robot_nodes s).

End RobotAgent.

(** * Statement vocabulary and example sessions *)

(** The lockedQC of a node, [None] for an unknown node or an unset lock. *)
Definition locked_of (s : Session) (node_id : Z) : option QC :=
  node_states s !! node_id ≫= lockedQC.

(** The session of an outcome: where the handler returned or was left. *)
Definition session_of (r : result Session) (dflt : Session) : Session :=
  match r with
  | Ok s => s
  | Raise _ s => s
  | OutOfFuel => dflt
  end.

(** ** Example sessions

    [started n k v] is the session with [n] nodes in [k] groups, all robots,
    proposal value [v], after [create_session] and
    [create_robot_nodes_and_start]: view 0, phase "prepare", the proposal of
    the leader (node 0) in the log. *)
Definition started (n k v : Z) : Session :=
  let blank := mkSession (mkConfig n k v) "" "" 0 0 0 0 [] ∅
                 (mkMessages [] [] [] [] [] []) ∅ ∅ ∅ ∅ ∅ 0 None None None [] in
  session_of (s ← Handlers.create_session (mkConfig n k v);
              Handlers.create_robot_nodes_and_start s n) blank.

(** A direct vote of node [from] to node [to] in view [view]. *)
Definition direct_vote (from to value : Z) (phase : string) (view : Z) : Vote :=
  mkVote from to value phase view 1 false None None None.

(** A commit QC: view 5, value 7. *)
Definition qc_v5 : QC := mkQC "commit" 5 [1; 2; 3] 7 3 true.

(** Four nodes, node 2 locked on [qc_v5]. *)
Definition locked_session : Session :=
  let s := started 4 2 9 in
  set_node_states (<[2 := mkNodeState (Some qc_v5) None 0 None]> (node_states s)) s.

(** [locked_le s s']: no node's lockedQC is lost or moved to a lower view
    between [s] and [s']. *)
Definition locked_le (s s' : Session) : Prop :=
  ∀ j lq, locked_of s j = Some lq →
          ∃ lq', locked_of s' j = Some lq' ∧ qc_view lq ≤ qc_view lq'.

(** A relation between the session a handler starts from and the session it
    returns, or is left in by an exception. *)
Definition outcome_rel (R : Session → Session → Prop) (s : Session)
    (r : result Session) : Prop :=
  match r with
  | Ok s' => R s s'
  | Raise _ s' => R s s'
  | OutOfFuel => True
  end.

(** [vote_frame s s']: what every handler of a vote leaves in place: the
    configuration, the view and round counters, the de-duplication sentinel
    of the proposer, the vote buffer; the logs only grow and no lockedQC
    regresses. *)
Definition vote_frame (s s' : Session) : Prop :=
  config s' = config s ∧
  current_view s' = current_view s ∧
  current_round s' = current_round s ∧
  message_buffer s' = message_buffer s ∧
  msgs_qc (messages s) `prefix_of` msgs_qc (messages s') ∧
  msgs_vote (messages s) `prefix_of` msgs_vote (messages s') ∧
  locked_le s s'.

(** The outcome is a normal return. *)
Definition returns {A : Type} (r : result A) : Prop :=
  match r with Ok _ => True | _ => False end.

(** Every vote stored in the buffer is stored under its own view. *)
Definition wf_buffer (s : Session) : Prop :=
  map_Forall (λ v l, Forall (λ m, vote_view m = v) l) (message_buffer s).

(** Replaying a list of votes in order, each exactly once. *)
Definition replay_in_order (votes : list Vote) (s : Session) : result Session :=
  for_each votes Handlers.handle_vote s.

(** A commit QC of view 3 for another value, and the message carrying it. *)
Definition qc_v3 : QC := mkQC "commit" 3 [0; 1; 3] 8 3 true.
Definition qc_msg_v3 : QCMsg := mkQCMsg 0 "commit" "decide" 3 1 qc_v3.

(** What the steps of PRE-PREPARE emission after the sentinel leave alone. *)
Definition sentinel_frame (s s' : Session) : Prop :=
  current_view s' = current_view s ∧
  last_pre_prepare_view s' = last_pre_prepare_view s.


(** What the entry into a new view leaves alone. *)
Definition enter_frame (s s' : Session) : Prop :=
  config s' = config s ∧
  current_view s' = current_view s ∧
  message_buffer s' = message_buffer s ∧
  robot_nodes s' = robot_nodes s ∧
  dom (robot_node_states s) ⊆ dom (robot_node_states s') ∧
  node_states s' = node_states s.

(** The started session of four nodes after a vote for view 1 arrived early:
    node 2 votes to node 1, the leader of view 1. *)
Definition early_vote : Vote := direct_vote 2 1 9 "prepare" 1.
Definition session_with_early_vote : Session :=
  session_of (Handlers.handle_vote (started 4 2 9) early_vote) (started 4 2 9).

(** Feeding a list of votes to the aggregator of the service, in order. *)
Definition service_run (votes : list Vote) (s : Session) : result Session :=
  for_each votes (λ s v, '(_, s') ← Service.handle_vote s v; Ok s') s.

(** The identity [(view, phase, value)] of the QC in a QC message. *)
Definition qc_key (q : QCMsg) : Z * string * Z :=
  (qc_view (qcm_qc q), qc_phase (qcm_qc q), qc_value (qcm_qc q)).

(** The GroupVotes of the vote log for the key
    [(view, phase, value, group leader)]. *)
Definition group_votes_for (key : Z * string * Z * Z) (s : Session) : list Vote :=
  filter (λ v, vote_is_group_vote v = true ∧
               (vote_view v, vote_phase v, vote_value v, vote_from v) = key)
         (msgs_vote (messages s)).

(** Five nodes in groups {0,1}, {2,3}, {4}; quorum 3.  The group leaders 2
    and 4 vote, member 3 votes to its group leader 2: the third vote
    completes the quorum.  Member 1 votes last, with the same phase. *)
Definition quorum_votes_5 : list Vote :=
  [direct_vote 2 0 9 "prepare" 0; direct_vote 4 0 9 "prepare" 0;
   direct_vote 3 2 9 "prepare" 0].
Definition late_vote_5 : Vote := direct_vote 1 0 9 "prepare" 0.

(** Seven nodes in groups {0,1,2}, {3,4,5}, {6}; quorum 5, local quorum 1.
    Members 4 and 5 vote to their group leader 3, members 1 and 2 to their
    group start 0, every node once. *)
Definition member_votes_7 : list Vote :=
  [direct_vote 4 3 9 "prepare" 0; direct_vote 5 3 9 "prepare" 0;
   direct_vote 1 0 9 "prepare" 0; direct_vote 2 0 9 "prepare" 0].

(** The three votes of [quorum_votes_5] with phase [p]. *)
Definition quorum_votes_5_in (p : string) : list Vote :=
  [direct_vote 2 0 9 p 0; direct_vote 4 0 9 p 0; direct_vote 3 2 9 p 0].

(** A full run in view 0, then three votes stamped with the session phase
    "completed" (the phase a generic vote message gets after finalisation),
    then the vote of member 1 for "prepare". *)
Definition votes_through_completed : list Vote :=
  quorum_votes_5_in "prepare" ++ quorum_votes_5_in "pre-commit" ++
  quorum_votes_5_in "commit" ++ quorum_votes_5_in "completed" ++
  [late_vote_5].

(** ** Vocabulary for the further properties *)

(** The prepareQC and the highQC of a node, [None] for an unknown node or
    an unset field. *)
Definition prepare_of (s : Session) (node_id : Z) : option QC :=
  node_states s !! node_id ≫= prepareQC.

Definition high_of (s : Session) (node_id : Z) : option QC :=
  node_states s !! node_id ≫= highQC.

(** [n] applications of a function. *)
Definition iterate {A : Type} (f : A → A) (n : nat) (x : A) : A :=
  Nat.iter n f x.

#[global] Instance QC_eq_dec : EqDecision QC.
Proof. solve_decision. Defined.

(** [qc_le o o']: a QC field is not lost and its view does not decrease. *)
Definition qc_le (o o' : option QC) : Prop :=
  match o, o' with
  | None, _ => True
  | Some q, Some q' => qc_view q ≤ qc_view q'
  | Some _, None => False
  end.

(** [node_le a b]: from state [a] to state [b] of one node, neither QC
    regresses, and a highQC that is the prepareQC stays the prepareQC. *)
Definition node_le (a b : NodeState) : Prop :=
  qc_le (lockedQC a) (lockedQC b) ∧
  qc_le (prepareQC a) (prepareQC b) ∧
  (highQC a = prepareQC a → highQC b = prepareQC b).

(** [nodes_le s s']: the same nodes are known, each with [node_le]. *)
Definition nodes_le (s s' : Session) : Prop :=
  ∀ i, option_Forall2 node_le (node_states s !! i) (node_states s' !! i).

(** [grows s s']: the configuration and the robot list are the same, every
    list of the message log and the history only gained entries at the end,
    and the node states satisfy [nodes_le]. *)
Definition grows (s s' : Session) : Prop :=
  config s' = config s ∧
  robot_nodes s' = robot_nodes s ∧
  msgs_pre_prepare (messages s) `prefix_of` msgs_pre_prepare (messages s') ∧
  msgs_vote (messages s) `prefix_of` msgs_vote (messages s') ∧
  msgs_qc (messages s) `prefix_of` msgs_qc (messages s') ∧
  msgs_new_view (messages s) `prefix_of` msgs_new_view (messages s') ∧
  consensus_history s `prefix_of` consensus_history s' ∧
  nodes_le s s'.

(** Every node's highQC is its prepareQC. *)
Definition high_is_prepare (s : Session) : Prop :=
  map_Forall (λ _ ns, highQC ns = prepareQC ns) (node_states s).

(** [settles R s r]: the handler returned, or raised, in a session related
    to [s] by [R]; the outcome is not [OutOfFuel]. *)
Definition settles (R : Session → Session → Prop) (s : Session)
    (r : result Session) : Prop :=
  match r with
  | Ok s' => R s s'
  | Raise _ s' => R s s'
  | OutOfFuel => False
  end.

(** The group leaders a broadcast of [sender] addresses: the list
    [group_leaders] built in [handle_vote] and in [robot_send_pre_prepare]
    (the first statement of [Handlers.hierarchical_broadcast]). *)
Definition broadcast_targets (s : Session) (sender : Z) : list Z :=
  let n := nodeCount (config s) in
  let branch_count := branchCount (config s) in
  let group_size := Z.max 1 (n / branch_count) in
  filter (λ group_start_id, group_start_id < n ∧ group_start_id ≠ sender)
         ((λ gid, gid * group_size) <$> range branch_count).

(** [counted_upto k s s']: only the message counter differs, by an amount
    between 0 and [k]. *)
Definition counted_upto (k : Z) (s s' : Session) : Prop :=
  s' = set_total_messages_sent (total_messages_sent s') s ∧
  total_messages_sent s ≤ total_messages_sent s' ≤ total_messages_sent s + k.

(** [qc_applied q s i]: node [i] is known and holds a prepareQC of the view
    of [q] or higher, and, when [q] is a commit QC, a lockedQC of that view
    or higher. *)
Definition qc_applied (q : QC) (s : Session) (i : Z) : Prop :=
  ∃ ns, node_states s !! i = Some ns ∧
        qc_le (Some q) (prepareQC ns) ∧
        (qc_phase q = "commit" → qc_le (Some q) (lockedQC ns)).

(** The QC message [handle_vote] builds for the key of the vote [m] from
    the pending entry [entry] of that key. *)
Definition qc_message_for (s : Session) (m : Vote) (entry : Pending) : QCMsg :=
  mkQCMsg (Topology.get_current_leader s (Some (vote_view m)))
    (vote_phase m) (Engine.get_next_phase (vote_phase m)) (vote_view m)
    (current_round s)
    (mkQC (vote_phase m) (vote_view m)
       (elements (Handlers.all_voters (group_votes entry)))
       (vote_value m) (total_weight entry) true).

(** The key [(view, phase, value)] under which a vote is tallied. *)
Definition vote_key (m : Vote) : Z * string * Z :=
  (vote_view m, vote_phase m, vote_value m).

(** [qc_emitted s m s']: handling the vote [m] in [s] completed the quorum
    of its key: the pending entry of the key has reached the threshold, the
    vote carries the phase of the session, exactly one QC message, the one
    built from that entry, was appended to the log, and the QC is applied
    at every known node [0 .. N-1]. *)
Definition qc_emitted (s : Session) (m : Vote) (s' : Session) : Prop :=
  ∃ entry,
    pending_votes s' !! vote_key m = Some entry ∧
    Engine.get_quorum_threshold s ≤ total_weight entry ∧
    vote_phase m = phase s ∧
    vote_view m = current_view s ∧
    msgs_qc (messages s') = msgs_qc (messages s) ++ [qc_message_for s m entry] ∧
    ∀ i, 0 ≤ i < nodeCount (config s) → is_Some (node_states s !! i) →
         qc_applied (qcm_qc (qc_message_for s m entry)) s' i.

(** [no_qc s s']: no QC was emitted between [s] and [s']: the QC log, the
    node states and the phase are the same. *)
Definition no_qc (s s' : Session) : Prop :=
  msgs_qc (messages s') = msgs_qc (messages s) ∧
  node_states s' = node_states s ∧
  phase s' = phase s ∧
  total_messages_sent s' = total_messages_sent s.

(** The sum of the weights of a list of contributions. *)
Definition weights (l : list Contribution) : Z :=
  foldr Z.add 0 (contrib_weight <$> l).

(** A contribution weighs the number of voters it lists. *)
Definition contribution_ok (c : Contribution) : Prop :=
  contrib_weight c = Z.of_nat (length (contrib_group_voters c)).

(** A pending entry: the total is the sum of the recorded weights. *)
Definition entry_ok (e : Pending) : Prop :=
  total_weight e = weights (group_votes e) ∧
  Forall contribution_ok (group_votes e).

(** [tally_ok s]: every pending entry is [entry_ok], and no QC of the log
    lists more signers than its total weight. *)
Definition tally_ok (s : Session) : Prop :=
  map_Forall (λ _ e, entry_ok e) (pending_votes s) ∧
  Forall (λ q, Z.of_nat (length (qc_signers (qcm_qc q)))
               ≤ qc_total_weight (qcm_qc q))
         (msgs_qc (messages s)).

(** A GroupVote whose weight is the number of voters it carries; every
    direct vote qualifies. *)
Definition vote_ok (m : Vote) : Prop :=
  vote_is_group_vote m = true →
  default 1 (vote_weight m)
  = Z.of_nat (length (default [] (vote_group_voters m))).

(** [round_frame s s']: what the start of a round and the PRE-PREPARE
    emission leave alone: the vote buffer, both tallies, the node states,
    the NEW-VIEW collections, the configuration, the robot list, and the
    logs of votes, QCs and NEW-VIEW messages. *)
Definition round_frame (s s' : Session) : Prop :=
  message_buffer s' = message_buffer s ∧
  pending_votes s' = pending_votes s ∧
  pending_group_votes s' = pending_group_votes s ∧
  pending_new_views s' = pending_new_views s ∧
  node_states s' = node_states s ∧
  config s' = config s ∧
  robot_nodes s' = robot_nodes s ∧
  msgs_vote (messages s') = msgs_vote (messages s) ∧
  msgs_qc (messages s') = msgs_qc (messages s) ∧
  msgs_new_view (messages s') = msgs_new_view (messages s).

(** [same_view s s']: view, round, leader and status are the same. *)
Definition same_view (s s' : Session) : Prop :=
  current_view s' = current_view s ∧
  current_round s' = current_round s ∧
  leader_id s' = leader_id s ∧
  status s' = status s.

(** [proposal_frame s s']: the message log and the proposer's sentinel are
    the same. *)
Definition proposal_frame (s s' : Session) : Prop :=
  messages s' = messages s ∧
  last_pre_prepare_view s' = last_pre_prepare_view s.

(** [collected nv s i]: the NEW-VIEW message of node [i] for the view [nv]
    is among those collected for the leader of [nv]. *)
Definition collected (nv : Z) (s : Session) (i : Z) : Prop :=
  ∃ M, pending_new_views s !! nv = Some M ∧ is_Some (M !! i).

(** [entry_keeps s s']: the proposals logged, the proposer's sentinel and
    the round are the same. *)
Definition entry_keeps (s s' : Session) : Prop :=
  last_pre_prepare_view s' = last_pre_prepare_view s ∧
  msgs_pre_prepare (messages s') = msgs_pre_prepare (messages s) ∧
  current_round s' = current_round s.
(** * Properties *)

(** The example sessions are sessions the start-up code returns. *)
Lemma started_returns :
  Forall (λ n, (s ← Handlers.create_session (mkConfig n 2 9);
                Handlers.create_robot_nodes_and_start s n)
               = Ok (started n 2 9) ∧
               phase (started n 2 9) = "prepare" ∧
               status (started n 2 9) = "running" ∧
               current_view (started n 2 9) = 0)
         [4; 5; 7].
Proof.
  apply Forall_cons_2; [|apply Forall_cons_2; [|apply Forall_cons_2;
    [|apply Forall_nil_2]]];
    cbv beta;
    (split; [vm_compute; reflexivity|]);
    (split; [vm_compute; reflexivity|]);
    (split; vm_compute; reflexivity).
Qed.

(** ** The SafeNode predicate *)
Section SafeNode.
Import Engine.

Lemma qc_extends_spec (a b : option QC) :
  qc_extends a b = true ↔
  b = None ∨
  ∃ qa qb, a = Some qa ∧ b = Some qb ∧
           qc_view qb < qc_view qa ∧ qc_value qa = qc_value qb.
Proof.
  unfold qc_extends. destruct b as [qb|]; [|naive_solver].
  destruct a as [qa|].
  - rewrite andb_true_iff, Z.ltb_lt, Z.eqb_eq. naive_solver.
  - naive_solver.
Qed.

Lemma check_safe_node_unlocked s node_id pv pval pqc :
  locked_of s node_id = None →
  check_safe_node s node_id pv pval pqc = true.
Proof. unfold locked_of, check_safe_node. by intros ->. Qed.

Lemma check_safe_node_fresh s node_id pv pval pqc lq :
  locked_of s node_id = Some lq → qc_view lq < pv →
  check_safe_node s node_id pv pval pqc = true.
Proof.
  unfold locked_of, check_safe_node. intros -> Hlt.
  by apply Z.ltb_lt in Hlt as ->.
Qed.

Lemma check_safe_node_with_qc s node_id pv pval q lq :
  locked_of s node_id = Some lq → pv ≤ qc_view lq →
  check_safe_node s node_id pv pval (Some q) = qc_extends (Some q) (Some lq).
Proof.
  unfold locked_of, check_safe_node. intros -> Hle.
  apply Z.ltb_ge in Hle as ->. by destruct (qc_extends _ _).
Qed.

Lemma check_safe_node_without_qc s node_id pv pval lq :
  locked_of s node_id = Some lq → pv ≤ qc_view lq →
  check_safe_node s node_id pv pval None = true ↔
  pval = qc_value lq ∧ qc_view lq ≤ pv.
Proof.
  unfold locked_of, check_safe_node. intros -> Hle.
  apply Z.ltb_ge in Hle as ->.
  destruct (_ && _) eqn:E.
  - apply andb_true_iff in E as [?%Z.eqb_eq ?%Z.leb_le]. naive_solver.
  - apply andb_false_iff in E as [?%Z.eqb_neq | ?%Z.leb_gt]; naive_solver lia.
Qed.

End SafeNode.

(** ** The topology resolver *)
Section TopologyResolver.
Import Topology.

Lemma group_start_bounds (node_id gs : Z) :
  0 < gs →
  node_id / gs * gs ≤ node_id < (node_id / gs + 1) * gs.
Proof.
  intros Hgs. pose proof (Z.mul_div_le node_id gs Hgs).
  pose proof (Z.mul_succ_div_gt node_id gs Hgs). lia.
Qed.

Lemma get_topology_info_root s node_id view :
  node_id = view mod nodeCount (config s) →
  get_topology_info s node_id (Some view) = mkInfo root None None None.
Proof. intros Heq. unfold get_topology_info. simpl. by rewrite decide_True. Qed.

Lemma get_topology_info_non_root s node_id view :
  node_id ≠ view mod nodeCount (config s) →
  let n := nodeCount (config s) in
  let gs := Z.max 1 (n / Z.max 1 (branchCount (config s))) in
  let group := node_id / gs in
  get_topology_info s node_id (Some view) =
    mkInfo (if decide (node_id = group * gs) then group_leader else member)
           (Some (if decide (node_id = group * gs)
                  then view mod n else group * gs))
           (Some group)
           (Some (Z.max 0 (Z.min ((group + 1) * gs) n - group * gs))).
Proof.
  intros Hne. unfold get_topology_info. simpl.
  rewrite decide_False by done.
  destruct (decide (node_id = _)) as [Heq|Hneq].
  - by rewrite decide_True.
  - rewrite decide_False; [done | naive_solver].
Qed.

End TopologyResolver.

(** ** Per-node QC updates *)
Section NodeUpdates.
Import Engine.

(** The lockedQC a node holds after [update_node_locked_qc]. *)
Lemma locked_of_update_node_locked_qc s i qc j :
  locked_of (update_node_locked_qc s i qc) j =
    if decide (i = j) then
      match node_states s !! i with
      | None => None
      | Some node_state =>
          match lockedQC node_state with
          | None => Some qc
          | Some cl => if qc_view cl <? qc_view qc then Some qc else Some cl
          end
      end
    else locked_of s j.
Proof.
  unfold locked_of, update_node_locked_qc.
  destruct (node_states s !! i) as [node_state|] eqn:Hi.
  - destruct (lockedQC node_state) as [cl|] eqn:Hl.
    + destruct (qc_view cl <? qc_view qc); simpl.
      * rewrite lookup_insert. by case_decide.
      * case_decide; [subst j; by rewrite Hi; simpl|done].
    + simpl. rewrite lookup_insert. by case_decide.
  - case_decide; [subst j; by rewrite Hi|done].
Qed.

(** [update_node_prepare_qc] does not touch any lockedQC and forgets no
    node. *)
Lemma locked_of_update_node_prepare_qc s i qc j :
  locked_of (update_node_prepare_qc s i qc) j = locked_of s j.
Proof.
  unfold locked_of, update_node_prepare_qc.
  destruct (node_states s !! i) as [node_state|] eqn:Hi; [|done].
  destruct (prepareQC node_state) as [cp|];
    [destruct (qc_view cp <? qc_view qc); [|done]|];
    simpl; rewrite lookup_insert; case_decide; subst; by rewrite ?Hi.
Qed.

Lemma known_update_node_prepare_qc s i qc j :
  is_Some (node_states (update_node_prepare_qc s i qc) !! j) ↔
  is_Some (node_states s !! j).
Proof.
  unfold update_node_prepare_qc.
  destruct (node_states s !! i) as [node_state|] eqn:Hi; [|done].
  destruct (prepareQC node_state) as [cp|];
    [destruct (qc_view cp <? qc_view qc); [|done]|];
    simpl; rewrite lookup_insert; case_decide; subst; by rewrite ?Hi.
Qed.

Lemma locked_of_known s i lq :
  locked_of s i = Some lq → ∃ ns, node_states s !! i = Some ns ∧ lockedQC ns = Some lq.
Proof.
  unfold locked_of. destruct (node_states s !! i) as [ns|]; naive_solver.
Qed.

(** The lockedQC of node [j] after node [i] handled a QC message. *)
Lemma locked_of_handle_qc_message s qc_msg i j :
  locked_of (Handlers.handle_qc_message s qc_msg i) j =
    if decide (qc_phase (qcm_qc qc_msg) = "commit" ∧ i = j) then
      match node_states s !! i with
      | None => None
      | Some node_state =>
          match lockedQC node_state with
          | None => Some (qcm_qc qc_msg)
          | Some cl =>
              if qc_view cl <? qc_view (qcm_qc qc_msg)
              then Some (qcm_qc qc_msg) else Some cl
          end
      end
    else locked_of s j.
Proof.
  unfold Handlers.handle_qc_message.
  destruct (decide (qc_phase _ = _)) as [Hc|Hc].
  - rewrite locked_of_update_node_locked_qc.
    destruct (decide (i = j)) as [->|Hij].
    + rewrite decide_True by done.
      pose proof (locked_of_update_node_prepare_qc s j (qcm_qc qc_msg) j) as Hl.
      pose proof (known_update_node_prepare_qc s j (qcm_qc qc_msg) j) as Hk.
      unfold locked_of in Hl.
      destruct (node_states (update_node_prepare_qc _ _ _) !! j) as [ns'|],
        (node_states s !! j) as [ns|]; simpl in *.
      * by rewrite Hl.
      * destruct Hk as [[? ?] _]; [eauto | done].
      * destruct Hk as [_ [? ?]]; [eauto | done].
      * done.
    + rewrite decide_False by naive_solver.
      apply locked_of_update_node_prepare_qc.
  - rewrite decide_False by naive_solver.
    apply locked_of_update_node_prepare_qc.
Qed.

Lemma locked_le_refl s : locked_le s s.
Proof. intros j lq ?. exists lq. split; [done | lia]. Qed.

Lemma locked_le_trans s1 s2 s3 :
  locked_le s1 s2 → locked_le s2 s3 → locked_le s1 s3.
Proof.
  intros H12 H23 j lq Hj.
  destruct (H12 j lq Hj) as (lq2 & Hj2 & ?).
  destruct (H23 j lq2 Hj2) as (lq3 & Hj3 & ?).
  exists lq3. split; [done | lia].
Qed.

Lemma locked_le_same s s' :
  node_states s' = node_states s → locked_le s s'.
Proof.
  intros Heq j lq Hj. exists lq. unfold locked_of in *.
  rewrite Heq. split; [done | lia].
Qed.

Lemma locked_le_handle_qc_message s qc_msg i :
  locked_le s (Handlers.handle_qc_message s qc_msg i).
Proof.
  intros j lq Hj. rewrite locked_of_handle_qc_message.
  case_decide as Hc; [|exists lq; split; [done | lia]].
  destruct Hc as [_ ->].
  apply locked_of_known in Hj as (ns & -> & ->).
  destruct (qc_view lq <? qc_view _) eqn:E.
  - apply Z.ltb_lt in E. eexists. split; [done | lia].
  - exists lq. split; [done | lia].
Qed.

End NodeUpdates.

(** ** Outcomes and loops *)
Section Outcomes.
Context (R : Session → Session → Prop).
Context (R_refl : ∀ s, R s s).
Context (R_trans : ∀ s1 s2 s3, R s1 s2 → R s2 s3 → R s1 s3).

Lemma outcome_rel_bind s (r : result Session) (k : Session → result Session) :
  outcome_rel R s r →
  (∀ s', R s s' → outcome_rel R s' (k s')) →
  outcome_rel R s (r ≫= k).
Proof.
  destruct r as [s'|e s'|]; simpl; [|done..].
  intros Hr Hk. specialize (Hk s' Hr).
  destruct (k s') as [s''|e s''|]; simpl in *; eauto.
Qed.

Lemma outcome_rel_step s s' (r : result Session) :
  R s s' → outcome_rel R s' r → outcome_rel R s r.
Proof. destruct r; simpl; eauto. Qed.

Lemma for_each_rel {A} (xs : list A) body s :
  (∀ s x, outcome_rel R s (body s x)) →
  outcome_rel R s (for_each xs body s).
Proof.
  intros Hbody. revert s. induction xs as [|x xs IH]; intros s; simpl.
  - apply R_refl.
  - apply outcome_rel_bind; [apply Hbody|].
    intros s' _. apply IH.
Qed.

Lemma foldl_rel {A} (xs : list A) (f : Session → A → Session) s :
  (∀ s x, R s (f s x)) → R s (foldl f s xs).
Proof.
  intros Hf. revert s. induction xs as [|x xs IH]; intros s; simpl; eauto.
Qed.

End Outcomes.

(** The session a loop starts from is related to the session the handler
    started from; the loop itself is left as the goal. *)
Ltac loop_from R R_trans s :=
  match goal with
  | |- outcome_rel _ _ (for_each _ _ ?s1) =>
      apply (outcome_rel_step R R_trans s s1)
  end.

(** From a relation to the start session to a property of the end session. *)
Lemma outcome_rel_mono (Q : Session → Prop) (R : Session → Session → Prop)
    s0 s (r : result Session) :
  (∀ s', R s0 s' → Q s') →
  outcome_rel R s0 r → outcome_rel (λ _ s', Q s') s r.
Proof. destruct r; simpl; eauto. Qed.

Lemma for_each_returns {A} (P : Session → Prop) (xs : list A) body s :
  P s →
  (∀ s x, x ∈ xs → P s → ∃ s', body s x = Ok s' ∧ P s') →
  ∃ s', for_each xs body s = Ok s' ∧ P s'.
Proof.
  intros Hs Hbody. revert s Hs. induction xs as [|x xs IH]; intros s Hs; simpl.
  - eauto.
  - destruct (Hbody s x) as (s' & -> & Hs'); [left | done |]. simpl.
    apply IH; [|done]. intros s'' y Hy. apply Hbody. by right.
Qed.

(** ** Frame properties of the vote handler *)
Section VoteFrame.
Import Engine Topology Handlers.

Lemma vote_frame_refl s : vote_frame s s.
Proof. unfold vote_frame. split_and!; try done. apply locked_le_refl. Qed.

Lemma vote_frame_trans s1 s2 s3 :
  vote_frame s1 s2 → vote_frame s2 s3 → vote_frame s1 s3.
Proof.
  unfold vote_frame.
  intros (?&?&?&?&?&?&?) (?&?&?&?&?&?&?).
  split_and!; try congruence; try (by etrans).
  by eapply locked_le_trans.
Qed.

(** A step that keeps the node states and only extends the logs. *)
Lemma vote_frame_intro s s' :
  config s' = config s → current_view s' = current_view s →
  current_round s' = current_round s →
  message_buffer s' = message_buffer s →
  msgs_qc (messages s) `prefix_of` msgs_qc (messages s') →
  msgs_vote (messages s) `prefix_of` msgs_vote (messages s') →
  node_states s' = node_states s →
  vote_frame s s'.
Proof.
  intros. unfold vote_frame. split_and!; try done. by apply locked_le_same.
Qed.

Lemma vote_frame_handle_qc_message s qc_msg i :
  vote_frame s (handle_qc_message s qc_msg i).
Proof.
  unfold vote_frame. split_and!;
    try (unfold handle_qc_message, update_node_locked_qc, update_node_prepare_qc;
         repeat (case_decide || case_match); done).
  apply locked_le_handle_qc_message.
Qed.

Lemma vote_frame_count_message_sent b t s :
  vote_frame s (count_message_sent b t s).
Proof. by apply vote_frame_intro. Qed.

Lemma vote_frame_hierarchical_broadcast sender view s :
  outcome_rel vote_frame s (hierarchical_broadcast sender view s).
Proof.
  unfold hierarchical_broadcast. case_decide; [apply vote_frame_refl|].
  cbv zeta.
  loop_from vote_frame vote_frame_trans s.
  { case_match; [apply vote_frame_refl | apply vote_frame_count_message_sent]. }
  apply (for_each_rel vote_frame vote_frame_refl vote_frame_trans).
  intros s' x. repeat (case_match || case_decide); simpl;
    first [apply vote_frame_refl | apply vote_frame_count_message_sent].
Qed.

Lemma vote_frame_finalize_consensus s st d :
  vote_frame s (finalize_consensus s st d).
Proof.
  unfold finalize_consensus. case_decide; [apply vote_frame_refl|].
  by apply vote_frame_intro.
Qed.

Lemma vote_frame_apply_qc qc_msg nodes s :
  vote_frame s (foldl (λ s0 node_id, handle_qc_message s0 qc_msg node_id) s nodes).
Proof.
  apply (foldl_rel vote_frame vote_frame_refl vote_frame_trans).
  intros. apply vote_frame_handle_qc_message.
Qed.

Lemma handle_vote_rec_buffered fuel s m :
  current_view s < vote_view m →
  handle_vote_rec (S fuel) s m =
    Ok (set_message_buffer
          (<[vote_view m := default [] (message_buffer s !! vote_view m) ++ [m]]>
             (message_buffer s)) s).
Proof. intros Hv. cbn [handle_vote_rec]. cbv zeta. by rewrite decide_True. Qed.

Lemma handle_vote_rec_stale fuel s m :
  vote_view m < current_view s → handle_vote_rec (S fuel) s m = Ok s.
Proof.
  intros Hv. cbn [handle_vote_rec]. cbv zeta.
  rewrite decide_False by lia. by rewrite decide_True.
Qed.

(** The group start a member votes to never resolves to a member itself, so
    a GroupVote is aggregated by the global leader at once. *)
Lemma group_start_not_member s s' node_id view gl :
  config s' = config s →
  role (get_topology_info s node_id (Some view)) = member →
  parent_id (get_topology_info s node_id (Some view)) = Some gl →
  role (get_topology_info s' gl (Some view)) ≠ member.
Proof.
  intros Hc Hrole Hparent.
  destruct (decide (node_id = view mod nodeCount (config s))) as [Hl|Hl].
  { by rewrite get_topology_info_root in Hrole. }
  rewrite get_topology_info_non_root in Hrole, Hparent by done.
  cbv zeta in *. simpl in *. case_decide; [done|]. simplify_eq.
  destruct (decide (node_id `div` (1 `max` (nodeCount (config s)
              `div` (1 `max` branchCount (config s)))) *
            (1 `max` (nodeCount (config s) `div` (1 `max` branchCount (config s))))
            = view mod nodeCount (config s'))) as [Hr|Hr].
  { by rewrite get_topology_info_root. }
  rewrite get_topology_info_non_root by done. cbv zeta. simpl. rewrite Hc.
  rewrite decide_True; [done|]. by rewrite Z.div_mul by lia.
Qed.

Lemma member_has_group_size s node_id view :
  role (get_topology_info s node_id (Some view)) = member →
  is_Some (group_size (get_topology_info s node_id (Some view))).
Proof.
  destruct (decide (node_id = view mod nodeCount (config s))) as [Hl|Hl].
  { by rewrite get_topology_info_root. }
  by rewrite get_topology_info_non_root.
Qed.

Lemma hierarchical_broadcast_not_out_of_fuel sender view s :
  hierarchical_broadcast sender view s ≠ OutOfFuel.
Proof.
  unfold hierarchical_broadcast. case_decide; [done|]. cbv zeta.
  match goal with |- for_each ?xs ?body ?s1 ≠ _ => generalize s1; generalize xs end.
  intros xs. induction xs as [|x xs IH]; intros s1; simpl; [done|].
  repeat (case_match || case_decide); simpl; try done; apply IH.
Qed.

Lemma hierarchical_broadcast_returns sender view s :
  branchCount (config s) ≠ 0 →
  sender = view mod nodeCount (config s) →
  ∃ s', hierarchical_broadcast sender view s = Ok s' ∧ config s' = config s.
Proof.
  intros Hk ->. unfold hierarchical_broadcast. rewrite decide_False by done.
  cbv zeta.
  match goal with
  | |- ∃ s', for_each ?xs ?body ?s1 = _ ∧ _ =>
      apply (for_each_returns (λ s', config s' = config s) xs body s1)
  end.
  { cbv beta. by case_match. }
  cbv beta. intros s1 gl [Hgl _]%list_elem_of_filter Hc.
  rewrite get_topology_info_non_root by (rewrite Hc; naive_solver).
  cbv zeta. simpl. case_decide; eauto.
Qed.

Lemma vote_frame_quorum_reached s m entry gl :
  outcome_rel vote_frame s (handle_vote_quorum_reached s m entry gl).
Proof.
  unfold handle_vote_quorum_reached. cbv zeta.
  eapply (outcome_rel_step vote_frame vote_frame_trans);
    [|apply (outcome_rel_bind vote_frame vote_frame_trans);
      [apply vote_frame_hierarchical_broadcast|]].
  - apply vote_frame_intro; simpl; try done. by apply prefix_app_r.
  - intros s' _. case_decide; simpl.
    + eapply vote_frame_trans; [apply vote_frame_apply_qc|].
      apply vote_frame_finalize_consensus.
    + apply vote_frame_apply_qc.
Qed.

Lemma vote_frame_case_B s m :
  outcome_rel vote_frame s (handle_vote_case_B s m).
Proof.
  unfold handle_vote_case_B. cbv zeta.
  case_decide; [apply vote_frame_refl|].
  case_decide; [by apply vote_frame_intro|].
  case_decide; [by apply vote_frame_intro|].
  eapply (outcome_rel_step vote_frame vote_frame_trans);
    [|apply vote_frame_quorum_reached].
  by apply vote_frame_intro.
Qed.

Lemma vote_frame_handle_vote_rec fuel s m :
  vote_view m ≤ current_view s →
  outcome_rel vote_frame s (handle_vote_rec fuel s m).
Proof.
  revert s m. induction fuel as [|fuel IH]; intros s m Hv; [done|].
  cbn [handle_vote_rec]. cbv zeta.
  rewrite decide_False by lia.
  case_decide; [apply vote_frame_refl|].
  case_decide; [|apply vote_frame_case_B].
  destruct (parent_id _) as [gl|]; [|apply vote_frame_refl].
  case_decide; [apply vote_frame_refl|].
  destruct (group_size _) as [gsz|]; [|by apply vote_frame_intro].
  case_decide; [by apply vote_frame_intro|].
  eapply (outcome_rel_step vote_frame vote_frame_trans); [|apply IH; simpl; lia].
  apply vote_frame_intro; simpl; try done. by apply prefix_app_r.
Qed.

Lemma quorum_reached_not_out_of_fuel s m entry gl :
  handle_vote_quorum_reached s m entry gl ≠ OutOfFuel.
Proof.
  unfold handle_vote_quorum_reached. cbv zeta.
  destruct (hierarchical_broadcast _ _ _) eqn:Hb; simpl; [by case_decide|done|].
  by apply hierarchical_broadcast_not_out_of_fuel in Hb.
Qed.

Lemma case_B_not_out_of_fuel s m : handle_vote_case_B s m ≠ OutOfFuel.
Proof.
  unfold handle_vote_case_B. cbv zeta.
  repeat (case_decide; [done|]). apply quorum_reached_not_out_of_fuel.
Qed.

Lemma handle_vote_rec_case_B fuel s m :
  vote_view m = current_view s →
  role (get_topology_info s (vote_from m) (Some (vote_view m))) ≠ member →
  handle_vote_rec (S fuel) s m = handle_vote_case_B s m.
Proof.
  intros Hv Hrole. cbn [handle_vote_rec]. cbv zeta.
  rewrite decide_False by lia. rewrite decide_False by lia.
  by rewrite decide_False.
Qed.

(** [handle_vote] needs at most one nested call. *)
Theorem handle_vote_total s m : handle_vote s m ≠ OutOfFuel.
Proof.
  unfold handle_vote. remember 1%nat as fuel eqn:Hfuel.
  cbn [handle_vote_rec]. cbv zeta.
  repeat (case_decide; [done|]).
  case_decide as Hrole; [|apply case_B_not_out_of_fuel].
  destruct (parent_id _) as [gl|] eqn:Hparent; [|done].
  case_decide; [done|].
  destruct (group_size _) as [gsz|]; [|done].
  case_decide; [done|]. subst fuel.
  rewrite handle_vote_rec_case_B; [apply case_B_not_out_of_fuel|simpl; lia|].
  by eapply group_start_not_member.
Qed.

Lemma config_apply_qc qc_msg nodes s :
  config (foldl (λ s0 node_id, handle_qc_message s0 qc_msg node_id) s nodes)
  = config s.
Proof. apply (vote_frame_apply_qc qc_msg nodes s). Qed.

Lemma quorum_reached_returns s m entry :
  branchCount (config s) ≠ 0 →
  ∃ s', handle_vote_quorum_reached s m entry
          (get_current_leader s (Some (vote_view m))) = Ok s'
        ∧ config s' = config s.
Proof.
  intros Hk. unfold handle_vote_quorum_reached. cbv zeta.
  match goal with
  | |- context [hierarchical_broadcast ?gl ?v ?s1] =>
      destruct (hierarchical_broadcast_returns gl v s1)
        as (s' & Hb & Hc); [done | done |]; rewrite Hb
  end.
  cbn [mbind result_bind].
  case_decide; eexists; (split; [done|]).
  - etrans; [apply vote_frame_finalize_consensus|].
    by rewrite config_apply_qc.
  - by rewrite config_apply_qc.
Qed.

Lemma case_B_returns s m :
  branchCount (config s) ≠ 0 →
  ∃ s', handle_vote_case_B s m = Ok s' ∧ config s' = config s.
Proof.
  intros Hk. unfold handle_vote_case_B. cbv zeta.
  repeat (case_decide; [by eauto|]).
  match goal with
  | |- context [handle_vote_quorum_reached ?s1 _ ?entry _] =>
      destruct (quorum_reached_returns s1 m entry) as (s' & Hq & Hc); [done|]
  end.
  simpl in *. eauto.
Qed.

(** With a branch count other than 0 no exception occurs: the vote handler
    returns. *)
Theorem handle_vote_returns s m :
  branchCount (config s) ≠ 0 →
  ∃ s', handle_vote s m = Ok s' ∧ config s' = config s.
Proof.
  intros Hk. unfold handle_vote. remember 1%nat as fuel eqn:Hfuel.
  cbn [handle_vote_rec]. cbv zeta.
  repeat (case_decide; [by eauto|]).
  case_decide as Hrole; [|by apply case_B_returns].
  destruct (parent_id _) as [gl|] eqn:Hparent; [|by eauto].
  case_decide; [by eauto|].
  destruct (member_has_group_size _ _ _ Hrole) as [gsz ->].
  case_decide; [by eauto|]. subst fuel.
  rewrite handle_vote_rec_case_B;
    [|simpl; lia|by eapply group_start_not_member].
  match goal with
  | |- context [handle_vote_case_B ?s1 ?gv] =>
      destruct (case_B_returns s1 gv) as (s' & Hb & Hc); [done|]
  end.
  eauto.
Qed.

End VoteFrame.

Lemma locked_le_handle_vote s m :
  outcome_rel locked_le s (Handlers.handle_vote s m).
Proof.
  unfold Handlers.handle_vote.
  destruct (decide (current_view s < vote_view m)) as [Hv|Hv].
  - rewrite handle_vote_rec_buffered by done. simpl.
    by apply locked_le_same.
  - pose proof (vote_frame_handle_vote_rec 2 s m ltac:(lia)) as Hf.
    destruct (Handlers.handle_vote_rec 2 s m); simpl in *; [apply Hf..|done].
Qed.

(** ** De-duplication sentinels *)
Section Sentinels.
Import Topology Handlers.

Lemma sentinel_frame_refl s : sentinel_frame s s.
Proof. done. Qed.

Lemma sentinel_frame_trans s1 s2 s3 :
  sentinel_frame s1 s2 → sentinel_frame s2 s3 → sentinel_frame s1 s3.
Proof. unfold sentinel_frame. intros [??] [??]. split; congruence. Qed.

Lemma sentinel_frame_hierarchical_broadcast sender view s :
  outcome_rel sentinel_frame s (hierarchical_broadcast sender view s).
Proof.
  unfold hierarchical_broadcast. case_decide; [done|]. cbv zeta.
  loop_from sentinel_frame sentinel_frame_trans s.
  { by case_match. }
  apply (for_each_rel sentinel_frame sentinel_frame_refl sentinel_frame_trans).
  intros s' x. repeat (case_match || case_decide); by simpl.
Qed.

Lemma finalize_consensus_again s st d :
  consensus_finalized_view s = Some (current_view s) →
  finalize_consensus s st d = s.
Proof. intros Hf. unfold finalize_consensus. by rewrite decide_True. Qed.

Lemma finalize_consensus_marks s st d :
  consensus_finalized_view (finalize_consensus s st d)
  = Some (current_view (finalize_consensus s st d)).
Proof. unfold finalize_consensus. by case_decide. Qed.

Lemma finalize_consensus_state_again s st d :
  consensus_finalized_view s = Some (current_view s) →
  Service.finalize_consensus_state s st d = s.
Proof. intros Hf. unfold Service.finalize_consensus_state. by rewrite decide_True. Qed.

Lemma finalize_consensus_state_marks s st d :
  consensus_finalized_view (Service.finalize_consensus_state s st d)
  = Some (current_view (Service.finalize_consensus_state s st d)).
Proof. unfold Service.finalize_consensus_state. by case_decide. Qed.

Lemma robot_send_pre_prepare_again s h :
  last_pre_prepare_view s = Some (current_view s) →
  robot_send_pre_prepare s h = Ok s.
Proof. intros Hl. unfold robot_send_pre_prepare. by rewrite decide_True. Qed.

(** However the first call ends, the sentinel holds the current view. *)
Lemma robot_send_pre_prepare_marks s h :
  outcome_rel (λ _ s', last_pre_prepare_view s' = Some (current_view s')) s
    (robot_send_pre_prepare s h).
Proof.
  unfold robot_send_pre_prepare. cbv zeta.
  case_decide as Hl; [exact Hl|].
  case_decide; [reflexivity|].
  set (s0 := log_pre_prepare _ _).
  apply (outcome_rel_mono
           (λ s', last_pre_prepare_view s' = Some (current_view s'))
           sentinel_frame s0 s).
  { by intros s' [-> ->]. }
  apply (outcome_rel_bind sentinel_frame sentinel_frame_trans);
    [apply sentinel_frame_hierarchical_broadcast|].
  intros s1 _.
  loop_from sentinel_frame sentinel_frame_trans s1; [done|].
  apply (for_each_rel sentinel_frame sentinel_frame_refl sentinel_frame_trans).
  intros s' x. repeat (case_match || case_decide); by simpl.
Qed.

End Sentinels.

(** ** The complexity report *)


(** ** The phase guard of Case B *)

Lemma case_B_phase_mismatch s m :
  vote_to m = Topology.get_current_leader s (Some (vote_view m)) →
  vote_phase m ≠ phase s →
  let key := (vote_view m, vote_phase m, vote_value m) in
  let old := default (mkPending 0 []) (pending_votes s !! key) in
  let w := if vote_is_group_vote m then default 1 (vote_weight m) else 1 in
  let voters := if vote_is_group_vote m
                then default [] (vote_group_voters m) else [vote_from m] in
  Handlers.handle_vote_case_B s m =
    Ok (set_pending_votes
          (<[key := mkPending (total_weight old + w)
                      (group_votes old ++ [mkContribution (vote_from m) w voters])]>
             (pending_votes s)) s).
Proof.
  intros Hto Hphase. unfold Handlers.handle_vote_case_B. cbv zeta.
  rewrite decide_False by naive_solver.
  rewrite decide_True by done.
  by destruct (vote_is_group_vote m).
Qed.

(** ** The view check and the vote buffer *)
Section Buffer.
Import Topology Handlers.

Lemma handle_vote_stale s m :
  vote_view m < current_view s → handle_vote s m = Ok s.
Proof. apply handle_vote_rec_stale. Qed.

Lemma handle_vote_buffered s m :
  current_view s < vote_view m →
  handle_vote s m =
    Ok (set_message_buffer
          (<[vote_view m := default [] (message_buffer s !! vote_view m) ++ [m]]>
             (message_buffer s)) s).
Proof. apply handle_vote_rec_buffered. Qed.

Lemma service_handle_vote_stale s m :
  vote_view m < current_view s →
  Service.handle_vote s m = Ok (Service.mkVoteResult "ignored" None None, s).
Proof.
  intros Hv. unfold Service.handle_vote. cbv zeta.
  rewrite decide_False by lia. by rewrite decide_True.
Qed.

Lemma service_handle_vote_buffered s m :
  current_view s < vote_view m →
  Service.handle_vote s m =
    Ok (Service.mkVoteResult "buffered" None None,
        set_message_buffer
          (<[vote_view m := default [] (message_buffer s !! vote_view m) ++ [m]]>
             (message_buffer s)) s).
Proof.
  intros Hv. unfold Service.handle_vote. cbv zeta. by rewrite decide_True.
Qed.

(** A vote of the current view or below leaves the buffer alone. *)
Lemma handle_vote_frame s m :
  vote_view m ≤ current_view s → outcome_rel vote_frame s (handle_vote s m).
Proof. apply vote_frame_handle_vote_rec. Qed.

(** The vote handler keeps every buffered vote under its own view. *)
Lemma wf_buffer_handle_vote s m :
  wf_buffer s → outcome_rel (λ _ s', wf_buffer s') s (handle_vote s m).
Proof.
  intros Hwf. destruct (decide (current_view s < vote_view m)) as [Hv|Hv].
  - rewrite handle_vote_buffered by done. simpl.
    unfold wf_buffer. simpl. apply map_Forall_insert_2; [|done].
    apply Forall_app. split; [|by apply Forall_singleton].
    destruct (message_buffer s !! vote_view m) as [l|] eqn:El; [|done].
    by apply (map_Forall_lookup_1 _ _ _ _ Hwf El).
  - apply (outcome_rel_mono wf_buffer vote_frame s s);
      [|apply handle_vote_frame; lia].
    intros s' (_ & _ & _ & Hb & _). unfold wf_buffer. rewrite Hb. exact Hwf.
Qed.

(** The replay loop over the buffered list is the in-order replay of the
    votes found in the buffer when the loop starts: no vote handled during
    the replay changes the list. *)
Lemma replay_buffered_votes_in_order votes new_view :
  (∀ m, m ∈ votes → vote_view m = new_view) →
  ∀ fuel i s,
    message_buffer s !! new_view = Some votes →
    current_view s = new_view →
    (length votes - i < fuel)%nat →
    replay_buffered_votes fuel i new_view s
    = for_each (drop i votes) handle_vote s.
Proof.
  intros Hviews. induction fuel as [|fuel IH]; intros i s Hb Hc Hfuel; [lia|].
  cbn [replay_buffered_votes]. rewrite Hb. cbn [from_option id].
  destruct (votes !! i) as [m|] eqn:Hi.
  - rewrite (drop_S _ _ _ Hi). cbn [for_each].
    assert (vote_view m = new_view) as Hm
      by (apply Hviews; by eapply list_elem_of_lookup_2).
    pose proof (handle_vote_frame s m ltac:(lia)) as Hf.
    apply lookup_lt_Some in Hi.
    destruct (handle_vote s m) as [s'|e s'|]; simpl in *; [|done..].
    destruct Hf as (_ & Hc' & _ & Hb' & _).
    apply IH; [by rewrite Hb' | lia | lia].
  - apply lookup_ge_None in Hi. by rewrite drop_ge.
Qed.

Lemma replay_in_order_returns votes s :
  branchCount (config s) ≠ 0 →
  (∀ m, m ∈ votes → vote_view m ≤ current_view s) →
  ∃ s2, replay_in_order votes s = Ok s2 ∧ vote_frame s s2.
Proof.
  unfold replay_in_order. revert s.
  induction votes as [|m votes IH]; intros s Hk Hviews; simpl.
  - eexists. split; [done | apply vote_frame_refl].
  - destruct (handle_vote_returns s m Hk) as (s' & Hs' & Hc).
    pose proof (handle_vote_frame s m) as Hf. rewrite Hs' in Hf. simpl in Hf.
    specialize (Hf (Hviews m ltac:(left))).
    rewrite Hs'. simpl.
    destruct (IH s') as (s2 & Hs2 & Hf2).
    + by rewrite Hc.
    + intros m' Hm'. destruct Hf as (_ & -> & _). apply Hviews. by right.
    + exists s2. split; [done | by eapply vote_frame_trans].
Qed.

Lemma enter_frame_refl s : enter_frame s s.
Proof. by unfold enter_frame. Qed.

Lemma enter_frame_trans s1 s2 s3 :
  enter_frame s1 s2 → enter_frame s2 s3 → enter_frame s1 s3.
Proof.
  unfold enter_frame. intros (?&?&?&?&?&?) (?&?&?&?&?&?).
  split_and!; try congruence. set_solver.
Qed.

Lemma enter_frame_hierarchical_broadcast sender view s :
  outcome_rel enter_frame s (hierarchical_broadcast sender view s).
Proof.
  unfold hierarchical_broadcast. case_decide; [apply enter_frame_refl|].
  cbv zeta.
  loop_from enter_frame enter_frame_trans s.
  { case_match; by unfold enter_frame. }
  apply (for_each_rel enter_frame enter_frame_refl enter_frame_trans).
  intros s' x. repeat (case_match || case_decide); by unfold enter_frame.
Qed.

Lemma enter_frame_robot_send_pre_prepare s h :
  outcome_rel enter_frame s (robot_send_pre_prepare s h).
Proof.
  unfold robot_send_pre_prepare. cbv zeta.
  case_decide; [apply enter_frame_refl|].
  case_decide; [by unfold enter_frame|].
  set (s0 := log_pre_prepare _ _).
  apply (outcome_rel_step enter_frame enter_frame_trans s s0);
    [by unfold enter_frame|].
  apply (outcome_rel_bind enter_frame enter_frame_trans);
    [apply enter_frame_hierarchical_broadcast|].
  intros s1 _.
  loop_from enter_frame enter_frame_trans s1; [by unfold enter_frame|].
  apply (for_each_rel enter_frame enter_frame_refl enter_frame_trans).
  intros s' x. case_decide; [|apply enter_frame_refl].
  case_match; [|apply enter_frame_refl].
  unfold enter_frame. simpl. split_and!; try done.
  rewrite dom_insert_L. set_solver.
Qed.

(** With a branch count other than 0 and a state for every robot, the
    PRE-PREPARE emission returns. *)
Lemma robot_send_pre_prepare_returns s h :
  branchCount (config s) ≠ 0 →
  (∀ r, r ∈ robot_nodes s → r ∈ dom (robot_node_states s)) →
  ∃ s', robot_send_pre_prepare s h = Ok s'.
Proof.
  intros Hk Hrobots.
  pose proof (enter_frame_robot_send_pre_prepare s h) as Hframe.
  unfold robot_send_pre_prepare in *. cbv zeta in *.
  case_decide; [by eauto|]. case_decide; [by eauto|].
  set (s0 := log_pre_prepare _ _) in *.
  destruct (hierarchical_broadcast_returns
              (get_current_leader
                 (set_last_pre_prepare_view (Some (current_view s)) s) None)
              (current_view s) s0) as (s1 & Hb & Hc); [done | done |].
  pose proof (enter_frame_hierarchical_broadcast
                (get_current_leader
                   (set_last_pre_prepare_view (Some (current_view s)) s) None)
                (current_view s) s0) as Hf1.
  rewrite Hb in Hf1 |- *. simpl in Hf1. cbn [mbind result_bind].
  destruct Hf1 as (_ & _ & _ & Hr1 & Hd1 & _).
  match goal with
  | |- ∃ s', for_each ?xs ?body ?s2 = _ =>
      destruct (for_each_returns
                  (λ s', ∀ r, r ∈ robot_nodes s → r ∈ dom (robot_node_states s'))
                  xs body s2) as (s' & Hs' & _)
  end.
  - intros r Hr. simpl. apply Hd1. simpl. by apply Hrobots.
  - intros s2 r Hr Hdom. simpl in Hr. rewrite Hr1 in Hr. simpl in Hr.
    case_decide; [|by eauto].
    destruct (robot_node_states s2 !! r) as [st|] eqn:Est.
    + eexists. split; [done|]. intros r' Hr'. simpl.
      rewrite dom_insert_L. specialize (Hdom r' Hr'). set_solver.
    + specialize (Hdom r Hr). by apply not_elem_of_dom in Est.
  - eauto.
Qed.

Lemma reset_robots_spec robots s :
  let s' := foldl (λ s robot_id,
                     set_robot_node_states
                       (<[robot_id := mkRobotState false 0 0 false false]>
                          (robot_node_states s)) s) s robots in
  enter_frame s s' ∧ ∀ r, r ∈ robots → r ∈ dom (robot_node_states s').
Proof.
  revert s. induction robots as [|r robots IH]; intros s; simpl.
  - split; [apply enter_frame_refl | by intros r ?%elem_of_nil].
  - match goal with
    | |- context [foldl _ ?s1 robots] => destruct (IH s1) as [Hf Hdom]
    end.
    split.
    + eapply enter_frame_trans; [|exact Hf].
      unfold enter_frame. simpl. split_and!; try done.
      rewrite dom_insert_L. set_solver.
    + intros r' [->|Hr']%elem_of_cons; [|by apply Hdom].
      destruct Hf as (_ & _ & _ & _ & Hsub & _). apply Hsub. simpl.
      rewrite dom_insert_L. set_solver.
Qed.

Lemma send_new_views_frame nodes new_view old_view leader s :
  enter_frame s
    (foldl (λ s node_id,
              let highQC := node_states s !! node_id ≫= highQC in
              let new_view_msg :=
                mkNewView node_id leader new_view old_view
                  (current_round s) highQC in
              let s := log_new_view new_view_msg s in
              if decide (node_id = leader) then s
              else
                let pnv := pending_new_views s in
                let s := set_pending_new_views
                           (<[new_view := <[node_id := new_view_msg]>
                                            (default ∅ (pnv !! new_view))]> pnv) s in
                count_message_sent false None s)
       s nodes).
Proof.
  apply (foldl_rel enter_frame enter_frame_refl enter_frame_trans).
  intros s' x. cbv zeta. case_decide; by unfold enter_frame.
Qed.

(** Entering the new view returns, with the view advanced by one and the
    vote buffer as it was. *)
Lemma trigger_view_change_enter_spec s old_view :
  branchCount (config s) ≠ 0 →
  ∃ s1, trigger_view_change_enter s old_view = Ok s1 ∧
        config s1 = config s ∧
        current_view s1 = old_view + 1 ∧
        message_buffer s1 = message_buffer s.
Proof.
  intros Hk. unfold trigger_view_change_enter. cbv zeta.
  set (leader := get_current_leader s (Some (old_view + 1))).
  set (s0 := set_view (old_view + 1) leader s).
  destruct (reset_robots_spec (robot_nodes s0) s0) as [Hf1 Hdom].
  cbv zeta in Hf1, Hdom.
  set (s1 := foldl _ s0 (robot_nodes s0)) in *.
  pose proof (send_new_views_frame (range (nodeCount (config s)))
                (old_view + 1) old_view leader s1) as Hf2.
  set (s2 := foldl _ s1 (range (nodeCount (config s)))) in *.
  pose proof (enter_frame_trans _ _ _ Hf1 Hf2) as (Hc & Hv & Hb & Hr & _ & Hn).
  destruct Hf2 as (_ & _ & _ & _ & Hd & _).
  unfold start_new_view_consensus. cbv zeta.
  case_decide; [by exists s2|].
  case_decide; [|by exists s2].
  match goal with
  | |- context [robot_send_pre_prepare s2 ?h] =>
      destruct (robot_send_pre_prepare_returns s2 h) as (s3 & Hs3);
        [by rewrite Hc | |];
        [|pose proof (enter_frame_robot_send_pre_prepare s2 h) as Hf3;
          rewrite Hs3 in Hf3 |- *; simpl in Hf3]
  end.
  - intros r Hr'. apply Hd. apply Hdom. by rewrite Hr in Hr'.
  - exists s3. destruct Hf3 as (Hc3 & Hv3 & Hb3 & _).
    split_and!; [done | by rewrite Hc3, Hc | by rewrite Hv3, Hv
                | by rewrite Hb3, Hb].
Qed.

End Buffer.

(** ** The aggregator: QCs and GroupVotes *)
Section Aggregator.
Import Engine Topology Handlers.

(** The signers of a QC are the elements of a set: no node id twice. *)
Lemma all_voters_signers_NoDup gvs : NoDup (elements (all_voters gvs)).
Proof. apply NoDup_elements. Qed.

(** In the socket handlers a vote of the current view whose phase is not the
    session phase produces no QC and leaves the phase alone, whatever its
    weight and whether it comes from a member or not. *)
Lemma handle_vote_phase_guard s m :
  vote_view m = current_view s → vote_phase m ≠ phase s →
  outcome_rel (λ s s', msgs_qc (messages s') = msgs_qc (messages s) ∧
                       phase s' = phase s) s (handle_vote s m).
Proof.
  intros Hv Hp. unfold handle_vote. remember 1%nat as fuel eqn:Hfuel.
  cbn [handle_vote_rec]. cbv zeta.
  rewrite decide_False by lia. rewrite decide_False by lia.
  case_decide as Hrole.
  - destruct (parent_id _) as [gl|] eqn:Hparent; [|done].
    case_decide; [done|].
    destruct (group_size _) as [gsz|]; [|done].
    case_decide; [done|]. subst fuel.
    rewrite handle_vote_rec_case_B;
      [|simpl; lia|by eapply group_start_not_member].
    by rewrite case_B_phase_mismatch.
  - unfold handle_vote_case_B. cbv zeta.
    case_decide; [done|]. by rewrite decide_True.
Qed.

(** Case A, wrong target: the vote of a member that is not addressed to its
    group leader is dropped. *)
Lemma member_vote_wrong_target s m :
  vote_view m = current_view s →
  role (get_topology_info s (vote_from m) (Some (vote_view m))) = member →
  parent_id (get_topology_info s (vote_from m) (Some (vote_view m)))
    ≠ Some (vote_to m) →
  handle_vote s m = Ok s.
Proof.
  intros Hv Hrole Hparent. unfold handle_vote. cbn [handle_vote_rec]. cbv zeta.
  rewrite decide_False by lia. rewrite decide_False by lia.
  rewrite decide_True by done.
  destruct (parent_id _) as [gl|]; [|done].
  rewrite decide_True; [done | congruence].
Qed.

(** Case A, local quorum reached: the GroupVote carries the size of the
    voter set as weight, goes to the vote log and is aggregated as a Case B
    vote of the group leader to the global leader. *)
Lemma member_vote_group_vote s m gl gsz :
  vote_view m = current_view s →
  role (get_topology_info s (vote_from m) (Some (vote_view m))) = member →
  parent_id (get_topology_info s (vote_from m) (Some (vote_view m))) = Some gl →
  group_size (get_topology_info s (vote_from m) (Some (vote_view m))) = Some gsz →
  vote_to m = gl →
  let key := (vote_view m, vote_phase m, vote_value m, gl) in
  let group_voters := default ∅ (pending_group_votes s !! key) ∪ {[vote_from m]} in
  get_local_quorum_threshold s gsz ≤ Z.of_nat (size group_voters) →
  let group_vote :=
    mkVote gl (get_current_leader s (Some (vote_view m))) (vote_value m)
      (vote_phase m) (vote_view m) (current_round s) true
      (Some (Z.of_nat (size group_voters)))
      (group_id (get_topology_info s (vote_from m) (Some (vote_view m))))
      (Some (elements group_voters)) in
  handle_vote s m =
    handle_vote_case_B
      (log_vote group_vote
         (set_pending_group_votes
            (<[key := group_voters]> (pending_group_votes s)) s))
      group_vote.
Proof.
  intros Hv Hrole Hparent Hsize Hto key group_voters Hq group_vote.
  unfold handle_vote. remember 1%nat as fuel eqn:Hfuel.
  cbn [handle_vote_rec]. cbv zeta.
  rewrite decide_False by lia. rewrite decide_False by lia.
  rewrite decide_True by done. rewrite Hparent.
  rewrite decide_False by naive_solver. rewrite Hsize.
  fold key group_voters.
  rewrite decide_False by (unfold get_local_quorum_threshold in *; lia).
  subst fuel. fold group_vote.
  apply handle_vote_rec_case_B; [done|].
  by eapply group_start_not_member.
Qed.

(** Every phase but "decide" is left by [get_next_phase]. *)
Lemma get_next_phase_advances p :
  p ≠ "decide" → get_next_phase p ≠ p.
Proof.
  intros Hp. unfold get_next_phase.
  repeat case_decide; subst; done.
Qed.

(** Votes of the current view that carry a phase other than the session
    phase, in any number and of any weight: the socket handler emits no QC
    and the session phase stays. *)
Lemma old_phase_votes_emit_no_qc votes s p :
  branchCount (config s) ≠ 0 →
  p ≠ phase s →
  (∀ m, m ∈ votes → vote_view m = current_view s ∧ vote_phase m = p) →
  ∃ s', replay_in_order votes s = Ok s' ∧
        msgs_qc (messages s') = msgs_qc (messages s) ∧
        phase s' = phase s.
Proof.
  unfold replay_in_order. revert s.
  induction votes as [|m votes IH]; intros s Hk Hp Hvotes; simpl; [by eauto|].
  destruct (Hvotes m) as [Hv Hm]; [by left|].
  destruct (handle_vote_returns s m Hk) as (s1 & Hs1 & Hc1).
  pose proof (handle_vote_phase_guard s m Hv ltac:(congruence)) as Hg.
  pose proof (handle_vote_frame s m ltac:(lia)) as Hf.
  rewrite Hs1 in Hg, Hf |- *. simpl in Hg, Hf. destruct Hg as [Hq1 Hp1].
  destruct Hf as (_ & Hcv & _).
  cbn [mbind result_bind].
  destruct (IH s1) as (s' & Hs' & Hq' & Hp').
  - by rewrite Hc1.
  - by rewrite Hp1.
  - intros m' Hm'. rewrite Hcv. apply Hvotes. by right.
  - exists s'. split; [done|]. split; congruence.
Qed.

(** The guard of the socket handler compares with the current phase only:
    once the session phase is "prepare" again within the view (the QC of
    votes stamped "completed" leads there), a vote for "prepare" yields a
    second QC for [(0, "prepare", 9)]. *)
Lemma socket_handler_second_qc_through_completed :
  ∃ s', replay_in_order votes_through_completed (started 5 2 9) = Ok s' ∧
        qc_key <$> msgs_qc (messages s')
          = [(0, "prepare", 9); (0, "pre-commit", 9); (0, "commit", 9);
             (0, "completed", 9); (0, "prepare", 9)].
Proof.
  exists (session_of (replay_in_order votes_through_completed (started 5 2 9))
            (started 5 2 9)).
  split; vm_compute; reflexivity.
Qed.

End Aggregator.

(** ** lockedQC across the handlers *)
Section LockedAcrossHandlers.
Import Topology Handlers.

Lemma outcome_rel_impl (R R' : Session → Session → Prop) s (r : result Session) :
  (∀ s', R s s' → R' s s') → outcome_rel R s r → outcome_rel R' s r.
Proof. destruct r; simpl; eauto. Qed.

Lemma locked_le_enter_frame s s' : enter_frame s s' → locked_le s s'.
Proof. intros (_ & _ & _ & _ & _ & Hn). by apply locked_le_same. Qed.

Lemma locked_le_finalize_consensus s st d :
  locked_le s (finalize_consensus s st d).
Proof. apply vote_frame_finalize_consensus. Qed.

Lemma locked_le_robot_send_pre_prepare s h :
  outcome_rel locked_le s (robot_send_pre_prepare s h).
Proof.
  eapply outcome_rel_impl; [apply locked_le_enter_frame|].
  apply enter_frame_robot_send_pre_prepare.
Qed.

(** Entering the new view, however it ends, touches neither the node
    states nor the buffer, and leaves the view at [old_view + 1]. *)
Lemma enter_frame_trigger_view_change_enter s old_view :
  outcome_rel
    (λ s s', enter_frame
               (set_view (old_view + 1)
                  (get_current_leader s (Some (old_view + 1))) s) s')
    s (trigger_view_change_enter s old_view).
Proof.
  unfold trigger_view_change_enter. cbv zeta.
  set (leader := get_current_leader s (Some (old_view + 1))).
  set (s0 := set_view (old_view + 1) leader s).
  destruct (reset_robots_spec (robot_nodes s0) s0) as [Hf1 _].
  cbv zeta in Hf1.
  set (s1 := foldl _ s0 (robot_nodes s0)) in *.
  pose proof (send_new_views_frame (range (nodeCount (config s)))
                (old_view + 1) old_view leader s1) as Hf2.
  set (s2 := foldl _ s1 (range (nodeCount (config s)))) in *.
  pose proof (enter_frame_trans _ _ _ Hf1 Hf2) as H02.
  unfold start_new_view_consensus. cbv zeta.
  case_decide; [exact H02|]. case_decide; [|exact H02].
  pose proof (enter_frame_robot_send_pre_prepare s2
                (foldl
                   (λ (acc : option QC * Z) node_id,
                      match default ∅ (pending_new_views s2 !! (old_view + 1))
                              !! node_id ≫= nv_highQC with
                      | Some qc =>
                          if decide (acc.2 < qc_view qc)
                          then (Some qc, qc_view qc) else acc
                      | None => acc
                      end) (None, -1) (range (nodeCount (config s2)))).1)
    as Hf3.
  destruct (robot_send_pre_prepare s2 _) as [s3|e s3|]; simpl in *;
    [by eapply enter_frame_trans..|done].
Qed.

Lemma locked_le_trigger_view_change_enter s old_view :
  outcome_rel locked_le s (trigger_view_change_enter s old_view).
Proof.
  eapply outcome_rel_impl; [|apply enter_frame_trigger_view_change_enter].
  intros s' (_ & _ & _ & _ & _ & Hn). by apply locked_le_same.
Qed.

Lemma for_each_not_out_of_fuel {A} (xs : list A) body s :
  (∀ s x, body s x ≠ OutOfFuel) → for_each xs body s ≠ OutOfFuel.
Proof.
  intros Hbody. revert s. induction xs as [|x xs IH]; intros s; simpl; [done|].
  specialize (Hbody s x). destruct (body s x); simpl; [apply IH|done..].
Qed.

Lemma robot_send_pre_prepare_not_out_of_fuel s h :
  robot_send_pre_prepare s h ≠ OutOfFuel.
Proof.
  unfold robot_send_pre_prepare. cbv zeta. repeat (case_decide; [done|]).
  destruct (hierarchical_broadcast _ _ _) as [s1|e s1|] eqn:Hb; simpl; [|done|].
  - apply for_each_not_out_of_fuel. intros s2 x.
    repeat (case_decide || case_match); done.
  - by apply hierarchical_broadcast_not_out_of_fuel in Hb.
Qed.

Lemma trigger_view_change_enter_not_out_of_fuel s old_view :
  trigger_view_change_enter s old_view ≠ OutOfFuel.
Proof.
  unfold trigger_view_change_enter, start_new_view_consensus. cbv zeta.
  case_decide; [done|]. case_decide; [|done].
  apply robot_send_pre_prepare_not_out_of_fuel.
Qed.

(** No vote changes the buffer entry of the current view. *)
Lemma handle_vote_keeps_current_entry s m :
  outcome_rel (λ s s', current_view s' = current_view s ∧
                       message_buffer s' !! current_view s
                       = message_buffer s !! current_view s)
    s (handle_vote s m).
Proof.
  destruct (decide (current_view s < vote_view m)) as [Hv|Hv].
  - rewrite handle_vote_buffered by done. simpl.
    split; [done|]. apply lookup_insert_ne. lia.
  - eapply outcome_rel_impl; [|apply handle_vote_frame; lia].
    intros s' (_ & Hc & _ & Hb & _). by rewrite Hb.
Qed.

(** The fuel given to the replay loop is enough: the buffered list does not
    grow while it is replayed. *)
Lemma replay_buffered_votes_not_out_of_fuel votes new_view :
  ∀ fuel i s,
    message_buffer s !! new_view = Some votes →
    current_view s = new_view →
    (length votes - i < fuel)%nat →
    replay_buffered_votes fuel i new_view s ≠ OutOfFuel.
Proof.
  induction fuel as [|fuel IH]; intros i s Hb Hc Hfuel; [lia|].
  cbn [replay_buffered_votes]. rewrite Hb. cbn [from_option id].
  destruct (votes !! i) as [m|] eqn:Hi; [|done].
  apply lookup_lt_Some in Hi.
  pose proof (handle_vote_keeps_current_entry s m) as Hk.
  pose proof (handle_vote_total s m) as Ht.
  destruct (handle_vote s m) as [s'|e s'|]; simpl in *; [|done..].
  destruct Hk as [Hc' Hb']. rewrite Hc in Hb'.
  apply IH; [by rewrite Hb' | congruence | lia].
Qed.

(** The view change ends: it returns or raises. *)
Theorem trigger_view_change_total s old_view :
  trigger_view_change s old_view ≠ OutOfFuel.
Proof.
  unfold trigger_view_change.
  pose proof (trigger_view_change_enter_not_out_of_fuel s old_view) as Ht.
  pose proof (enter_frame_trigger_view_change_enter s old_view) as Hf.
  destruct (trigger_view_change_enter s old_view) as [s1|e s1|];
    simpl in *; [|done..].
  unfold trigger_view_change_drain.
  destruct (message_buffer s1 !! (old_view + 1)) as [votes|] eqn:Hb; [|done].
  pose proof (replay_buffered_votes_not_out_of_fuel votes (old_view + 1)
                (S (length votes)) 0%nat s1 Hb) as Hr.
  destruct (replay_buffered_votes _ _ _ _) as [s2|e s2|]; simpl; [done..|].
  apply Hr; [by destruct Hf as (_ & -> & _) | lia].
Qed.

Lemma locked_le_replay_buffered_votes fuel i new_view s :
  outcome_rel locked_le s (replay_buffered_votes fuel i new_view s).
Proof.
  revert i s. induction fuel as [|fuel IH]; intros i s; [done|].
  cbn [replay_buffered_votes]. case_match; [|apply locked_le_refl].
  apply (outcome_rel_bind locked_le locked_le_trans);
    [apply locked_le_handle_vote|].
  intros s' _. apply IH.
Qed.

Lemma locked_le_trigger_view_change s old_view :
  outcome_rel locked_le s (trigger_view_change s old_view).
Proof.
  unfold trigger_view_change.
  apply (outcome_rel_bind locked_le locked_le_trans);
    [apply locked_le_trigger_view_change_enter|].
  intros s1 _. unfold trigger_view_change_drain.
  case_match; [|apply locked_le_refl].
  apply (outcome_rel_bind locked_le locked_le_trans);
    [apply locked_le_replay_buffered_votes|].
  intros s2 _. by apply locked_le_same.
Qed.

End LockedAcrossHandlers.

(** * Main results *)

(** C1.  [check_safe_node] follows the decision order of the SafeNode
    predicate: it accepts when the node has no lockedQC and when the proposal
    view is above the locked view; otherwise a proposal that carries a QC is
    accepted exactly when [qc_extends] holds of that QC and the lockedQC, and
    a proposal without QC exactly when it has the locked value and a view not
    below the locked view.  [qc_extends a b] holds iff [b] is nil, or [a] is
    not nil, has a higher view and the same value.  Hence a node locked at
    view [v] rejects every proposal of view at most [v] with another value
    whose QC does not extend the lockedQC. *)
Theorem C1_check_safe_node_decision_order
    (s : Session) (node_id pv pval : Z) (pqc : option QC) :
  (locked_of s node_id = None →
     Engine.check_safe_node s node_id pv pval pqc = true) ∧
  (∀ lq, locked_of s node_id = Some lq → qc_view lq < pv →
     Engine.check_safe_node s node_id pv pval pqc = true) ∧
  (∀ lq, locked_of s node_id = Some lq → pv ≤ qc_view lq → is_Some pqc →
     Engine.check_safe_node s node_id pv pval pqc
     = Engine.qc_extends pqc (locked_of s node_id)) ∧
  (∀ lq, locked_of s node_id = Some lq → pv ≤ qc_view lq → pqc = None →
     (Engine.check_safe_node s node_id pv pval pqc = true ↔
      pval = qc_value lq ∧ qc_view lq ≤ pv)) ∧
  (∀ a b, Engine.qc_extends a b = true ↔
     b = None ∨ ∃ qa qb, a = Some qa ∧ b = Some qb ∧
                         qc_view qb < qc_view qa ∧ qc_value qa = qc_value qb) ∧
  (∀ lq, locked_of s node_id = Some lq → pv ≤ qc_view lq →
     pval ≠ qc_value lq → Engine.qc_extends pqc (locked_of s node_id) = false →
     Engine.check_safe_node s node_id pv pval pqc = false).
Proof.
  split_and!.
  - apply check_safe_node_unlocked.
  - intros lq. apply check_safe_node_fresh.
  - intros lq Hl Hle [q ->]. rewrite Hl. by apply check_safe_node_with_qc.
  - intros lq Hl Hle ->. by apply check_safe_node_without_qc.
  - apply qc_extends_spec.
  - intros lq Hl Hle Hval Hext. destruct pqc as [q|].
    + rewrite (check_safe_node_with_qc _ _ _ _ _ lq) by done.
      by rewrite Hl in Hext.
    + apply not_true_iff_false.
      rewrite (check_safe_node_without_qc _ _ _ _ lq) by done. naive_solver.
Qed.

Lemma C1_check_safe_node_witness :
  Engine.check_safe_node locked_session 2 4 9 None = false.
Proof.
  refine (proj2 (proj2 (proj2 (proj2 (proj2
            (C1_check_safe_node_decision_order locked_session 2 4 9 None)))))
            qc_v5 _ _ _ _).
  - vm_compute. reflexivity.
  - simpl. lia.
  - simpl. lia.
  - vm_compute. reflexivity.
Defined.

(** C2.  The aggregator of the service emits a second QC for the key
    [(0, "prepare", 9)].  With five nodes the votes of nodes 2, 4 and 3 reach
    the quorum 3 and a QC is emitted; the session phase is then
    "pre-commit".  The vote of node 1, still of phase "prepare", makes
    [ConsensusService.handle_vote] answer "qc_generated" again, with a second
    QC for the same key in the log: [_process_global_vote] never compares
    the phase of the vote with the session phase.  On the same votes the
    socket handler drops the last vote and keeps one QC. *)
Theorem C2_service_emits_second_qc :
  ∃ s3 r s4,
    service_run quorum_votes_5 (started 5 2 9) = Ok s3 ∧
    qc_key <$> msgs_qc (messages s3) = [(0, "prepare", 9)] ∧
    phase s3 = Engine.get_next_phase "prepare" ∧
    Service.handle_vote s3 late_vote_5 = Ok (r, s4) ∧
    Service.vr_status r = "qc_generated" ∧
    qc_key <$> msgs_qc (messages s4)
      = [(0, "prepare", 9); (0, "prepare", 9)] ∧
    ∃ h3 h4,
      replay_in_order quorum_votes_5 (started 5 2 9) = Ok h3 ∧
      qc_key <$> msgs_qc (messages h3) = [(0, "prepare", 9)] ∧
      Handlers.handle_vote h3 late_vote_5 = Ok h4 ∧
      qc_key <$> msgs_qc (messages h4) = [(0, "prepare", 9)].
Proof.
  set (s3 := session_of (service_run quorum_votes_5 (started 5 2 9))
               (started 5 2 9)).
  set (s4 := session_of (service_run [late_vote_5] s3) s3).
  set (h3 := session_of (replay_in_order quorum_votes_5 (started 5 2 9))
               (started 5 2 9)).
  set (h4 := session_of (Handlers.handle_vote h3 late_vote_5) h3).
  exists s3, (Service.mkVoteResult "qc_generated"
                (Some (mkVote 0 0 9 "prepare" 0 1 true (Some 1) (Some 0)
                         (Some [1])))
                (last (msgs_qc (messages s4)))), s4.
  do 6 (split; [vm_compute; reflexivity|]).
  exists h3, h4.
  do 3 (split; [vm_compute; reflexivity|]). vm_compute. reflexivity.
Qed.

(** C3.  A QC is emitted with fewer signers than the quorum.  With seven
    nodes (quorum 5) members 4 and 5 vote to group leader 3 and members 1
    and 2 to group start 0, each once.  Every member vote re-emits the
    GroupVote of its group with the whole voter set as weight, so the tally
    reaches 1 + 2 + 1 + 2 = 6 and the QC is built with the four signers
    1, 2, 4, 5.  The signers are pairwise distinct.  The socket handler and
    the service behave alike. *)
Theorem C3_qc_with_fewer_signers_than_quorum :
  ∃ s' q,
    replay_in_order member_votes_7 (started 7 2 9) = Ok s' ∧
    msgs_qc (messages s') = [q] ∧
    Engine.get_quorum_threshold s' = 5 ∧
    qc_total_weight (qcm_qc q) = 6 ∧
    length (qc_signers (qcm_qc q)) = 4%nat ∧
    NoDup (qc_signers (qcm_qc q)) ∧
    (∀ x, x ∈ qc_signers (qcm_qc q) ↔ x ∈ [1; 2; 4; 5]) ∧
    ∃ t', service_run member_votes_7 (started 7 2 9) = Ok t' ∧
          msgs_qc (messages t') = [q].
Proof.
  exists (session_of (replay_in_order member_votes_7 (started 7 2 9))
            (started 7 2 9)),
         (mkQCMsg 0 "prepare" "pre-commit" 0 1
            (mkQC "prepare" 0 [5; 4; 2; 1] 9 6 true)).
  do 5 (split; [vm_compute; reflexivity|]).
  split; [apply (bool_decide_unpack _); vm_compute; exact I|].
  split; [intros x; cbn [qcm_qc qc_signers]; set_solver|].
  exists (session_of (service_run member_votes_7 (started 7 2 9))
            (started 7 2 9)).
  split; vm_compute; reflexivity.
Qed.

(** C4.  The GroupVote of a key is emitted again by every further member
    vote.  With seven nodes (local quorum 1 in the group {3,4,5}) the vote of
    member 4 makes group leader 3 emit a GroupVote of weight 1 for the key
    [(0, "prepare", 9, 3)]; the vote of member 5 for the same key emits a
    second GroupVote for that key, of weight 2, and both weights are added
    to the global tally, which stands at 3 after two member votes.  The
    socket handler and the service behave alike. *)
Theorem C4_group_vote_emitted_again :
  ∃ s1 s2 gv1 gv2,
    Handlers.handle_vote (started 7 2 9) (direct_vote 4 3 9 "prepare" 0) = Ok s1 ∧
    group_votes_for (0, "prepare", 9, 3) s1 = [gv1] ∧
    vote_weight gv1 = Some 1 ∧
    Handlers.handle_vote s1 (direct_vote 5 3 9 "prepare" 0) = Ok s2 ∧
    group_votes_for (0, "prepare", 9, 3) s2 = [gv1; gv2] ∧
    vote_weight gv2 = Some 2 ∧
    total_weight <$> pending_votes s2 !! (0, "prepare", 9) = Some 3 ∧
    ∃ t2, service_run [direct_vote 4 3 9 "prepare" 0;
                       direct_vote 5 3 9 "prepare" 0] (started 7 2 9) = Ok t2 ∧
          group_votes_for (0, "prepare", 9, 3) t2 = [gv1; gv2].
Proof.
  set (s1 := session_of (Handlers.handle_vote (started 7 2 9)
                           (direct_vote 4 3 9 "prepare" 0)) (started 7 2 9)).
  set (s2 := session_of (Handlers.handle_vote s1
                           (direct_vote 5 3 9 "prepare" 0)) s1).
  exists s1, s2,
    (mkVote 3 0 9 "prepare" 0 1 true (Some 1) (Some 1) (Some [4])),
    (mkVote 3 0 9 "prepare" 0 1 true (Some 2) (Some 1) (Some [5; 4])).
  do 7 (split; [vm_compute; reflexivity|]).
  exists (session_of
            (service_run [direct_vote 4 3 9 "prepare" 0;
                          direct_vote 5 3 9 "prepare" 0] (started 7 2 9))
            (started 7 2 9)).
  split; vm_compute; reflexivity.
Qed.

(** C5.  On every node [lockedQC.view] never decreases.  Handling a QC
    message changes the lockedQC of the receiving node only, and only for a
    QC of phase "commit": the QC is assigned when the node has no lockedQC
    or the QC has a strictly higher view; a commit QC with a view at most
    the locked view leaves the lockedQC as it is; a QC of another phase
    never modifies a lockedQC.  The same monotonicity holds across a whole
    call of the vote handler, which is where QCs are applied to the nodes,
    and across the view change, the PRE-PREPARE emission and the
    finalisation. *)
Theorem C5_lockedQC_view_non_decreasing
    (s : Session) (qc_msg : QCMsg) (node_id : Z) :
  let qc := qcm_qc qc_msg in
  let s' := Handlers.handle_qc_message s qc_msg node_id in
  (qc_phase qc ≠ "commit" → ∀ j, locked_of s' j = locked_of s j) ∧
  (∀ j, j ≠ node_id → locked_of s' j = locked_of s j) ∧
  (qc_phase qc = "commit" → is_Some (node_states s !! node_id) →
     locked_of s node_id = None → locked_of s' node_id = Some qc) ∧
  (qc_phase qc = "commit" → ∀ lq, locked_of s node_id = Some lq →
     qc_view lq < qc_view qc → locked_of s' node_id = Some qc) ∧
  (∀ lq, locked_of s node_id = Some lq → qc_view qc ≤ qc_view lq →
     locked_of s' node_id = Some lq) ∧
  locked_le s s' ∧
  (∀ m, Handlers.handle_vote s m ≠ OutOfFuel ∧
        outcome_rel locked_le s (Handlers.handle_vote s m)) ∧
  (∀ old_view,
     Handlers.trigger_view_change s old_view ≠ OutOfFuel ∧
     outcome_rel locked_le s (Handlers.trigger_view_change s old_view)) ∧
  (∀ h, outcome_rel locked_le s (Handlers.robot_send_pre_prepare s h)) ∧
  (∀ st d, locked_le s (Handlers.finalize_consensus s st d)).
Proof.
  intros qc s'. subst qc s'. split_and!.
  - intros Hp j. rewrite locked_of_handle_qc_message.
    by rewrite decide_False by naive_solver.
  - intros j Hj. rewrite locked_of_handle_qc_message.
    by rewrite decide_False by naive_solver.
  - intros Hp [ns Hns] Hl. rewrite locked_of_handle_qc_message.
    rewrite decide_True by done. unfold locked_of in Hl.
    rewrite Hns in *. simpl in Hl. by rewrite Hl.
  - intros Hp lq Hl Hlt. rewrite locked_of_handle_qc_message.
    rewrite decide_True by done.
    apply locked_of_known in Hl as (ns & -> & ->).
    by apply Z.ltb_lt in Hlt as ->.
  - intros lq Hl Hle. rewrite locked_of_handle_qc_message.
    case_decide; [|done].
    apply locked_of_known in Hl as (ns & -> & ->).
    by apply Z.ltb_ge in Hle as ->.
  - apply locked_le_handle_qc_message.
  - intros m. split; [apply handle_vote_total | apply locked_le_handle_vote].
  - intros old_view.
    split; [apply trigger_view_change_total | apply locked_le_trigger_view_change].
  - apply locked_le_robot_send_pre_prepare.
  - apply locked_le_finalize_consensus.
Qed.

Lemma C5_lockedQC_view_non_decreasing_witness :
  locked_of (Handlers.handle_qc_message locked_session qc_msg_v3 2) 2
  = Some qc_v5.
Proof.
  destruct (C5_lockedQC_view_non_decreasing locked_session qc_msg_v3 2)
    as (_ & _ & _ & _ & Hold & _).
  apply (Hold qc_v5).
  - vm_compute. reflexivity.
  - vm_compute. discriminate.
Defined.

(** C6.  A vote whose view is below the current view is dropped: the vote
    handler returns the session unchanged.  A vote whose view is above the
    current view is appended to the buffer entry of its view and nothing
    else changes (no aggregation).  When a view change advances the current
    view to [old_view + 1], the votes buffered for that view are handled
    again through [handle_vote], each exactly once and in order, and the
    buffer entry of that view is removed; the other entries are untouched. *)
Theorem C6_stale_dropped_future_buffered_replayed
    (s : Session) (m : Vote) (old_view : Z) (votes : list Vote) :
  (vote_view m < current_view s →
     Handlers.handle_vote s m = Ok s ∧
     Service.handle_vote s m
       = Ok (Service.mkVoteResult "ignored" None None, s)) ∧
  (current_view s < vote_view m →
     let s' := set_message_buffer
                 (<[vote_view m :=
                      default [] (message_buffer s !! vote_view m) ++ [m]]>
                    (message_buffer s)) s in
     Handlers.handle_vote s m = Ok s' ∧
     Service.handle_vote s m
       = Ok (Service.mkVoteResult "buffered" None None, s')) ∧
  (wf_buffer s →
     outcome_rel (λ _ s', wf_buffer s') s (Handlers.handle_vote s m)) ∧
  (wf_buffer s → branchCount (config s) ≠ 0 →
   message_buffer s !! (old_view + 1) = Some votes →
   ∃ s1 s2,
     Handlers.trigger_view_change_enter s old_view = Ok s1 ∧
     current_view s1 = old_view + 1 ∧
     message_buffer s1 = message_buffer s ∧
     replay_in_order votes s1 = Ok s2 ∧
     message_buffer s2 = message_buffer s ∧
     Handlers.trigger_view_change s old_view
       = Ok (set_message_buffer
               (delete (old_view + 1) (message_buffer s)) s2)).
Proof.
  split_and!.
  - intros Hv. split;
      [by apply handle_vote_stale | by apply service_handle_vote_stale].
  - intros Hv. split;
      [by apply handle_vote_buffered | by apply service_handle_vote_buffered].
  - apply wf_buffer_handle_vote.
  - intros Hwf Hk Hb.
    destruct (trigger_view_change_enter_spec s old_view Hk)
      as (s1 & Hs1 & Hc1 & Hv1 & Hb1).
    assert (∀ m', m' ∈ votes → vote_view m' = old_view + 1) as Hviews.
    { intros m' Hm'. pose proof (map_Forall_lookup_1 _ _ _ _ Hwf Hb) as Hall.
      simpl in Hall. by eapply Forall_forall in Hall. }
    destruct (replay_in_order_returns votes s1) as (s2 & Hs2 & Hf2).
    { by rewrite Hc1. }
    { intros m' Hm'. rewrite (Hviews m' Hm'). lia. }
    exists s1, s2. destruct Hf2 as (_ & _ & _ & Hb2 & _).
    split_and!; [done | done | done | done | congruence |].
    unfold Handlers.trigger_view_change. rewrite Hs1. cbn [mbind result_bind].
    unfold Handlers.trigger_view_change_drain. rewrite Hb1, Hb.
    rewrite (replay_buffered_votes_in_order votes (old_view + 1) Hviews)
      by (rewrite ?Hb1; done || lia).
    rewrite drop_0. fold (replay_in_order votes s1). rewrite Hs2.
    cbn [mbind result_bind]. by rewrite Hb2, Hb1.
Qed.

Lemma C6_stale_dropped_future_buffered_replayed_witness :
  ∃ s1 s2,
    Handlers.trigger_view_change_enter session_with_early_vote 0 = Ok s1 ∧
    replay_in_order [early_vote] s1 = Ok s2 ∧
    Handlers.trigger_view_change session_with_early_vote 0
      = Ok (set_message_buffer
              (delete 1 (message_buffer session_with_early_vote)) s2).
Proof.
  destruct (C6_stale_dropped_future_buffered_replayed
              session_with_early_vote early_vote 0 [early_vote])
    as (_ & _ & _ & Hreplay).
  destruct Hreplay as (s1 & s2 & H1 & _ & _ & H2 & _ & H3).
  - unfold wf_buffer. apply (bool_decide_unpack _). vm_compute. exact I.
  - vm_compute. discriminate.
  - vm_compute. reflexivity.
  - exists s1, s2. split_and!; [exact H1 | exact H2 | exact H3].
Defined.

(** C7, as amended.  For a session with [N <> 0] nodes the topology
    resolver computes, from [(view, nodeId, N, K)] alone (K being the
    configured branch count, at least 1): leader [view mod N]; group size
    [max(1, N div K)]; role root without parent for the leader; otherwise,
    with [group = nodeId div groupSize] and
    [groupStart = group * groupSize], role group_leader with the leader as
    parent when [nodeId = groupStart], and member with parent [groupStart]
    otherwise; the reported group size is
    [max(0, min((group+1)*groupSize, N) - groupStart)] for every node id:
    the difference is clamped at 0, and it is the difference itself for a
    node id in [0, N); two sessions with the same [N] and [K] give the same
    answer. *)
Theorem C7_topology_resolver (s : Session) (node_id view : Z) :
  nodeCount (config s) ≠ 0 →
  let n := nodeCount (config s) in
  let K := Z.max 1 (branchCount (config s)) in
  let leader := view mod n in
  let gs := Z.max 1 (n / K) in
  let group := node_id / gs in
  let start := group * gs in
  let info := Topology.get_topology_info s node_id (Some view) in
  Topology.get_current_leader s (Some view) = leader ∧
  (1 ≤ branchCount (config s) → K = branchCount (config s)) ∧
  (node_id = leader → info = Topology.mkInfo Topology.root None None None) ∧
  (node_id ≠ leader → node_id = start →
     Topology.role info = Topology.group_leader ∧
     Topology.parent_id info = Some leader) ∧
  (node_id ≠ leader → node_id ≠ start →
     Topology.role info = Topology.member ∧
     Topology.parent_id info = Some start) ∧
  (node_id ≠ leader → Topology.group_id info = Some group) ∧
  (node_id ≠ leader →
     Topology.group_size info
     = Some (Z.max 0 (Z.min ((group + 1) * gs) n - start))) ∧
  (node_id ≠ leader → 0 ≤ node_id < n →
     Topology.group_size info = Some (Z.min ((group + 1) * gs) n - start)) ∧
  (∀ s', nodeCount (config s') = n →
         branchCount (config s') = branchCount (config s) →
         Topology.get_topology_info s' node_id (Some view) = info).
Proof.
  intros _ n K leader gs group start info. split_and!.
  - done.
  - lia.
  - intros Heq. by apply get_topology_info_root.
  - intros Hne Heq. subst info.
    rewrite get_topology_info_non_root by done. simpl.
    fold n K gs group start. by rewrite !decide_True by done.
  - intros Hne Hneq. subst info.
    rewrite get_topology_info_non_root by done. simpl.
    fold n K gs group start. by rewrite !decide_False by done.
  - intros Hne. subst info. by rewrite get_topology_info_non_root.
  - intros Hne. subst info. by rewrite get_topology_info_non_root.
  - intros Hne Hrange. subst info.
    rewrite get_topology_info_non_root by done. simpl.
    fold n K gs group start. f_equal.
    assert (0 < gs) as Hgs by (subst gs; lia).
    pose proof (group_start_bounds node_id gs Hgs). subst start group. lia.
  - intros s' Hn Hk. subst info. unfold Topology.get_topology_info.
    by rewrite Hn, Hk.
Qed.

Lemma C7_topology_resolver_witness :
  let s := started 7 2 9 in
  Topology.role (Topology.get_topology_info s 4 (Some 0)) = Topology.member ∧
  Topology.parent_id (Topology.get_topology_info s 4 (Some 0)) = Some 3 ∧
  Topology.group_size (Topology.get_topology_info s 4 (Some 0)) = Some 3.
Proof.
  destruct (C7_topology_resolver (started 7 2 9) 4 0)
    as (_ & _ & _ & _ & Hmember & _ & Hsize & _);
    [vm_compute; discriminate|].
  lapply Hmember; [clear Hmember; intros Hmember | vm_compute; discriminate].
  lapply Hmember; [clear Hmember; intros [Hr Hp] | vm_compute; discriminate].
  lapply Hsize; [clear Hsize; intros Hsize | vm_compute; discriminate].
  vm_compute in Hr, Hp, Hsize. vm_compute. split_and!; assumption.
Defined.

(** C7 as the claim states it fails outside [0, N): with four nodes in two
    groups (group size 2) the node id 6 lies in group 3, which starts at 6,
    and [min((3+1)*2, 4) - 6] is -2, while the resolver reports the group
    size 0. *)
Lemma C7_topology_resolver_counterexample :
  let s := started 4 2 9 in
  let n := nodeCount (config s) in
  let gs := Z.max 1 (n / Z.max 1 (branchCount (config s))) in
  let group := 6 / gs in
  ¬ (Topology.group_size (Topology.get_topology_info s 6 (Some 0))
     = Some (Z.min ((group + 1) * gs) n - group * gs)).
Proof. vm_compute. discriminate. Qed.

(** C8.  Finalisation and PRE-PREPARE emission are no-ops on repetition
    within a view.  A finalize call made while [consensus_finalized_view]
    equals the current view returns the session unchanged, so a second
    finalize changes nothing (no second history item, no status or phase
    change); this holds for the finaliser of the socket handlers and for the
    one of the service.  A PRE-PREPARE emission made while
    [last_pre_prepare_view] equals the current view returns the session
    unchanged, and after any first emission the second one emits nothing. *)
Theorem C8_finalize_and_pre_prepare_once
    (s : Session) (st d st' d' : string) (h h' : option QC) :
  (consensus_finalized_view s = Some (current_view s) →
     Handlers.finalize_consensus s st d = s) ∧
  Handlers.finalize_consensus (Handlers.finalize_consensus s st d) st' d'
    = Handlers.finalize_consensus s st d ∧
  (consensus_finalized_view s = Some (current_view s) →
     Service.finalize_consensus_state s st d = s) ∧
  Service.finalize_consensus_state
      (Service.finalize_consensus_state s st d) st' d'
    = Service.finalize_consensus_state s st d ∧
  (last_pre_prepare_view s = Some (current_view s) →
     Handlers.robot_send_pre_prepare s h = Ok s) ∧
  (∀ s1, Handlers.robot_send_pre_prepare s h = Ok s1 →
         Handlers.robot_send_pre_prepare s1 h' = Ok s1) ∧
  (∀ e s1, Handlers.robot_send_pre_prepare s h = Raise e s1 →
           Handlers.robot_send_pre_prepare s1 h' = Ok s1).
Proof.
  split_and!.
  - apply finalize_consensus_again.
  - apply finalize_consensus_again, finalize_consensus_marks.
  - apply finalize_consensus_state_again.
  - apply finalize_consensus_state_again, finalize_consensus_state_marks.
  - apply robot_send_pre_prepare_again.
  - intros s1 H1. pose proof (robot_send_pre_prepare_marks s h) as Hm.
    rewrite H1 in Hm. by apply robot_send_pre_prepare_again.
  - intros e s1 H1. pose proof (robot_send_pre_prepare_marks s h) as Hm.
    rewrite H1 in Hm. by apply robot_send_pre_prepare_again.
Qed.

Lemma C8_finalize_and_pre_prepare_once_witness :
  Handlers.robot_send_pre_prepare (started 4 2 9) None = Ok (started 4 2 9).
Proof.
  destruct (C8_finalize_and_pre_prepare_once (started 4 2 9)
              "Consensus Success" "done" "Consensus Success" "done" None None)
    as (_ & _ & _ & _ & Hagain & _).
  apply Hagain. vm_compute. reflexivity.
Defined.



(** C10.  In Case B a vote of a group leader or of the root, for the current
    view and addressed to the global leader, is added to the tally of
    [(view, phase, value)] before the phase guard: when its phase differs
    from the session phase the call returns without QC and without phase
    change, but the pending total weight and contribution list stay
    increased by this vote. *)
Theorem C10_tally_updated_before_phase_guard (s : Session) (m : Vote) :
  vote_view m = current_view s →
  Topology.role (Topology.get_topology_info s (vote_from m) (Some (vote_view m)))
    ≠ Topology.member →
  vote_to m = Topology.get_current_leader s (Some (vote_view m)) →
  vote_phase m ≠ phase s →
  let key := (vote_view m, vote_phase m, vote_value m) in
  let old := default (mkPending 0 []) (pending_votes s !! key) in
  let w := if vote_is_group_vote m then default 1 (vote_weight m) else 1 in
  let voters := if vote_is_group_vote m
                then default [] (vote_group_voters m) else [vote_from m] in
  ∃ s', Handlers.handle_vote s m = Ok s' ∧
        pending_votes s' !! key
          = Some (mkPending (total_weight old + w)
                    (group_votes old ++ [mkContribution (vote_from m) w voters])) ∧
        msgs_qc (messages s') = msgs_qc (messages s) ∧
        phase s' = phase s ∧
        (∀ key', key' ≠ key → pending_votes s' !! key' = pending_votes s !! key').
Proof.
  intros Hview Hrole Hto Hphase key old w voters.
  unfold Handlers.handle_vote.
  rewrite handle_vote_rec_case_B by done.
  rewrite case_B_phase_mismatch by done. cbv zeta.
  eexists. split; [reflexivity|]. simpl.
  split_and!; try done.
  - apply lookup_insert_eq.
  - intros key' Hne. by apply lookup_insert_ne.
Qed.

Lemma C10_tally_updated_before_phase_guard_witness :
  ∃ s', Handlers.handle_vote (started 4 2 9) (direct_vote 2 0 9 "commit" 0)
          = Ok s' ∧
        pending_votes s' !! (0, "commit", 9)
          = Some (mkPending 1 [mkContribution 2 1 [2]]) ∧
        msgs_qc (messages s') = [] ∧
        phase s' = "prepare".
Proof.
  destruct (C10_tally_updated_before_phase_guard
              (started 4 2 9) (direct_vote 2 0 9 "commit" 0))
    as (s' & Hs' & Hp & Hq & Hph & _).
  - vm_compute. reflexivity.
  - vm_compute. discriminate.
  - vm_compute. reflexivity.
  - vm_compute. discriminate.
  - exists s'. split; [exact Hs'|].
    vm_compute in Hp, Hq, Hph. by split_and!.
Defined.

(** * Further properties of the code *)

(** ** Thresholds, phases and fault assignment ([consensus_engine.py]) *)
Section EngineFacts.
Import Engine.

(** X1.  With n >= 1 nodes and f = (n-1) // 3, the global quorum 2f+1 is
    at least 1 and can be reached with f nodes silent; two quorums overlap
    in f + 1 - ((n-1) mod 3) nodes at least, which is f+1 only for
    n = 3f+1.  The local quorum of a group of g >= 1 nodes lies in [1, g]
    and is 1 for every group of at most three nodes. *)
Theorem X1_quorum_thresholds (s : Session) (g : Z) :
  1 ≤ nodeCount (config s) →
  1 ≤ g →
  let n := nodeCount (config s) in
  let f := (n - 1) / 3 in
  1 ≤ get_quorum_threshold s ∧
  get_quorum_threshold s + f ≤ n ∧
  2 * get_quorum_threshold s - n = f + 1 - (n - 1) mod 3 ∧
  1 ≤ get_local_quorum_threshold s g ≤ g ∧
  (g ≤ 3 → get_local_quorum_threshold s g = 1).
Proof.
  intros Hn Hg n f. unfold get_quorum_threshold, get_local_quorum_threshold.
  fold n. fold f.
  pose proof (Z.div_mod (n - 1) 3 ltac:(lia)) as Hdm.
  pose proof (Z.mod_pos_bound (n - 1) 3 ltac:(lia)) as Hmb.
  fold f in Hdm.
  pose proof (Z.div_mod (g - 1) 3 ltac:(lia)) as Hdg.
  pose proof (Z.mod_pos_bound (g - 1) 3 ltac:(lia)) as Hmg.
  assert (0 ≤ f) by (subst f; apply Z.div_pos; lia).
  assert (0 ≤ (g - 1) / 3) by (apply Z.div_pos; lia).
  repeat split; lia.
Qed.

Lemma X1_quorum_thresholds_witness :
  let s := started 7 2 9 in
  1 ≤ Engine.get_quorum_threshold s ∧
  Engine.get_quorum_threshold s + 2 ≤ 7 ∧
  2 * Engine.get_quorum_threshold s - 7 = 3 ∧
  1 ≤ Engine.get_local_quorum_threshold s 3 ≤ 3 ∧
  (3 ≤ 3 → Engine.get_local_quorum_threshold s 3 = 1).
Proof.
  intros s.
  pose proof (X1_quorum_thresholds s 3) as H.
  lapply H; [clear H; intros H | vm_compute; discriminate].
  lapply H; [clear H; intros H | lia].
  vm_compute in H. vm_compute. exact H.
Defined.

Lemma get_next_phase_cases (p : string) :
  get_next_phase p = "prepare" ∨ get_next_phase p = "pre-commit" ∨
  get_next_phase p = "commit" ∨ get_next_phase p = "decide".
Proof. unfold get_next_phase. repeat case_decide; auto. Qed.

(** X2.  Whatever the phase string, four applications of [get_next_phase]
    give "decide", and "decide" is the only phase that is its own
    successor. *)
Theorem X2_phases_reach_decide (p : string) :
  iterate get_next_phase 4 p = "decide" ∧
  (get_next_phase p = p ↔ p = "decide").
Proof.
  split.
  - unfold iterate. cbn [Nat.iter nat_rect].
    destruct (get_next_phase_cases p) as [-> | [-> | [-> | ->]]];
      vm_compute; reflexivity.
  - split.
    + intros H. destruct (get_next_phase_cases p) as [Hc|[Hc|[Hc|Hc]]];
        rewrite H in Hc; subst p; vm_compute in H; congruence.
    + intros ->. reflexivity.
Qed.

(** Counting the entries of [range(n)] selected by a predicate that holds
    from a bound on, and possibly at 0. *)
Lemma count_range (P : Z → Prop) `{!∀ x, Decision (P x)} (z : bool) (a : Z)
    (k : nat) :
  1 ≤ a →
  (∀ i, 0 ≤ i < Z.of_nat (S k) → P i ↔ (i = 0 ∧ z = true) ∨ a ≤ i) →
  length (filter P (Z.of_nat <$> seq 0 (S k)))
    = ((if z then 1 else 0) + Z.to_nat (Z.of_nat (S k) - a))%nat.
Proof.
  intros Ha. induction k as [|k IH]; intros HP.
  - cbn [seq fmap list_fmap]. change (Z.of_nat 0) with 0.
    destruct z.
    + rewrite filter_cons_True by (apply HP; [lia|by left]). simpl. lia.
    + rewrite filter_cons_False
        by (intros [[_ ?]|?]%HP; [done|lia|lia]).
      simpl. lia.
  - rewrite seq_S, fmap_app, filter_app, length_app, IH
      by (intros i Hi; apply HP; lia).
    cbn [fmap list_fmap]. rewrite Nat.add_0_l.
    destruct (decide (a ≤ Z.of_nat (S k))) as [Hle|Hgt].
    + rewrite filter_cons_True by (apply HP; [lia|by right]). simpl. lia.
    + rewrite filter_cons_False
        by (intros [[? _]|?]%HP; [lia|lia|lia]).
      simpl. lia.
Qed.

(** X3.  With 0 <= m < n, [is_honest] marks exactly m of the nodes
    0 .. n-1 as faulty; node 0 is among them exactly when the proposer is
    declared faulty and m is not 0. *)
Theorem X3_is_honest_marks_m_faulty (n m : Z) (faulty_proposer : bool) :
  0 ≤ m < n →
  length (filter (λ i, is_honest i n m faulty_proposer = false) (range n))
    = Z.to_nat m ∧
  (is_honest 0 n m faulty_proposer = false ↔ faulty_proposer = true ∧ m ≠ 0).
Proof.
  intros Hm. split.
  - unfold range.
    assert (Z.to_nat n = S (Z.to_nat (n - 1))) as -> by lia.
    destruct (decide (m = 0)) as [->|Hm0]; [|destruct faulty_proposer].
    + rewrite (count_range _ false n); [lia|lia|].
      intros i Hi. unfold is_honest. rewrite decide_True by done.
      split; [done|intros [[_ ?]|?]; [done|lia]].
    + rewrite (count_range _ true (n - m + 1)); [lia|lia|].
      intros i Hi. unfold is_honest. rewrite decide_False by done.
      case_decide as H0.
      * split; [by left|done].
      * rewrite bool_decide_eq_false. lia.
    + rewrite (count_range _ false (n - m)); [lia|lia|].
      intros i Hi. unfold is_honest. rewrite decide_False by done.
      case_decide as H0.
      * split; [done|lia].
      * rewrite bool_decide_eq_false. split; [lia|intros [[? ?]|?]; [done|lia]].
  - unfold is_honest. destruct (decide (m = 0)), faulty_proposer; simpl;
      (split; [try done; intros; split; done | intros [? ?]; try done]).
Qed.

Lemma X3_is_honest_marks_m_faulty_witness :
  length (filter (λ i, Engine.is_honest i 7 2 true = false) (range 7))
    = Z.to_nat 2 ∧
  (Engine.is_honest 0 7 2 true = false ↔ true = true ∧ 2 ≠ 0).
Proof. apply (X3_is_honest_marks_m_faulty 7 2 true). lia. Defined.

End EngineFacts.

(** ** What no handler undoes *)
Section Growth.
Import Engine Topology Handlers.

Lemma qc_le_refl o : qc_le o o.
Proof. destruct o; simpl; [lia|done]. Qed.

Lemma qc_le_trans a b c : qc_le a b → qc_le b c → qc_le a c.
Proof. destruct a, b, c; simpl; try done; lia. Qed.

Lemma node_le_refl a : node_le a a.
Proof. unfold node_le. split_and!; auto using qc_le_refl. Qed.

Lemma node_le_trans a b c : node_le a b → node_le b c → node_le a c.
Proof.
  intros (?&?&?) (?&?&?). unfold node_le.
  split_and!; eauto using qc_le_trans.
Qed.

Lemma nodes_le_refl s : nodes_le s s.
Proof.
  intros i. destruct (node_states s !! i); constructor. apply node_le_refl.
Qed.

Lemma nodes_le_trans s1 s2 s3 : nodes_le s1 s2 → nodes_le s2 s3 → nodes_le s1 s3.
Proof.
  intros H12 H23 i. specialize (H12 i). specialize (H23 i).
  destruct H12 as [a b Hab|]; inversion H23; subst; constructor.
  eapply node_le_trans; [exact Hab|]. congruence.
Qed.

Lemma nodes_le_same s s' : node_states s' = node_states s → nodes_le s s'.
Proof. intros Heq. unfold nodes_le. rewrite Heq. apply nodes_le_refl. Qed.

(** Replacing the state of one node by a state that is [node_le] above. *)
Lemma nodes_le_insert s i a b :
  node_states s !! i = Some a → node_le a b →
  nodes_le s (set_node_states (<[i := b]> (node_states s)) s).
Proof.
  intros Hi Hab j. simpl. rewrite lookup_insert.
  case_decide; [subst j; rewrite Hi; by constructor|].
  destruct (node_states s !! j); constructor. apply node_le_refl.
Qed.

Lemma nodes_le_update_node_prepare_qc s i qc :
  nodes_le s (update_node_prepare_qc s i qc).
Proof.
  unfold update_node_prepare_qc.
  destruct (node_states s !! i) as [a|] eqn:Hi; [|apply nodes_le_refl].
  destruct (prepareQC a) as [cp|] eqn:Hp.
  - destruct (qc_view cp <? qc_view qc) eqn:E; [|apply nodes_le_refl].
    apply Z.ltb_lt in E. apply (nodes_le_insert s i a); [done|].
    unfold node_le. simpl. rewrite Hp. simpl.
    split_and!; [apply qc_le_refl | lia | done].
  - apply (nodes_le_insert s i a); [done|].
    unfold node_le. simpl. rewrite Hp. simpl.
    split_and!; [apply qc_le_refl | done | done].
Qed.

Lemma nodes_le_update_node_locked_qc s i qc :
  nodes_le s (update_node_locked_qc s i qc).
Proof.
  unfold update_node_locked_qc.
  destruct (node_states s !! i) as [a|] eqn:Hi; [|apply nodes_le_refl].
  destruct (lockedQC a) as [cl|] eqn:Hl.
  - destruct (qc_view cl <? qc_view qc) eqn:E; [|apply nodes_le_refl].
    apply Z.ltb_lt in E. apply (nodes_le_insert s i a); [done|].
    unfold node_le. simpl. rewrite Hl. simpl.
    split_and!; [lia | apply qc_le_refl | done].
  - apply (nodes_le_insert s i a); [done|].
    unfold node_le. simpl. rewrite Hl. simpl.
    split_and!; [done | apply qc_le_refl | done].
Qed.

Lemma nodes_le_handle_qc_message s qc_msg i :
  nodes_le s (handle_qc_message s qc_msg i).
Proof.
  unfold handle_qc_message. cbv zeta. case_decide.
  - eapply nodes_le_trans; [apply nodes_le_update_node_prepare_qc|].
    apply nodes_le_update_node_locked_qc.
  - apply nodes_le_update_node_prepare_qc.
Qed.

Lemma grows_refl s : grows s s.
Proof. unfold grows. split_and!; try done. apply nodes_le_refl. Qed.

Lemma grows_trans s1 s2 s3 : grows s1 s2 → grows s2 s3 → grows s1 s3.
Proof.
  unfold grows. intros (?&?&?&?&?&?&?&?) (?&?&?&?&?&?&?&?).
  split_and!; try congruence; try (by etrans).
  by eapply nodes_le_trans.
Qed.

(** A step that keeps the node states. *)
Lemma grows_intro s s' :
  config s' = config s → robot_nodes s' = robot_nodes s →
  msgs_pre_prepare (messages s) `prefix_of` msgs_pre_prepare (messages s') →
  msgs_vote (messages s) `prefix_of` msgs_vote (messages s') →
  msgs_qc (messages s) `prefix_of` msgs_qc (messages s') →
  msgs_new_view (messages s) `prefix_of` msgs_new_view (messages s') →
  consensus_history s `prefix_of` consensus_history s' →
  node_states s' = node_states s →
  grows s s'.
Proof. intros. unfold grows. split_and!; try done. by apply nodes_le_same. Qed.

Ltac grows_step :=
  apply grows_intro; simpl; try done; try (by apply prefix_app_r).

Lemma grows_handle_qc_message s qc_msg i :
  grows s (handle_qc_message s qc_msg i).
Proof.
  unfold grows. split_and!;
    try (unfold handle_qc_message, update_node_locked_qc, update_node_prepare_qc;
         repeat (case_decide || case_match); done).
  apply nodes_le_handle_qc_message.
Qed.

Lemma grows_count_message_sent b t s : grows s (count_message_sent b t s).
Proof. grows_step. Qed.

Lemma grows_hierarchical_broadcast sender view s :
  outcome_rel grows s (hierarchical_broadcast sender view s).
Proof.
  unfold hierarchical_broadcast. case_decide; [apply grows_refl|].
  cbv zeta.
  loop_from grows grows_trans s.
  { case_match; [apply grows_refl | apply grows_count_message_sent]. }
  apply (for_each_rel grows grows_refl grows_trans).
  intros s' x. repeat (case_match || case_decide); simpl;
    first [apply grows_refl | apply grows_count_message_sent].
Qed.

Lemma grows_finalize_consensus s st d : grows s (finalize_consensus s st d).
Proof.
  unfold finalize_consensus. case_decide; [apply grows_refl|]. grows_step.
Qed.

Lemma grows_apply_qc qc_msg nodes s :
  grows s (foldl (λ s0 node_id, handle_qc_message s0 qc_msg node_id) s nodes).
Proof.
  apply (foldl_rel grows grows_refl grows_trans).
  intros. apply grows_handle_qc_message.
Qed.

Lemma grows_quorum_reached s m entry gl :
  outcome_rel grows s (handle_vote_quorum_reached s m entry gl).
Proof.
  unfold handle_vote_quorum_reached. cbv zeta.
  eapply (outcome_rel_step grows grows_trans);
    [|apply (outcome_rel_bind grows grows_trans);
      [apply grows_hierarchical_broadcast|]].
  - grows_step.
  - intros s' _. case_decide; simpl.
    + eapply grows_trans; [apply grows_apply_qc|].
      apply grows_finalize_consensus.
    + apply grows_apply_qc.
Qed.

Lemma grows_case_B s m : outcome_rel grows s (handle_vote_case_B s m).
Proof.
  unfold handle_vote_case_B. cbv zeta.
  case_decide; [apply grows_refl|].
  case_decide; [by grows_step|].
  case_decide; [by grows_step|].
  eapply (outcome_rel_step grows grows_trans); [|apply grows_quorum_reached].
  grows_step.
Qed.

Lemma grows_handle_vote_rec fuel s m :
  outcome_rel grows s (handle_vote_rec fuel s m).
Proof.
  revert s m. induction fuel as [|fuel IH]; intros s m; [done|].
  cbn [handle_vote_rec]. cbv zeta.
  case_decide; [by grows_step|].
  case_decide; [apply grows_refl|].
  case_decide; [|apply grows_case_B].
  destruct (parent_id _) as [gl|]; [|apply grows_refl].
  case_decide; [apply grows_refl|].
  destruct (group_size _) as [gsz|]; [|by grows_step].
  case_decide; [by grows_step|].
  eapply (outcome_rel_step grows grows_trans); [|apply IH].
  grows_step.
Qed.

Lemma grows_handle_vote s m : outcome_rel grows s (handle_vote s m).
Proof. apply grows_handle_vote_rec. Qed.

Lemma grows_robot_send_pre_prepare s h :
  outcome_rel grows s (robot_send_pre_prepare s h).
Proof.
  unfold robot_send_pre_prepare. cbv zeta.
  case_decide; [apply grows_refl|].
  case_decide; [by grows_step|].
  set (s0 := log_pre_prepare _ _).
  apply (outcome_rel_step grows grows_trans s s0); [by grows_step|].
  apply (outcome_rel_bind grows grows_trans);
    [apply grows_hierarchical_broadcast|].
  intros s1 _.
  loop_from grows grows_trans s1; [by grows_step|].
  apply (for_each_rel grows grows_refl grows_trans).
  intros s' x. case_decide; [|apply grows_refl].
  case_match; [|apply grows_refl]. by grows_step.
Qed.

Lemma grows_reset_robots robots s :
  grows s (foldl (λ s robot_id,
                    set_robot_node_states
                      (<[robot_id := mkRobotState false 0 0 false false]>
                         (robot_node_states s)) s) s robots).
Proof.
  apply (foldl_rel grows grows_refl grows_trans). intros. by grows_step.
Qed.

Lemma grows_replay_buffered_votes fuel i v s :
  outcome_rel grows s (replay_buffered_votes fuel i v s).
Proof.
  revert i s. induction fuel as [|fuel IH]; intros i s; [done|].
  cbn [replay_buffered_votes].
  destruct (_ !! i) as [m|]; [|apply grows_refl].
  apply (outcome_rel_bind grows grows_trans); [apply grows_handle_vote|].
  intros s' _. apply IH.
Qed.

Lemma grows_trigger_view_change_enter s old_view :
  outcome_rel grows s (trigger_view_change_enter s old_view).
Proof.
  unfold trigger_view_change_enter. cbv zeta.
  set (leader := get_current_leader s (Some (old_view + 1))).
  set (s0 := set_view (old_view + 1) leader s).
  set (s1 := foldl _ s0 (robot_nodes s0)).
  set (s2 := foldl _ s1 (range (nodeCount (config s)))).
  assert (grows s s2) as Hs2.
  { eapply grows_trans; [|eapply grows_trans].
    - assert (grows s s0) as H0 by grows_step. exact H0.
    - apply grows_reset_robots.
    - apply (foldl_rel grows grows_refl grows_trans).
      intros s' x. cbv zeta. case_decide; by grows_step. }
  apply (outcome_rel_step grows grows_trans s s2 _ Hs2).
  unfold start_new_view_consensus. cbv zeta.
  case_decide; [apply grows_refl|].
  case_decide; [|apply grows_refl].
  apply grows_robot_send_pre_prepare.
Qed.

Lemma grows_trigger_view_change s old_view :
  outcome_rel grows s (trigger_view_change s old_view).
Proof.
  unfold trigger_view_change.
  apply (outcome_rel_bind grows grows_trans);
    [apply grows_trigger_view_change_enter|].
  intros s1 _. unfold trigger_view_change_drain.
  destruct (message_buffer s1 !! _) as [votes|]; [|apply grows_refl].
  apply (outcome_rel_bind grows grows_trans);
    [apply grows_replay_buffered_votes|].
  intros s2 _. simpl. by grows_step.
Qed.

Lemma grows_start_next_round s : outcome_rel grows s (start_next_round s).
Proof.
  unfold start_next_round. cbv zeta.
  match goal with
  | |- outcome_rel _ _ (robot_send_pre_prepare ?s1 _) =>
      apply (outcome_rel_step grows grows_trans s s1);
        [|apply grows_robot_send_pre_prepare]
  end.
  eapply grows_trans; [|apply grows_reset_robots]. by grows_step.
Qed.

Lemma grows_handle_robot_vote s r target value p view :
  outcome_rel grows s
    (handle_vote (count_message_sent false None
                    (log_vote (robot_vote s r target value p view) s))
       (robot_vote s r target value p view)).
Proof.
  eapply (outcome_rel_step grows grows_trans); [|apply grows_handle_vote].
  grows_step.
Qed.

Lemma grows_handle_robot_prepare s r value :
  outcome_rel grows s (handle_robot_prepare s r value).
Proof.
  unfold handle_robot_prepare. cbv zeta.
  case_decide; [apply grows_refl|].
  destruct (parent_id _); [|apply grows_refl].
  apply grows_handle_robot_vote.
Qed.

Lemma grows_handle_robot_commit s r value :
  outcome_rel grows s (handle_robot_commit s r value).
Proof.
  unfold handle_robot_commit. cbv zeta.
  case_decide; [apply grows_refl|].
  destruct (parent_id _); [|apply grows_refl].
  apply grows_handle_robot_vote.
Qed.

Lemma grows_trigger_robot_votes s view p value :
  outcome_rel grows s (trigger_robot_votes s view p value).
Proof.
  unfold trigger_robot_votes.
  case_decide; [apply grows_refl|]. cbv zeta.
  case_decide; [apply grows_finalize_consensus|].
  apply (for_each_rel grows grows_refl grows_trans).
  intros s' r. case_decide; [apply grows_refl|].
  case_decide; [apply grows_refl|].
  destruct (parent_id _); [|apply grows_refl].
  eapply (outcome_rel_step grows grows_trans); [|apply grows_handle_vote].
  grows_step.
Qed.

End Growth.

Section GrowthResults.
Import Engine Topology Handlers.

Lemma settles_intro (R : Session → Session → Prop) s (r : result Session) :
  outcome_rel R s r → r ≠ OutOfFuel → settles R s r.
Proof. by destruct r. Qed.

Lemma settles_impl (R R' : Session → Session → Prop) s (r : result Session) :
  (∀ s', R s s' → R' s s') → settles R s r → settles R' s r.
Proof. destruct r; simpl; eauto. Qed.

Lemma start_next_round_not_out_of_fuel s : start_next_round s ≠ OutOfFuel.
Proof. apply robot_send_pre_prepare_not_out_of_fuel. Qed.

Lemma handle_robot_prepare_not_out_of_fuel s r x :
  handle_robot_prepare s r x ≠ OutOfFuel.
Proof.
  unfold handle_robot_prepare. cbv zeta. case_decide; [done|].
  destruct (parent_id _); [apply handle_vote_total|done].
Qed.

Lemma handle_robot_commit_not_out_of_fuel s r x :
  handle_robot_commit s r x ≠ OutOfFuel.
Proof.
  unfold handle_robot_commit. cbv zeta. case_decide; [done|].
  destruct (parent_id _); [apply handle_vote_total|done].
Qed.

Lemma trigger_robot_votes_not_out_of_fuel s v p x :
  trigger_robot_votes s v p x ≠ OutOfFuel.
Proof.
  unfold trigger_robot_votes. case_decide; [done|]. cbv zeta.
  case_decide; [done|].
  apply for_each_not_out_of_fuel. intros s' r.
  case_decide; [done|]. case_decide; [done|].
  destruct (parent_id _); [apply handle_vote_total|done].
Qed.

(** X4.  Whatever its input and whether it returns or raises, no handler
    removes or rewrites an entry of the message log or of the consensus
    history, changes the configuration or the list of robots, forgets a
    node, or takes a lockedQC or prepareQC away or back to a lower view:
    the vote handler, the PRE-PREPARE emission, the view change, the start
    of the next round, the robots' vote handlers and the finaliser all
    only append. *)
Theorem X4_handlers_only_append (s : Session) :
  (∀ m, settles grows s (handle_vote s m)) ∧
  (∀ h, settles grows s (robot_send_pre_prepare s h)) ∧
  (∀ old_view, settles grows s (trigger_view_change s old_view)) ∧
  settles grows s (start_next_round s) ∧
  (∀ r x, settles grows s (handle_robot_prepare s r x)) ∧
  (∀ r x, settles grows s (handle_robot_commit s r x)) ∧
  (∀ v p x, settles grows s (trigger_robot_votes s v p x)) ∧
  (∀ st d, grows s (finalize_consensus s st d)).
Proof.
  split_and!; intros.
  - apply settles_intro; [apply grows_handle_vote | apply handle_vote_total].
  - apply settles_intro;
      [apply grows_robot_send_pre_prepare
      |apply robot_send_pre_prepare_not_out_of_fuel].
  - apply settles_intro;
      [apply grows_trigger_view_change | apply trigger_view_change_total].
  - apply settles_intro;
      [apply grows_start_next_round | apply start_next_round_not_out_of_fuel].
  - apply settles_intro;
      [apply grows_handle_robot_prepare
      |apply handle_robot_prepare_not_out_of_fuel].
  - apply settles_intro;
      [apply grows_handle_robot_commit
      |apply handle_robot_commit_not_out_of_fuel].
  - apply settles_intro;
      [apply grows_trigger_robot_votes
      |apply trigger_robot_votes_not_out_of_fuel].
  - apply grows_finalize_consensus.
Qed.

Lemma high_is_prepare_grows s s' :
  grows s s' → high_is_prepare s → high_is_prepare s'.
Proof.
  intros (_&_&_&_&_&_&_&Hn) Hs i b Hb. specialize (Hn i).
  rewrite Hb in Hn. inversion Hn as [a b' Hab Ha|]; subst.
  destruct Hab as (_ & _ & Hhp). apply Hhp. by apply (Hs i).
Qed.

Lemma fresh_node_states_high_is_prepare (l : list Z) (m : gmap Z NodeState) :
  map_Forall (λ _ ns, highQC ns = prepareQC ns) m →
  map_Forall (λ _ ns, highQC ns = prepareQC ns)
    (foldl (λ m node_id, <[node_id := mkNodeState None None 0 None]> m) m l).
Proof.
  revert m. induction l as [|x l IH]; intros m Hm; simpl; [done|].
  apply IH. by apply map_Forall_insert_2.
Qed.

Lemma create_session_high_is_prepare c s :
  create_session c = Ok s → high_is_prepare s.
Proof.
  unfold create_session. cbv zeta. case_decide; [done|].
  intros [= <-]. unfold high_is_prepare. simpl.
  apply fresh_node_states_high_is_prepare, map_Forall_empty.
Qed.

(** X5.  In a session made by [create_session] every node's highQC is its
    prepareQC, and every handler keeps it so: the highQC a node reports in
    NEW-VIEW is always the prepareQC it holds. *)
Theorem X5_highQC_is_prepareQC (s : Session) :
  high_is_prepare s →
  let keeps := settles (λ _ s', high_is_prepare s') s in
  (∀ m, keeps (handle_vote s m)) ∧
  (∀ h, keeps (robot_send_pre_prepare s h)) ∧
  (∀ old_view, keeps (trigger_view_change s old_view)) ∧
  keeps (start_next_round s) ∧
  (∀ r x, keeps (handle_robot_prepare s r x)) ∧
  (∀ r x, keeps (handle_robot_commit s r x)) ∧
  (∀ v p x, keeps (trigger_robot_votes s v p x)) ∧
  (∀ qc_msg i, high_is_prepare (handle_qc_message s qc_msg i)) ∧
  (∀ c s0, create_session c = Ok s0 → high_is_prepare s0).
Proof.
  intros Hs keeps. subst keeps.
  assert (∀ r, outcome_rel grows s r → r ≠ OutOfFuel →
               settles (λ _ s', high_is_prepare s') s r) as Hk.
  { intros r Hr Hf. apply (settles_impl grows); [|by apply settles_intro].
    intros s' Hg. by apply (high_is_prepare_grows s). }
  split_and!; intros.
  - apply Hk; [apply grows_handle_vote | apply handle_vote_total].
  - apply Hk; [apply grows_robot_send_pre_prepare
              |apply robot_send_pre_prepare_not_out_of_fuel].
  - apply Hk; [apply grows_trigger_view_change
              |apply trigger_view_change_total].
  - apply Hk; [apply grows_start_next_round
              |apply start_next_round_not_out_of_fuel].
  - apply Hk; [apply grows_handle_robot_prepare
              |apply handle_robot_prepare_not_out_of_fuel].
  - apply Hk; [apply grows_handle_robot_commit
              |apply handle_robot_commit_not_out_of_fuel].
  - apply Hk; [apply grows_trigger_robot_votes
              |apply trigger_robot_votes_not_out_of_fuel].
  - by apply (high_is_prepare_grows s); [apply grows_handle_qc_message|].
  - by eapply create_session_high_is_prepare.
Qed.

Lemma X5_highQC_is_prepareQC_witness :
  high_is_prepare (started 4 2 9) ∧
  settles (λ _ s', high_is_prepare s') (started 4 2 9)
    (Handlers.handle_vote (started 4 2 9) (direct_vote 1 0 9 "prepare" 0)).
Proof.
  assert (high_is_prepare (started 4 2 9)) as H
    by (apply (bool_decide_unpack _); vm_compute; exact I).
  split; [exact H|].
  destruct (X5_highQC_is_prepareQC (started 4 2 9) H) as (Hv & _).
  apply Hv.
Defined.

End GrowthResults.

(** ** The two-level topology and the broadcast ([topology_manager.py],
    [socket_handlers.py]) *)
Section TopologyFacts.
Import Engine Topology Handlers.

(** X6.  The topology has two levels below the root and every group holds
    its nodes: for a node id in [0, N) that is not the leader, the group
    reported is [id // g] with g = max(1, N // max(1, K)), the node lies in
    [group*g, group*g + size) with 1 <= size <= g, the parent of a group
    leader is the root, and the parent of a member is the first node of its
    group, which is never a member itself. *)
Theorem X6_topology_two_levels (s : Session) (node_id view : Z) :
  0 ≤ node_id < nodeCount (config s) →
  node_id ≠ view mod nodeCount (config s) →
  let n := nodeCount (config s) in
  let g := Z.max 1 (n / Z.max 1 (branchCount (config s))) in
  let info := get_topology_info s node_id (Some view) in
  ∃ parent size,
    role info ≠ root ∧
    parent_id info = Some parent ∧
    group_id info = Some (node_id / g) ∧
    group_size info = Some size ∧
    1 ≤ size ≤ g ∧
    node_id / g * g ≤ node_id < node_id / g * g + size ∧
    0 ≤ parent < n ∧
    role (get_topology_info s parent (Some view)) ≠ member ∧
    (role info = group_leader →
       node_id = node_id / g * g ∧
       role (get_topology_info s parent (Some view)) = root) ∧
    (role info = member →
       parent = node_id / g * g ∧ parent < node_id).
Proof.
  intros Hid Hl n g info. subst info.
  rewrite get_topology_info_non_root by done. cbv zeta. fold n. fold g.
  assert (0 < g) as Hg by (subst g; lia).
  pose proof (group_start_bounds node_id g Hg) as Hb.
  assert (0 ≤ node_id / g) as Hq by (apply Z.div_pos; lia).
  assert (0 ≤ view mod n < n) as Hm by (apply Z.mod_pos_bound; lia).
  eexists _, _. cbn [role parent_id group_id group_size].
  split_and!; try done.
  - by case_decide.
  - lia.
  - lia.
  - lia.
  - lia.
  - case_decide; lia.
  - case_decide; nia.
  - case_decide as Hs.
    + by rewrite get_topology_info_root.
    + destruct (decide (node_id / g * g = view mod n)) as [Hr|Hr].
      * by rewrite get_topology_info_root.
      * rewrite get_topology_info_non_root by done. cbv zeta. fold n. fold g.
        rewrite Z.div_mul by lia. by rewrite decide_True.
  - case_decide; [|done]. intros _. split; [done|].
    by rewrite get_topology_info_root.
  - case_decide; [done|]. intros _. split; [done|]. lia.
Qed.

Lemma X6_topology_two_levels_witness :
  ∃ parent size,
    role (get_topology_info (started 7 2 9) 5 (Some 0)) ≠ root ∧
    parent_id (get_topology_info (started 7 2 9) 5 (Some 0)) = Some parent ∧
    size = 3 ∧ parent = 3.
Proof.
  destruct (X6_topology_two_levels (started 7 2 9) 5 0)
    as (parent & size & Hr & Hp & _ & Hs & _);
    [split; [vm_compute; discriminate | vm_compute; reflexivity]
    |vm_compute; discriminate |].
  exists parent, size. split; [exact Hr|]. split; [exact Hp|].
  vm_compute in Hp, Hs. split; congruence.
Defined.

Lemma elem_of_range (x n : Z) : x ∈ range n ↔ 0 ≤ x < n.
Proof.
  unfold range. rewrite list_elem_of_fmap. split.
  - intros (y & -> & Hy%elem_of_seq). lia.
  - intros Hx. exists (Z.to_nat x). split; [lia|]. apply elem_of_seq. lia.
Qed.

Lemma NoDup_range (n : Z) : NoDup (range n).
Proof.
  unfold range. apply (NoDup_fmap_2 _). apply NoDup_seq.
Qed.

Lemma length_range (n : Z) : length (range n) = Z.to_nat n.
Proof. unfold range. by rewrite length_fmap, length_seq. Qed.

Lemma elem_of_broadcast_targets s sender y :
  y ∈ broadcast_targets s sender ↔
  y < nodeCount (config s) ∧ y ≠ sender ∧
  ∃ gid, 0 ≤ gid < branchCount (config s) ∧
         y = gid * Z.max 1 (nodeCount (config s) / branchCount (config s)).
Proof.
  unfold broadcast_targets. cbv zeta.
  rewrite list_elem_of_filter, list_elem_of_fmap.
  setoid_rewrite elem_of_range. naive_solver.
Qed.

(** X7.  When N >= K >= 1 and K does not divide N, the topology has more
    than K groups, but the broadcast only addresses the first nodes of the
    groups 0 .. K-1: every node from K*(N//K) on lies in a group whose
    first node is never among the group leaders a broadcast addresses. *)
Theorem X7_broadcast_skips_groups_beyond_K (s : Session) (view y : Z) :
  1 ≤ branchCount (config s) ≤ nodeCount (config s) →
  nodeCount (config s) mod branchCount (config s) ≠ 0 →
  let n := nodeCount (config s) in
  let k := branchCount (config s) in
  let g := n / k in
  let sender := view mod n in
  k * g < n ∧
  (k * g ≤ y < n →
     ((y / g * g) ∉ broadcast_targets s sender) ∧
     (y ≠ sender →
        group_id (get_topology_info s y (Some view)) = Some (y / g) ∧
        k ≤ y / g)).
Proof.
  intros Hk Hmod. cbv zeta.
  set (n := nodeCount (config s)) in *. set (k := branchCount (config s)) in *.
  set (g := n / k).
  pose proof (Z.div_mod n k ltac:(lia)) as Hdm. fold g in Hdm.
  pose proof (Z.mod_pos_bound n k ltac:(lia)) as Hmb.
  assert (1 ≤ g) as Hg.
  { subst g. apply Z.div_le_lower_bound; lia. }
  split; [lia|]. intros Hy.
  assert (k ≤ y / g) as Hq by (apply Z.div_le_lower_bound; lia).
  split.
  - rewrite elem_of_broadcast_targets. fold n. fold k. fold g.
    intros (_ & _ & gid & Hgid & Heq).
    rewrite Z.max_r in Heq by lia.
    apply Z.mul_cancel_r in Heq; lia.
  - intros Hne. split; [|done].
    rewrite get_topology_info_non_root by done. cbv zeta. simpl.
    fold n. fold k. rewrite (Z.max_r 1 k) by lia. fold g.
    by rewrite (Z.max_r 1 g) by lia.
Qed.

Lemma X7_broadcast_skips_groups_beyond_K_witness :
  (6 ∉ broadcast_targets (started 7 2 9) 0) ∧
  group_id (get_topology_info (started 7 2 9) 6 (Some 0)) = Some 2.
Proof.
  destruct (X7_broadcast_skips_groups_beyond_K (started 7 2 9) 0 6)
    as (_ & H);
    [split; [vm_compute; discriminate | vm_compute; discriminate]
    |vm_compute; discriminate |].
  lapply H; [clear H; intros (Ht & Hg)
            |split; [vm_compute; discriminate | vm_compute; reflexivity]].
  split.
  - intros Hin. apply Ht. vm_compute. vm_compute in Hin. exact Hin.
  - lapply Hg; [clear Hg; intros (Hg & _) | vm_compute; discriminate].
    vm_compute in Hg. vm_compute. exact Hg.
Defined.

Lemma set_total_messages_sent_same s :
  set_total_messages_sent (total_messages_sent s) s = s.
Proof. by destruct s. Qed.

Lemma counted_upto_refl s : counted_upto 0 s s.
Proof.
  unfold counted_upto. rewrite set_total_messages_sent_same. split; [done|lia].
Qed.

Lemma counted_upto_trans a b s1 s2 s3 :
  counted_upto a s1 s2 → counted_upto b s2 s3 → counted_upto (a + b) s1 s3.
Proof.
  unfold counted_upto. intros [H1 ?] [H2 ?]. split; [|lia].
  rewrite H2 at 1. rewrite H1 at 1. by destruct s1.
Qed.

Lemma counted_upto_weaken a b s s' :
  a ≤ b → counted_upto a s s' → counted_upto b s s'.
Proof. unfold counted_upto. intros ? [? ?]. split; [done|lia]. Qed.

Lemma counted_upto_count_message_sent t s :
  counted_upto 1 s (count_message_sent false t s).
Proof. unfold counted_upto, count_message_sent. simpl. split; [done|lia]. Qed.

(** A loop whose body counts at most one message per round. *)
Lemma for_each_counted {A} (xs : list A) body s :
  (∀ s x, settles (counted_upto 1) s (body s x)) →
  settles (counted_upto (Z.of_nat (length xs))) s (for_each xs body s).
Proof.
  intros Hbody. revert s. induction xs as [|x xs IH]; intros s.
  - simpl. apply counted_upto_refl.
  - cbn [for_each length]. specialize (Hbody s x).
    destruct (body s x) as [s1|e s1|]; cbn [mbind result_bind]; simpl in Hbody.
    + specialize (IH s1).
      destruct (for_each xs body s1) as [s2|e s2|]; simpl in *; try done;
        (eapply counted_upto_weaken;
         [|eapply counted_upto_trans; [exact Hbody | exact IH]]; lia).
    + simpl. eapply counted_upto_weaken; [|exact Hbody]. lia.
    + done.
Qed.

Lemma length_broadcast_targets s sender :
  Z.of_nat (length (broadcast_targets s sender))
  ≤ Z.max 0 (branchCount (config s)).
Proof.
  unfold broadcast_targets. cbv zeta.
  etrans; [apply Nat2Z.inj_le, length_filter|].
  rewrite length_fmap, length_range. lia.
Qed.

Lemma hierarchical_broadcast_counted sender view s :
  settles (counted_upto (1 + Z.of_nat (length (broadcast_targets s sender)))) s
    (hierarchical_broadcast sender view s).
Proof.
  unfold hierarchical_broadcast. case_decide.
  { simpl. eapply counted_upto_weaken; [|apply counted_upto_refl]. lia. }
  cbv zeta. fold (broadcast_targets s sender).
  set (targets := broadcast_targets s sender).
  match goal with
  | |- settles _ _ (for_each _ ?body ?s1) =>
      pose proof (for_each_counted targets body s1) as Hloop;
      assert (counted_upto 1 s s1) as H1
  end.
  { destruct targets; [|apply counted_upto_count_message_sent].
    eapply counted_upto_weaken; [|apply counted_upto_refl]. lia. }
  lapply Hloop.
  - clear Hloop. intros Hloop.
    destruct (for_each _ _ _) as [s2|e s2|]; simpl in *; try done;
      by eapply counted_upto_trans.
  - intros s' x. destruct (group_id _); simpl.
    + case_decide; simpl; [apply counted_upto_count_message_sent|].
      eapply counted_upto_weaken; [|apply counted_upto_refl]. lia.
    + eapply counted_upto_weaken; [|apply counted_upto_refl]. lia.
Qed.

(** X8.  A broadcast of a QC or of a proposal changes nothing but the
    message counter, which it raises by at most 1 plus the number of group
    leaders addressed, itself at most K: the cost counted for reaching the
    N-1 other nodes does not depend on N.  With no group leader to
    address nothing is counted. *)
Theorem X8_broadcast_counts_at_most_K_plus_1 (sender view : Z) (s : Session) :
  let targets := broadcast_targets s sender in
  Z.of_nat (length targets) ≤ Z.max 0 (branchCount (config s)) ∧
  settles (counted_upto (1 + Z.of_nat (length targets))) s
    (hierarchical_broadcast sender view s) ∧
  (targets = [] →
   settles (counted_upto 0) s (hierarchical_broadcast sender view s)).
Proof.
  intros targets. split_and!.
  - apply length_broadcast_targets.
  - apply hierarchical_broadcast_counted.
  - intros Hnil. unfold hierarchical_broadcast. case_decide.
    { simpl. apply counted_upto_refl. }
    cbv zeta. fold (broadcast_targets s sender). fold targets.
    rewrite Hnil. simpl. apply counted_upto_refl.
Qed.

Lemma X8_broadcast_counts_at_most_K_plus_1_witness :
  settles (counted_upto 0) (started 1 1 9)
    (Handlers.hierarchical_broadcast 0 0 (started 1 1 9)).
Proof.
  destruct (X8_broadcast_counts_at_most_K_plus_1 0 0 (started 1 1 9))
    as (_ & _ & H).
  apply H. vm_compute. reflexivity.
Defined.

End TopologyFacts.

(** ** A QC reaches every node *)
Section QCApplication.
Import Engine Topology Handlers.

Lemma handle_qc_message_fields s qc_msg i :
  handle_qc_message s qc_msg i
  = set_node_states (node_states (handle_qc_message s qc_msg i)) s.
Proof.
  unfold handle_qc_message, update_node_locked_qc, update_node_prepare_qc.
  cbv zeta. destruct s. simpl.
  repeat (case_decide || case_match); simpl in *; simplify_eq; done.
Qed.

Lemma apply_qc_fields qc_msg nodes s :
  foldl (λ s0 node_id, handle_qc_message s0 qc_msg node_id) s nodes
  = set_node_states
      (node_states
         (foldl (λ s0 node_id, handle_qc_message s0 qc_msg node_id) s nodes)) s.
Proof.
  revert s. induction nodes as [|x l IH]; intros s; simpl.
  - by destruct s.
  - rewrite IH at 1. rewrite (handle_qc_message_fields s qc_msg x) at 2.
    done.
Qed.

Lemma qc_applied_handle_qc_message s qc_msg i :
  is_Some (node_states s !! i) →
  qc_applied (qcm_qc qc_msg) (handle_qc_message s qc_msg i) i.
Proof.
  intros [a Ha]. unfold qc_applied, handle_qc_message. cbv zeta.
  assert (∃ b, node_states (update_node_prepare_qc s i (qcm_qc qc_msg)) !! i
               = Some b ∧ qc_le (Some (qcm_qc qc_msg)) (prepareQC b))
    as (b & Hb & Hpb).
  { unfold update_node_prepare_qc. rewrite Ha.
    destruct (prepareQC a) as [cp|] eqn:Hp.
    - destruct (qc_view cp <? qc_view (qcm_qc qc_msg)) eqn:E.
      + simpl. rewrite lookup_insert, decide_True by done.
        eexists. split; [done|]. simpl. lia.
      + apply Z.ltb_ge in E. exists a. rewrite Ha, Hp. by simpl.
    - simpl. rewrite lookup_insert, decide_True by done.
      eexists. split; [done|]. simpl. lia. }
  case_decide as Hc.
  - set (s1 := update_node_prepare_qc s i (qcm_qc qc_msg)) in *.
    unfold update_node_locked_qc. rewrite Hb.
    destruct (lockedQC b) as [cl|] eqn:Hl.
    + destruct (qc_view cl <? qc_view (qcm_qc qc_msg)) eqn:E.
      * simpl. rewrite lookup_insert, decide_True by done.
        eexists. split; [done|]. simpl. split; [done|]. intros _. lia.
      * apply Z.ltb_ge in E. exists b. rewrite Hb, Hl. by simpl.
    + simpl. rewrite lookup_insert, decide_True by done.
      eexists. split; [done|]. simpl. split; [done|]. intros _. lia.
  - exists b. split_and!; try done.
Qed.

Lemma qc_applied_mono q s s' i :
  nodes_le s s' → qc_applied q s i → qc_applied q s' i.
Proof.
  intros Hn (a & Ha & Hp & Hl). specialize (Hn i). rewrite Ha in Hn.
  inversion Hn as [a' b Hab Ha' Hb|]; subst.
  destruct Hab as (Hlb & Hpb & _).
  exists b. split_and!; [done| |].
  - by eapply (qc_le_trans (Some q)).
  - intros Hc. by eapply (qc_le_trans (Some q)); [apply Hl|].
Qed.

Lemma known_nodes_le s s' i :
  nodes_le s s' → is_Some (node_states s !! i) → is_Some (node_states s' !! i).
Proof.
  intros Hn [a Ha]. specialize (Hn i). rewrite Ha in Hn.
  inversion Hn; subst. eauto.
Qed.

Lemma nodes_le_apply_qc qc_msg nodes s :
  nodes_le s (foldl (λ s0 node_id, handle_qc_message s0 qc_msg node_id) s nodes).
Proof. apply (grows_apply_qc qc_msg nodes s). Qed.

(** After the loop that hands a QC message to the nodes of a list, the QC
    is applied at every known node of the list. *)
Lemma apply_qc_all qc_msg nodes s i :
  i ∈ nodes → is_Some (node_states s !! i) →
  qc_applied (qcm_qc qc_msg)
    (foldl (λ s0 node_id, handle_qc_message s0 qc_msg node_id) s nodes) i.
Proof.
  revert s. induction nodes as [|x l IH]; intros s Hi Hk; [by inversion Hi|].
  simpl. apply elem_of_cons in Hi as [->|Hi].
  - eapply qc_applied_mono; [apply nodes_le_apply_qc|].
    by apply qc_applied_handle_qc_message.
  - apply IH; [done|].
    eapply known_nodes_le; [apply nodes_le_handle_qc_message|done].
Qed.

Lemma finalize_consensus_keeps s st d :
  messages (finalize_consensus s st d) = messages s ∧
  node_states (finalize_consensus s st d) = node_states s ∧
  pending_votes (finalize_consensus s st d) = pending_votes s ∧
  pending_group_votes (finalize_consensus s st d) = pending_group_votes s ∧
  config (finalize_consensus s st d) = config s.
Proof. unfold finalize_consensus. by case_decide. Qed.

(** The quorum block: one QC message is logged, the tallies are left as
    they are, and on return the QC is applied at every known node. *)
Lemma quorum_reached_outcome s m entry s' :
  handle_vote_quorum_reached s m entry
    (get_current_leader s (Some (vote_view m))) = Ok s' →
  msgs_qc (messages s') = msgs_qc (messages s) ++ [qc_message_for s m entry] ∧
  msgs_vote (messages s') = msgs_vote (messages s) ∧
  pending_votes s' = pending_votes s ∧
  pending_group_votes s' = pending_group_votes s ∧
  ∀ i, 0 ≤ i < nodeCount (config s) → is_Some (node_states s !! i) →
       qc_applied (qcm_qc (qc_message_for s m entry)) s' i.
Proof.
  unfold handle_vote_quorum_reached. cbv zeta.
  set (qm := mkQCMsg _ _ _ _ _ _).
  assert (qm = qc_message_for s m entry) as Hqm by done.
  set (s0 := log_qc qm _).
  pose proof (hierarchical_broadcast_counted
                (get_current_leader s (Some (vote_view m))) (vote_view m) s0)
    as Hb.
  destruct (hierarchical_broadcast _ _ s0) as [s1|e s1|];
    cbn [mbind result_bind]; [|done..].
  simpl in Hb. destruct Hb as [Hs1 _].
  set (s2 := foldl _ s1 _).
  pose proof (apply_qc_fields qm (range (nodeCount (config s1))) s1) as Hs2.
  fold s2 in Hs2.
  assert (∀ i, 0 ≤ i < nodeCount (config s) →
               is_Some (node_states s !! i) → qc_applied (qcm_qc qm) s2 i)
    as Happ.
  { intros i Hi Hk. apply apply_qc_all.
    - apply elem_of_range. by rewrite Hs1.
    - by rewrite Hs1. }
  assert (messages s2 = messages s0 ∧ pending_votes s2 = pending_votes s ∧
          pending_group_votes s2 = pending_group_votes s) as (Hm2 & Hp2 & Hg2).
  { rewrite Hs2, Hs1. done. }
  rewrite <- Hqm.
  case_decide; intros [= <-].
  - destruct (finalize_consensus_keeps s2 "Consensus Success"
                ("View " +:+ pretty (vote_view m) +:+ " consensus reached"))
      as (Hfm & Hfn & Hfp & Hfg & _).
    rewrite Hfm, Hfp, Hfg, Hm2. split_and!; try done.
    intros i Hi Hk. destruct (Happ i Hi Hk) as (ns & Hns & ?).
    exists ns. by rewrite Hfn.
  - rewrite Hm2. split_and!; done.
Qed.

Lemma case_B_outcome s m s' :
  vote_view m = current_view s →
  handle_vote_case_B s m = Ok s' → no_qc s s' ∨ qc_emitted s m s'.
Proof.
  intros Hview. unfold handle_vote_case_B. cbv zeta.
  case_decide; [intros [= <-]; by left|].
  case_decide; [intros [= <-]; by left|].
  case_decide as Hth; [intros [= <-]; by left|].
  set (entry := if vote_is_group_vote m then _ else _) in *.
  set (s1 := set_pending_votes _ s).
  intros Hq. right.
  apply (quorum_reached_outcome s1 m entry s') in Hq
    as (Hqc & _ & Hp & _ & Happ).
  exists entry. split_and!; try done.
  - rewrite Hp. unfold vote_key. simpl. by rewrite lookup_insert, decide_True.
  - simpl in Hth. unfold get_quorum_threshold in *. simpl in Hth. lia.
Qed.

(** One call of the vote handler emits no QC, or the QC of the key of the
    vote. *)
Lemma handle_vote_outcome s m s' :
  handle_vote s m = Ok s' → no_qc s s' ∨ qc_emitted s m s'.
Proof.
  unfold handle_vote. remember 1%nat as fuel eqn:Hfuel.
  cbn [handle_vote_rec]. cbv zeta.
  case_decide; [intros [= <-]; by left|].
  case_decide; [intros [= <-]; by left|].
  assert (vote_view m = current_view s) as Hview by lia.
  case_decide as Hrole; [|by apply case_B_outcome].
  destruct (parent_id _) as [gl|] eqn:Hparent; [|intros [= <-]; by left].
  case_decide; [intros [= <-]; by left|].
  destruct (group_size _) as [gsz|]; [|done].
  case_decide; [intros [= <-]; by left|]. subst fuel.
  rewrite handle_vote_rec_case_B;
    [|simpl; lia|by eapply group_start_not_member].
  match goal with
  | |- handle_vote_case_B ?s1 ?gv = _ → _ =>
      intros [Hno|Hqc]%(case_B_outcome s1 gv s'); [| |done]
  end.
  - left. destruct Hno as (?&?&?&?). by split_and!.
  - right. destruct Hqc as (entry & ?&?&?&?&?&?). exists entry.
    by split_and!.
Qed.

(** X9.  One call of the vote handler that returns emits no QC at all
    (QC log, node states, phase and message counter as before), or exactly
    one: the QC of the key (view, phase, value) of the vote, emitted when
    the tally of that key has reached the global quorum and the vote
    carries the phase of the session; when the handler returns, every known
    node 0 .. N-1 holds a prepareQC of that view or higher and, for a
    commit QC, a lockedQC of that view or higher. *)
Theorem X9_one_qc_applied_to_every_node (s : Session) (m : Vote) (s' : Session) :
  handle_vote s m = Ok s' → no_qc s s' ∨ qc_emitted s m s'.
Proof. apply handle_vote_outcome. Qed.

Lemma X9_one_qc_applied_to_every_node_witness :
  let s := session_of
             (replay_in_order [direct_vote 2 0 9 "prepare" 0;
                               direct_vote 4 0 9 "prepare" 0] (started 5 2 9))
             (started 5 2 9) in
  let m := direct_vote 3 2 9 "prepare" 0 in
  let s' := session_of (Handlers.handle_vote s m) s in
  no_qc s s' ∨ qc_emitted s m s'.
Proof.
  intros s m s'. apply (X9_one_qc_applied_to_every_node s m s').
  vm_compute. reflexivity.
Defined.

Lemma check_safe_node_locked s i pv y pq lq :
  locked_of s i = Some lq →
  check_safe_node s i pv y pq = true →
  qc_view lq < pv ∨
  (pq = None ∧ y = qc_value lq ∧ qc_view lq = pv) ∨
  (∃ q, pq = Some q ∧ qc_view lq < qc_view q ∧ qc_value q = qc_value lq).
Proof.
  unfold locked_of, check_safe_node. cbv zeta. intros ->.
  destruct (qc_view lq <? pv) eqn:E; [apply Z.ltb_lt in E; by left|].
  apply Z.ltb_ge in E. destruct pq as [q|].
  - unfold qc_extends.
    destruct (_ && _) eqn:Hext; [|done]. intros _.
    apply andb_true_iff in Hext as [?%Z.ltb_lt ?%Z.eqb_eq]. right. right. eauto.
  - destruct (_ && _) eqn:Hb; [|done]. intros _.
    apply andb_true_iff in Hb as [?%Z.eqb_eq ?%Z.leb_le]. right. left.
    split_and!; [done|done|lia].
Qed.

(** X10.  Once the vote handler has emitted a commit QC of view v, no
    known node 0 .. N-1 passes the SafeNode test for a proposal that lies
    behind it: a proposal accepted by [check_safe_node] has a view above
    the node's lock (so above v or equal), or carries a QC of a view above
    v, or, without QC, is a proposal of the locked view and value. *)
Theorem X10_safe_node_after_commit_qc
    (s : Session) (m : Vote) (s' : Session) (i pv y : Z) (pq : option QC) :
  handle_vote s m = Ok s' →
  vote_phase m = "commit" →
  msgs_qc (messages s') ≠ msgs_qc (messages s) →
  0 ≤ i < nodeCount (config s) →
  is_Some (node_states s !! i) →
  check_safe_node s' i pv y pq = true →
  ∃ lq, locked_of s' i = Some lq ∧
        vote_view m ≤ qc_view lq ∧
        (qc_view lq < pv ∨
         (pq = None ∧ y = qc_value lq ∧ qc_view lq = pv) ∨
         (∃ q, pq = Some q ∧ qc_view lq < qc_view q
               ∧ qc_value q = qc_value lq)).
Proof.
  intros Hv Hp Hqc Hi Hk Hsafe.
  apply handle_vote_outcome in Hv as [(Hno & _)|(entry & _ & _ & _ & _ & _ & Happ)];
    [done|].
  destruct (Happ i Hi Hk) as (ns & Hns & _ & Hl).
  specialize (Hl Hp). simpl in Hl.
  destruct (lockedQC ns) as [lq|] eqn:Hlq; [|done].
  assert (locked_of s' i = Some lq) as Hlock.
  { unfold locked_of. rewrite Hns. done. }
  exists lq. split; [done|]. split; [done|].
  by eapply check_safe_node_locked.
Qed.

Lemma X10_safe_node_after_commit_qc_witness :
  let s := session_of
             (replay_in_order
                (quorum_votes_5_in "prepare" ++ quorum_votes_5_in "pre-commit"
                 ++ [direct_vote 2 0 9 "commit" 0; direct_vote 4 0 9 "commit" 0])
                (started 5 2 9))
             (started 5 2 9) in
  let m := direct_vote 3 2 9 "commit" 0 in
  let s' := session_of (Handlers.handle_vote s m) s in
  ∃ lq, locked_of s' 1 = Some lq ∧ vote_view m ≤ qc_view lq.
Proof.
  intros s m s'.
  destruct (X10_safe_node_after_commit_qc s m s' 1 0 9 None)
    as (lq & Hl & Hv & _).
  - vm_compute. reflexivity.
  - vm_compute. reflexivity.
  - vm_compute. discriminate.
  - split; [vm_compute; discriminate | vm_compute; reflexivity].
  - vm_compute. eexists. reflexivity.
  - vm_compute. reflexivity.
  - exists lq. split; assumption.
Defined.

End QCApplication.

(** ** The tally and the signers of a QC *)
Section Tally.
Import Engine Topology Handlers.

Lemma weights_app l1 l2 : weights (l1 ++ l2) = weights l1 + weights l2.
Proof.
  unfold weights. induction l1 as [|c l1 IH]; csimpl; [lia|].
  rewrite IH. lia.
Qed.

Lemma size_union_le (X Y : gset Z) : (size (X ∪ Y) ≤ size X + size Y)%nat.
Proof.
  rewrite size_union_alt.
  pose proof (subseteq_size (Y ∖ X) Y ltac:(set_solver)). lia.
Qed.

Lemma size_list_to_set_le (l : list Z) :
  (size (list_to_set (C := gset Z) l) ≤ length l)%nat.
Proof.
  induction l as [|x l IH].
  - rewrite list_to_set_nil, size_empty. done.
  - rewrite list_to_set_cons. etrans; [apply size_union_le|].
    rewrite size_singleton. simpl. lia.
Qed.

Lemma size_all_voters_from (acc : gset Z) (gvs : list Contribution) :
  Forall contribution_ok gvs →
  Z.of_nat (size (foldl (λ acc gv, acc ∪ list_to_set (contrib_group_voters gv))
                    acc gvs))
  ≤ Z.of_nat (size acc) + weights gvs.
Proof.
  revert acc. induction gvs as [|c gvs IH]; intros acc Hok; simpl.
  - unfold weights. simpl. lia.
  - apply Forall_cons in Hok as [Hc Hok].
    etrans; [apply IH; done|].
    pose proof (size_union_le acc (list_to_set (contrib_group_voters c))).
    pose proof (size_list_to_set_le (contrib_group_voters c)).
    unfold contribution_ok in Hc.
    change (weights (c :: gvs)) with (contrib_weight c + weights gvs).
    lia.
Qed.

(** The signers of a QC built from a consistent entry are at most its
    total weight. *)
Lemma signers_le_total_weight (entry : Pending) :
  entry_ok entry →
  Z.of_nat (length (elements (all_voters (group_votes entry))))
  ≤ total_weight entry.
Proof.
  intros [Ht Hok]. rewrite Ht.
  pose proof (size_all_voters_from ∅ (group_votes entry) Hok) as H.
  rewrite size_empty in H. unfold all_voters. unfold size, set_size in H.
  simpl in H. lia.
Qed.

Lemma tally_ok_keeps s s' :
  pending_votes s' = pending_votes s →
  msgs_qc (messages s') = msgs_qc (messages s) →
  tally_ok s → tally_ok s'.
Proof. unfold tally_ok. by intros -> ->. Qed.

Lemma quorum_reached_tally s m entry gl :
  tally_ok s → entry_ok entry →
  outcome_rel (λ _ s', tally_ok s') s (handle_vote_quorum_reached s m entry gl).
Proof.
  intros [Hp Hq] He. unfold handle_vote_quorum_reached. cbv zeta.
  set (qm := mkQCMsg _ _ _ _ _ _). set (s0 := log_qc qm _).
  assert (tally_ok s0) as H0.
  { split; [done|]. simpl. apply Forall_app. split; [done|].
    apply Forall_singleton. simpl. by apply signers_le_total_weight. }
  pose proof (hierarchical_broadcast_counted gl (vote_view m) s0) as Hb.
  destruct (hierarchical_broadcast _ _ s0) as [s1|e s1|];
    cbn [mbind result_bind]; simpl in Hb; [| |done].
  - destruct Hb as [Hs1 _].
    assert (tally_ok s1) as H1 by (rewrite Hs1; exact H0).
    set (s2 := foldl _ s1 _).
    assert (tally_ok s2) as H2.
    { pose proof (apply_qc_fields qm (range (nodeCount (config s1))) s1) as Hs2.
      fold s2 in Hs2. rewrite Hs2. exact H1. }
    case_decide; simpl; [|done].
    destruct (finalize_consensus_keeps s2 "Consensus Success"
                ("View " +:+ pretty (vote_view m) +:+ " consensus reached"))
      as (Hfm & _ & Hfp & _).
    eapply tally_ok_keeps; [exact Hfp | by rewrite Hfm | done].
  - destruct Hb as [Hs1 _]. rewrite Hs1. exact H0.
Qed.

Lemma case_B_tally s m :
  tally_ok s → vote_ok m →
  outcome_rel (λ _ s', tally_ok s') s (handle_vote_case_B s m).
Proof.
  intros Hs Hm. unfold handle_vote_case_B. cbv zeta.
  case_decide; [done|].
  set (key := (vote_view m, vote_phase m, vote_value m)).
  set (old := default (mkPending 0 []) (pending_votes s !! key)).
  set (entry := if vote_is_group_vote m then _ else _).
  assert (entry_ok old) as [Ho1 Ho2].
  { subst old. destruct (pending_votes s !! key) as [e|] eqn:He; simpl.
    - destruct Hs as [Hp _]. by apply (Hp key).
    - split; [done|constructor]. }
  assert (entry_ok entry) as He.
  { subst entry. destruct (vote_is_group_vote m) eqn:Hg.
    - split; simpl.
      + rewrite weights_app, Ho1. unfold weights. simpl. lia.
      + apply Forall_app. split; [done|]. apply Forall_singleton.
        unfold contribution_ok. simpl. by apply Hm.
    - split; simpl.
      + rewrite weights_app, Ho1. unfold weights. simpl. lia.
      + apply Forall_app. split; [done|]. by apply Forall_singleton. }
  set (s1 := set_pending_votes _ s).
  assert (tally_ok s1) as H1.
  { destruct Hs as [Hp Hq]. split; [|done]. simpl.
    by apply map_Forall_insert_2. }
  case_decide; [done|]. case_decide; [done|].
  pose proof (quorum_reached_tally s1 m entry
                (get_current_leader s (Some (vote_view m))) H1 He) as Hq.
  destruct (handle_vote_quorum_reached _ _ _ _); done.
Qed.

Lemma handle_vote_rec_tally fuel s m :
  tally_ok s → vote_ok m →
  outcome_rel (λ _ s', tally_ok s') s (handle_vote_rec fuel s m).
Proof.
  revert s m. induction fuel as [|fuel IH]; intros s m Hs Hm; [done|].
  cbn [handle_vote_rec]. cbv zeta.
  case_decide; [done|]. case_decide; [done|].
  case_decide; [|by apply case_B_tally].
  destruct (parent_id _) as [gl|]; [|done].
  case_decide; [done|].
  destruct (group_size _) as [gsz|]; [|done].
  case_decide; [done|].
  match goal with
  | |- outcome_rel _ _ (handle_vote_rec fuel ?s1 ?gv) =>
      pose proof (IH s1 gv) as Hrec
  end.
  lapply Hrec; [clear Hrec; intros Hrec|done].
  lapply Hrec; [clear Hrec; intros Hrec|].
  - destruct (handle_vote_rec fuel _ _); done.
  - intros _. simpl. unfold size, set_size. simpl. done.
Qed.

(** X11.  In every pending tally the total weight is the sum of the
    weights of the recorded contributions, each contribution weighs the
    number of voters it lists, and no QC of the log lists more signers than
    its total weight.  The vote handler keeps this for every direct vote
    (and every GroupVote whose weight is its voter count): the weight of a
    QC is an upper bound of its signers, never a lower one. *)
Theorem X11_tally_bounds_signers (s : Session) (m : Vote) :
  tally_ok s → vote_ok m →
  settles (λ _ s', tally_ok s') s (handle_vote s m).
Proof.
  intros Hs Hm. apply settles_intro; [|apply handle_vote_total].
  by apply handle_vote_rec_tally.
Qed.

Lemma X11_tally_bounds_signers_witness :
  settles (λ _ s', tally_ok s') (started 5 2 9)
    (Handlers.handle_vote (started 5 2 9) (direct_vote 2 0 9 "prepare" 0)).
Proof.
  apply X11_tally_bounds_signers.
  - assert (pending_votes (started 5 2 9) = ∅) as Hp
      by (vm_compute; reflexivity).
    assert (msgs_qc (messages (started 5 2 9)) = []) as Hq
      by (vm_compute; reflexivity).
    unfold tally_ok. rewrite Hp, Hq. split; [apply map_Forall_empty|].
    apply Forall_nil_2.
  - intros H. vm_compute in H. discriminate.
Defined.

End Tally.

(** ** QC application in the service, and the start of a round *)
Section Rounds.
Import Engine Topology Handlers.

(** X12.  [ConsensusService.handle_qc_for_node] is the socket handler's
    [handle_qc_message], and [handle_qc_for_all_nodes] changes nothing but
    the node states: afterwards every known node 0 .. N-1 holds a
    prepareQC of the view of the QC or higher (and, for a commit QC, a
    lockedQC of that view or higher), no node is forgotten and no QC of a
    node moves to a lower view. *)
Theorem X12_service_applies_qc_to_every_node (s : Session) (qc_msg : QCMsg) :
  let s' := Service.handle_qc_for_all_nodes s qc_msg in
  (∀ i, Service.handle_qc_for_node s qc_msg i = handle_qc_message s qc_msg i) ∧
  s' = set_node_states (node_states s') s ∧
  nodes_le s s' ∧
  (∀ i, 0 ≤ i < nodeCount (config s) → is_Some (node_states s !! i) →
        qc_applied (qcm_qc qc_msg) s' i).
Proof.
  intros s'. subst s'. unfold Service.handle_qc_for_all_nodes. cbv zeta.
  change (λ s0 node_id, Service.handle_qc_for_node s0 qc_msg node_id)
    with (λ s0 node_id, handle_qc_message s0 qc_msg node_id).
  split_and!.
  - done.
  - apply apply_qc_fields.
  - apply nodes_le_apply_qc.
  - intros i Hi Hk. apply apply_qc_all; [by apply elem_of_range|done].
Qed.

Lemma X12_service_applies_qc_to_every_node_witness :
  qc_applied qc_v3 (Service.handle_qc_for_all_nodes (started 4 2 9) qc_msg_v3) 2.
Proof.
  destruct (X12_service_applies_qc_to_every_node (started 4 2 9) qc_msg_v3)
    as (_ & _ & _ & H).
  apply (H 2).
  - split; [vm_compute; discriminate | vm_compute; reflexivity].
  - vm_compute. eexists. reflexivity.
Defined.

Lemma round_frame_refl s : round_frame s s.
Proof. unfold round_frame. by split_and!. Qed.

Lemma round_frame_trans s1 s2 s3 :
  round_frame s1 s2 → round_frame s2 s3 → round_frame s1 s3.
Proof.
  unfold round_frame. intros (?&?&?&?&?&?&?&?&?&?) (?&?&?&?&?&?&?&?&?&?).
  split_and!; congruence.
Qed.

Lemma same_view_refl s : same_view s s.
Proof. unfold same_view. by split_and!. Qed.

Lemma same_view_trans s1 s2 s3 :
  same_view s1 s2 → same_view s2 s3 → same_view s1 s3.
Proof.
  unfold same_view. intros (?&?&?&?) (?&?&?&?). split_and!; congruence.
Qed.

Lemma emission_frame_refl s : round_frame s s ∧ same_view s s.
Proof. split; [apply round_frame_refl | apply same_view_refl]. Qed.

Lemma emission_frame_trans s1 s2 s3 :
  round_frame s1 s2 ∧ same_view s1 s2 →
  round_frame s2 s3 ∧ same_view s2 s3 →
  round_frame s1 s3 ∧ same_view s1 s3.
Proof.
  intros [? ?] [? ?].
  split; [by eapply round_frame_trans | by eapply same_view_trans].
Qed.

Lemma emission_frame_hierarchical_broadcast sender view s :
  outcome_rel (λ s s', round_frame s s' ∧ same_view s s') s
    (hierarchical_broadcast sender view s).
Proof.
  pose proof (hierarchical_broadcast_counted sender view s) as H.
  destruct (hierarchical_broadcast sender view s) as [s1|e s1|];
    simpl in *; [| |done]; destruct H as [-> _]; by split.
Qed.

(** The PRE-PREPARE emission leaves the buffer, the tallies, the node
    states, the view and the round alone. *)
Lemma emission_frame_robot_send_pre_prepare s h :
  outcome_rel (λ s s', round_frame s s' ∧ same_view s s') s
    (robot_send_pre_prepare s h).
Proof.
  set (R := λ s s', round_frame s s' ∧ same_view s s').
  unfold robot_send_pre_prepare. cbv zeta.
  case_decide; [apply emission_frame_refl|].
  case_decide; [by split|].
  set (s0 := log_pre_prepare _ _).
  apply (outcome_rel_step R emission_frame_trans s s0); [by split|].
  apply (outcome_rel_bind R emission_frame_trans);
    [apply emission_frame_hierarchical_broadcast|].
  intros s1 _.
  loop_from R emission_frame_trans s1; [by split|].
  apply (for_each_rel R emission_frame_refl emission_frame_trans).
  intros s' x. case_decide; [|apply emission_frame_refl].
  case_match; [|apply emission_frame_refl]. by split.
Qed.

Lemma round_frame_reset_robots robots s :
  let s' := foldl (λ s robot_id,
                     set_robot_node_states
                       (<[robot_id := mkRobotState false 0 0 false false]>
                          (robot_node_states s)) s) s robots in
  round_frame s s' ∧ same_view s s'.
Proof.
  apply (foldl_rel (λ s s', round_frame s s' ∧ same_view s s')
           emission_frame_refl emission_frame_trans).
  intros. by split.
Qed.

(** X14.  [start_next_round] enters the view [current_view + 1] of the
    round [current_round + 1] with the leader of that view and status
    "running", whether its PRE-PREPARE emission returns or raises, and it
    leaves the vote buffer, both tallies, the node states and the logs of
    votes and QCs exactly as they were: the votes buffered for the view it
    enters are neither replayed nor removed (unlike in
    [trigger_view_change]), and the locks of the nodes survive the round. *)
Theorem X14_start_next_round_keeps_buffer (s : Session) :
  settles (λ s s',
             current_view s' = current_view s + 1 ∧
             current_round s' = current_round s + 1 ∧
             leader_id s' = (current_view s + 1) mod nodeCount (config s) ∧
             status s' = "running" ∧
             round_frame s s')
    s (start_next_round s).
Proof.
  apply settles_intro; [|apply start_next_round_not_out_of_fuel].
  unfold start_next_round. cbv zeta.
  match goal with
  | |- outcome_rel _ _ (robot_send_pre_prepare ?s1 _) =>
      pose proof (emission_frame_robot_send_pre_prepare s1 None) as He;
      assert (current_view s1 = current_view s + 1 ∧
              current_round s1 = current_round s + 1 ∧
              leader_id s1 = (current_view s + 1) mod nodeCount (config s) ∧
              status s1 = "running" ∧ round_frame s s1) as H1
  end.
  { match goal with
    | |- context [foldl ?f ?s0 ?l] =>
        destruct (round_frame_reset_robots l s0) as [Hr (Hv&Hc&Hl&Hs)]
    end.
    cbv zeta in Hr, Hv, Hc, Hl, Hs.
    rewrite Hv, Hc, Hl, Hs. by split_and!. }
  destruct H1 as (Hv1 & Hc1 & Hl1 & Hs1 & Hr1).
  destruct (robot_send_pre_prepare _ None) as [s2|e s2|]; simpl in *;
    [| |done]; destruct He as [Hr2 (Hv2&Hc2&Hl2&Hs2)];
    (split_and!; [congruence..|by eapply round_frame_trans]).
Qed.

End Rounds.

(** ** The two aggregators *)
Section Aggregators.
Import Engine Topology Handlers.

Lemma global_vote_agrees s m voter_role info r s' :
  voter_role ≠ member →
  Service._process_global_vote s m voter_role info = Ok (r, s') →
  Service.vr_status r ≠ "qc_generated" →
  handle_vote_case_B s m = Ok s'.
Proof.
  intros Hrole. unfold Service._process_global_vote, handle_vote_case_B.
  cbv zeta. rewrite (decide_False (P := voter_role = member)) by done.
  case_decide; [by intros [= <- <-]|].
  set (entry := if vote_is_group_vote m then _ else _).
  set (s1 := set_pending_votes _ s).
  case_decide as Hth.
  - intros [= <- <-] _. by case_decide.
  - case_decide; [done|].
    destruct (for_each _ _ _) as [s2|e s2|]; simpl; [|done..].
    intros [= <- <-] Hs. done.
Qed.

(** X13.  The service aggregator and the socket aggregator agree on every
    vote for which the service does not answer "qc_generated": whenever
    [ConsensusService.handle_vote] returns another status (buffered,
    ignored, invalid_target, pending, group_vote_generated),
    [handle_vote] of the socket handlers returns and leaves exactly the
    session the service leaves. *)
Theorem X13_aggregators_agree_without_qc
    (s : Session) (m : Vote) (r : Service.VoteResult) (s' : Session) :
  Service.handle_vote s m = Ok (r, s') →
  Service.vr_status r ≠ "qc_generated" →
  handle_vote s m = Ok s'.
Proof.
  unfold Service.handle_vote, handle_vote. remember 1%nat as fuel eqn:Hfuel.
  cbn [handle_vote_rec]. cbv zeta.
  case_decide; [by intros [= <- <-]|].
  case_decide; [by intros [= <- <-]|].
  case_decide as Hrole.
  - unfold Service._process_member_vote. cbv zeta.
    destruct (parent_id _) as [gl|] eqn:Hparent; [|by intros [= <- <-]].
    case_decide; [by intros [= <- <-]|].
    destruct (group_size _) as [gsz|]; [|done].
    case_decide; [by intros [= <- <-]|].
    cbn [mbind result_bind Service.mr_status Service.mr_group_vote].
    rewrite decide_False by (intros Hne; by apply Hne).
    subst fuel.
    rewrite handle_vote_rec_case_B;
      [|simpl; lia|by eapply group_start_not_member].
    match goal with
    | |- context [Service._process_global_vote ?s1 ?gv ?role ?info] =>
        pose proof (global_vote_agrees s1 gv role info) as Hg;
        destruct (Service._process_global_vote s1 gv role info)
          as [[gr s2]|e s2|] eqn:Hserv; cbn [mbind result_bind]; [|done..]
    end.
    intros [= <- <-] Hs. apply (Hg gr s2); [done|done|].
    simpl in Hs. intros Hq. apply Hs. by rewrite decide_True.
  - match goal with
    | |- context [Service._process_global_vote ?s1 ?gv ?role ?info] =>
        pose proof (global_vote_agrees s1 gv role info) as Hg;
        destruct (Service._process_global_vote s1 gv role info)
          as [[gr s2]|e s2|] eqn:Hserv; cbn [mbind result_bind]; [|done..]
    end.
    intros [= <- <-] Hs. by apply (Hg gr s2).
Qed.

Lemma X13_aggregators_agree_without_qc_witness :
  let s := started 5 2 9 in
  let m := direct_vote 3 2 9 "prepare" 0 in
  Handlers.handle_vote s m
  = Ok (session_of (service_run [m] s) s).
Proof.
  intros s m.
  apply (X13_aggregators_agree_without_qc s m
           (Service.mkVoteResult "group_vote_generated"
              (Some (mkVote 2 0 9 "prepare" 0 1 true (Some 1) (Some 1) (Some [3])))
              None)).
  - vm_compute. reflexivity.
  - vm_compute. discriminate.
Defined.

End Aggregators.

(** ** The robot agent *)
Section Robots.
Import Engine Topology Handlers.

Lemma proposal_frame_refl s : proposal_frame s s.
Proof. by split. Qed.

Lemma proposal_frame_trans s1 s2 s3 :
  proposal_frame s1 s2 → proposal_frame s2 s3 → proposal_frame s1 s3.
Proof. intros [? ?] [? ?]. split; congruence. Qed.

Lemma proposal_frame_hierarchical_broadcast sender view s :
  outcome_rel proposal_frame s (hierarchical_broadcast sender view s).
Proof.
  pose proof (hierarchical_broadcast_counted sender view s) as H.
  destruct (hierarchical_broadcast sender view s) as [s1|e s1|];
    simpl in *; [| |done]; destruct H as [-> _]; by split.
Qed.

(** X15.  [RobotAgent.generate_proposal] and [robot_send_pre_prepare]
    log the same proposals: when the agent yields none it leaves the
    session untouched and the socket handler logs none either; when the
    agent yields a proposal, it is the proposal of the leader for the
    current view and round, carrying the highQC and its value (the
    configured value without highQC), and the socket handler, whether it
    returns or raises, has logged exactly that proposal.  They differ in
    the sentinel: the socket handler marks the current view as proposed in
    every case, the agent only when it proposes. *)
Theorem X15_generate_proposal_agrees (s : Session) (h : option QC) :
  let r := RobotAgent.generate_proposal s h in
  settles (λ _ s2,
             msgs_pre_prepare (messages s2) = msgs_pre_prepare (messages r.2) ∧
             last_pre_prepare_view s2 = Some (current_view s))
    s (robot_send_pre_prepare s h) ∧
  (r.1 = None → r.2 = s) ∧
  (∀ m, r.1 = Some m →
        last_pre_prepare_view r.2 = Some (current_view s) ∧
        msgs_pre_prepare (messages r.2)
        = msgs_pre_prepare (messages s) ++ [m] ∧
        m = mkProposal (get_current_leader s None)
              (match h with
               | Some q => qc_value q
               | None => proposalValue (config s)
               end) "prepare" (current_view s) (current_round s) h).
Proof.
  intros r. subst r. split_and!.
  - apply settles_intro; [|apply robot_send_pre_prepare_not_out_of_fuel].
    unfold RobotAgent.generate_proposal, robot_send_pre_prepare. cbv zeta.
    destruct (decide (last_pre_prepare_view s = Some (current_view s)))
      as [Hl|Hl]; [by simpl|].
    destruct (decide (get_current_leader s None ∉ robot_nodes s)) as [Hr|Hr].
    { rewrite decide_True by exact Hr. by simpl. }
    rewrite decide_False by exact Hr. cbn [snd].
    set (s0 := log_pre_prepare _ _).
    apply (outcome_rel_impl (λ _ s2, proposal_frame s0 s2)).
    { intros s2 [-> ->]. done. }
    apply (outcome_rel_mono (proposal_frame s0) proposal_frame s0).
    { done. }
    apply (outcome_rel_bind proposal_frame proposal_frame_trans);
      [apply proposal_frame_hierarchical_broadcast|].
    intros s1 _.
    loop_from proposal_frame proposal_frame_trans s1; [by split|].
    apply (for_each_rel proposal_frame proposal_frame_refl proposal_frame_trans).
    intros s' x. case_decide; [|apply proposal_frame_refl].
    case_match; [|apply proposal_frame_refl]. by split.
  - unfold RobotAgent.generate_proposal. cbv zeta.
    repeat (case_decide; [done|]). done.
  - intros m. unfold RobotAgent.generate_proposal. cbv zeta.
    repeat (case_decide; [done|]). simpl. intros [= <-]. done.
Qed.

Lemma X15_generate_proposal_agrees_witness :
  (RobotAgent.generate_proposal (started 4 2 9) None).2 = started 4 2 9.
Proof.
  destruct (X15_generate_proposal_agrees (started 4 2 9) None) as (_ & H & _).
  apply H. vm_compute. reflexivity.
Defined.

(** Case B records the vote it accepts, and leaves the group tallies
    alone. *)
Lemma case_B_tallies s m s' :
  handle_vote_case_B s m = Ok s' →
  vote_to m = get_current_leader s (Some (vote_view m)) →
  pending_group_votes s' = pending_group_votes s ∧
  msgs_vote (messages s') = msgs_vote (messages s) ∧
  ∃ e, pending_votes s' !! vote_key m = Some e ∧
       (vote_is_group_vote m = false →
        mkContribution (vote_from m) 1 [vote_from m] ∈ group_votes e).
Proof.
  intros Hb Hto. revert Hb. unfold handle_vote_case_B. cbv zeta.
  rewrite decide_False by (intros Hne; by apply Hne).
  set (entry := if vote_is_group_vote m then _ else _).
  set (s1 := set_pending_votes _ s).
  assert (pending_votes s1 !! vote_key m = Some entry) as H1.
  { unfold vote_key. simpl. by rewrite lookup_insert, decide_True. }
  assert (vote_is_group_vote m = false →
          mkContribution (vote_from m) 1 [vote_from m] ∈ group_votes entry)
    as He.
  { intros Hg. subst entry. rewrite Hg. simpl. set_solver. }
  case_decide; [intros [= <-]; by eauto|].
  case_decide; [intros [= <-]; by eauto|].
  intros Hq.
  apply (quorum_reached_outcome s1 m entry s') in Hq as (_ & Hv & Hp & Hg & _).
  rewrite Hp, Hg, Hv. by eauto.
Qed.

(** X16.  A vote that a robot sends with [handle_robot_prepare] or
    [handle_robot_commit] is never dropped for its target: when the
    handler returns for a robot that is not the leader, the vote is in the
    log, addressed to the robot's parent, and it is tallied under the
    current view: a member is in the voter set of its group leader, and
    the vote of a group leader is a contribution of weight 1 in the
    pending entry of the global leader. *)
Theorem X16_robot_vote_is_tallied (s : Session) (r x : Z) (s' : Session) :
  r ≠ current_view s mod nodeCount (config s) →
  let info := get_topology_info s r (Some (current_view s)) in
  (∀ p, (p = "prepare" ∧ handle_robot_prepare s r x = Ok s') ∨
        (p = "commit" ∧ handle_robot_commit s r x = Ok s') →
   ∃ target,
     parent_id info = Some target ∧
     (msgs_vote (messages s)
        ++ [robot_vote s r target x p (current_view s)])
       `prefix_of` msgs_vote (messages s') ∧
     (role info = member →
        r ∈ default ∅ (pending_group_votes s'
                         !! (current_view s, p, x, target))) ∧
     (role info = group_leader →
        ∃ e, pending_votes s' !! (current_view s, p, x) = Some e ∧
             mkContribution r 1 [r] ∈ group_votes e)).
Proof.
  intros Hne info p Hp.
  assert (∃ target, parent_id info = Some target ∧ role info ≠ root ∧
            (role info = group_leader →
             target = get_current_leader s (Some (current_view s))) ∧
            handle_vote
              (count_message_sent false None
                 (log_vote (robot_vote s r target x p (current_view s)) s))
              (robot_vote s r target x p (current_view s)) = Ok s')
    as (target & Hparent & Hroot & Hgl & Hv).
  { revert Hp. subst info. unfold handle_robot_prepare, handle_robot_commit.
    cbv zeta. rewrite get_topology_info_non_root by done. cbv zeta.
    cbn [role parent_id].
    case_decide as Hroot; [by case_decide|].
    case_decide as Hs; intros Hp;
      (eexists; split; [done|]; split; [done|]; split; [done|];
       by destruct Hp as [[-> Hp]|[-> Hp]]). }
  exists target. split; [done|]. clear Hp.
  set (v := robot_vote s r target x p (current_view s)) in *.
  set (s0 := count_message_sent false None (log_vote v s)) in *.
  revert Hv. unfold handle_vote. remember 1%nat as fuel eqn:Hfuel.
  cbn [handle_vote_rec]. cbv zeta.
  rewrite decide_False by (simpl; lia). rewrite decide_False by (simpl; lia).
  change (get_topology_info s0 (vote_from v) (Some (vote_view v))) with info.
  case_decide as Hrole.
  - rewrite Hparent. rewrite decide_False by (intros Hn; by apply Hn).
    destruct (group_size info) as [gsz|]; [|done].
    case_decide.
    + intros [= <-]. simpl. split_and!.
      * done.
      * intros _. rewrite lookup_insert, decide_True by done. simpl.
        set_solver.
      * intros Hgl'. by rewrite Hrole in Hgl'.
    + subst fuel. rewrite handle_vote_rec_case_B;
        [|simpl; lia
         |by eapply (group_start_not_member s _ r (current_view s) target)].
      intros (Hg & Hmv & _)%case_B_tallies; [|done].
      rewrite Hg, Hmv. simpl. split_and!.
      * apply prefix_app_r. done.
      * intros _. rewrite lookup_insert, decide_True by done. simpl.
        set_solver.
      * intros Hgl'. by rewrite Hrole in Hgl'.
  - intros (_ & Hmv & e & He & Hin)%case_B_tallies.
    + rewrite Hmv. simpl. split_and!; [done|done|].
      intros _. exists e. split; [exact He|]. by apply Hin.
    + simpl. apply Hgl. destruct (role info); done.
Qed.

Lemma X16_robot_vote_is_tallied_witness :
  let s := started 7 2 9 in
  let s' := session_of (Handlers.handle_robot_prepare s 4 9) s in
  ∃ target,
    Topology.parent_id (Topology.get_topology_info s 4 (Some (current_view s)))
    = Some target ∧
    4 ∈ default ∅ (pending_group_votes s'
                     !! (current_view s, "prepare", 9, target)).
Proof.
  intros s s'.
  assert (4 ≠ current_view s mod nodeCount (config s)) as Hne
    by (vm_compute; discriminate).
  assert (Handlers.handle_robot_prepare s 4 9 = Ok s') as Hrun
    by (vm_compute; reflexivity).
  destruct (X16_robot_vote_is_tallied s 4 9 s' Hne "prepare"
              (or_introl (conj eq_refl Hrun)))
    as (target & Hp & _ & Hm & _).
  exists target. split; [exact Hp|]. apply Hm. vm_compute. reflexivity.
Defined.

End Robots.

(** ** The NEW-VIEW quorum *)
Section NewView.
Import Engine Topology Handlers.

(** A PRE-PREPARE emission that is due appends the proposal of the leader
    to the log. *)
Lemma robot_send_pre_prepare_logs s h :
  last_pre_prepare_view s ≠ Some (current_view s) →
  get_current_leader s None ∈ robot_nodes s →
  outcome_rel (λ _ s2,
      msgs_pre_prepare (messages s2)
      = msgs_pre_prepare (messages s)
        ++ [mkProposal (get_current_leader s None)
              (match h with
               | Some q => qc_value q
               | None => proposalValue (config s)
               end) "prepare" (current_view s) (current_round s) h])
    s (robot_send_pre_prepare s h).
Proof.
  intros Hl Hr. unfold robot_send_pre_prepare. cbv zeta.
  rewrite decide_False by done.
  rewrite decide_False by (intros Hn; by apply Hn).
  set (s0 := log_pre_prepare _ _).
  apply (outcome_rel_impl (λ _ s2, proposal_frame s0 s2)).
  { intros s2 [-> _]. done. }
  apply (outcome_rel_mono (proposal_frame s0) proposal_frame s0); [done|].
  apply (outcome_rel_bind proposal_frame proposal_frame_trans);
    [apply proposal_frame_hierarchical_broadcast|].
  intros s1 _.
  loop_from proposal_frame proposal_frame_trans s1; [by split|].
  apply (for_each_rel proposal_frame proposal_frame_refl proposal_frame_trans).
  intros s' x. case_decide; [|apply proposal_frame_refl].
  case_match; [|apply proposal_frame_refl]. by split.
Qed.

(** One round of the loop that sends the NEW-VIEW messages. *)
Lemma send_new_view_collects nv ov leader s x i :
  let s' :=
    let highQC := node_states s !! x ≫= highQC in
    let new_view_msg :=
      mkNewView x leader nv ov (current_round s) highQC in
    let s := log_new_view new_view_msg s in
    if decide (x = leader) then s
    else
      let pnv := pending_new_views s in
      let s := set_pending_new_views
                 (<[nv := <[x := new_view_msg]>
                            (default ∅ (pnv !! nv))]> pnv) s in
      count_message_sent false None s in
  (collected nv s i → collected nv s' i) ∧
  (x ≠ leader → collected nv s' x).
Proof.
  cbv zeta. split.
  - intros (M & HM & Hi). case_decide; [by exists M|].
    unfold collected. simpl. rewrite lookup_insert, decide_True by done.
    eexists. split; [done|]. rewrite HM. simpl.
    rewrite lookup_insert. by case_decide.
  - intros Hx. rewrite decide_False by done.
    unfold collected. simpl. rewrite lookup_insert, decide_True by done.
    eexists. split; [done|]. by rewrite lookup_insert, decide_True.
Qed.

Lemma send_new_views_collect nv ov leader nodes s i :
  i ∈ nodes → i ≠ leader →
  collected nv
    (foldl (λ s node_id,
              let highQC := node_states s !! node_id ≫= highQC in
              let new_view_msg :=
                mkNewView node_id leader nv ov (current_round s) highQC in
              let s := log_new_view new_view_msg s in
              if decide (node_id = leader) then s
              else
                let pnv := pending_new_views s in
                let s := set_pending_new_views
                           (<[nv := <[node_id := new_view_msg]>
                                      (default ∅ (pnv !! nv))]> pnv) s in
                count_message_sent false None s)
       s nodes) i.
Proof.
  intros Hi Hne. revert s Hi.
  induction nodes as [|x l IH]; intros s Hi; [by inversion Hi|].
  cbn [foldl]. apply elem_of_cons in Hi as [->|Hi]; [|by apply IH].
  match goal with
  | |- collected _ (foldl ?f ?s1 l) _ =>
      assert (collected nv s1 x) as H1
        by (by apply (send_new_view_collects nv ov leader s x x));
      revert H1; generalize s1
  end.
  clear IH. induction l as [|y l IH]; intros s1 H1; [done|].
  cbn [foldl]. apply IH.
  by apply (send_new_view_collects nv ov leader s1 y x).
Qed.

(** With at least two nodes, the messages of all nodes but the leader
    reach the NEW-VIEW quorum 2f+1. *)
Lemma new_view_quorum_met (n leader : Z) (M : gmap Z NewView) :
  2 ≤ n → 0 ≤ leader < n →
  (∀ i, 0 ≤ i < n → i ≠ leader → is_Some (M !! i)) →
  2 * ((n - 1) / 3) + 1 ≤ Z.of_nat (size M).
Proof.
  intros Hn Hl HM.
  assert (list_to_set (range n) ∖ {[leader]} ⊆ dom M) as Hsub.
  { intros i [Hi Hne]%elem_of_difference.
    apply elem_of_list_to_set, elem_of_range in Hi.
    apply elem_of_dom, HM; [done|set_solver]. }
  apply subseteq_size in Hsub. rewrite size_dom in Hsub.
  rewrite size_difference in Hsub
    by (apply singleton_subseteq_l, elem_of_list_to_set, elem_of_range; lia).
  rewrite size_singleton, size_list_to_set, length_range in Hsub
    by apply NoDup_range.
  pose proof (Z.div_mod (n - 1) 3 ltac:(lia)).
  pose proof (Z.mod_pos_bound (n - 1) 3 ltac:(lia)).
  assert (0 ≤ (n - 1) / 3) by (apply Z.div_pos; lia).
  lia.
Qed.

Lemma entry_keeps_refl s : entry_keeps s s.
Proof. by split_and!. Qed.

Lemma entry_keeps_trans s1 s2 s3 :
  entry_keeps s1 s2 → entry_keeps s2 s3 → entry_keeps s1 s3.
Proof. intros (?&?&?) (?&?&?). unfold entry_keeps. split_and!; congruence. Qed.

(** X17.  With at least two nodes the NEW-VIEW quorum is met at once in
    every view change: each node but the next leader sends NEW-VIEW, which
    makes N-1 >= 2f+1 messages.  So when the leader of the new view is a
    robot, the branch count is not 0 and no proposal was made for that view
    yet, entering the new view returns with the view advanced and exactly
    one proposal appended to the log: the proposal of the new leader for
    the new view, in the current round. *)
Theorem X17_new_view_quorum_met_at_once (s : Session) (old_view : Z) :
  2 ≤ nodeCount (config s) →
  branchCount (config s) ≠ 0 →
  (old_view + 1) mod nodeCount (config s) ∈ robot_nodes s →
  last_pre_prepare_view s ≠ Some (old_view + 1) →
  ∃ s1 p,
    trigger_view_change_enter s old_view = Ok s1 ∧
    current_view s1 = old_view + 1 ∧
    msgs_pre_prepare (messages s1) = msgs_pre_prepare (messages s) ++ [p] ∧
    prop_from p = (old_view + 1) mod nodeCount (config s) ∧
    prop_view p = old_view + 1 ∧
    prop_round p = current_round s ∧
    prop_phase p = "prepare".
Proof.
  intros Hn Hk Hrobot Hlast. unfold trigger_view_change_enter. cbv zeta.
  set (leader := get_current_leader s (Some (old_view + 1))).
  set (s0 := set_view (old_view + 1) leader s).
  destruct (reset_robots_spec (robot_nodes s0) s0) as [Hf1 Hdom].
  cbv zeta in Hf1, Hdom.
  assert (entry_keeps s0
            (foldl (λ s robot_id,
                      set_robot_node_states
                        (<[robot_id := mkRobotState false 0 0 false false]>
                           (robot_node_states s)) s) s0 (robot_nodes s0)))
    as Hk1.
  { apply (foldl_rel entry_keeps entry_keeps_refl entry_keeps_trans).
    intros. by split_and!. }
  set (s1 := foldl _ s0 (robot_nodes s0)) in *.
  pose proof (send_new_views_frame (range (nodeCount (config s)))
                (old_view + 1) old_view leader s1) as Hf2.
  pose proof (λ i, send_new_views_collect (old_view + 1) old_view leader
                     (range (nodeCount (config s))) s1 i) as Hcol.
  assert (entry_keeps s1
            (foldl (λ s node_id,
              let highQC := node_states s !! node_id ≫= highQC in
              let new_view_msg :=
                mkNewView node_id leader (old_view + 1) old_view
                  (current_round s) highQC in
              let s := log_new_view new_view_msg s in
              if decide (node_id = leader) then s
              else
                let pnv := pending_new_views s in
                let s := set_pending_new_views
                           (<[old_view + 1 := <[node_id := new_view_msg]>
                                      (default ∅ (pnv !! (old_view + 1)))]> pnv) s in
                count_message_sent false None s)
             s1 (range (nodeCount (config s))))) as Hk2.
  { apply (foldl_rel entry_keeps entry_keeps_refl entry_keeps_trans).
    intros s' x. cbv zeta. case_decide; by split_and!. }
  set (s2 := foldl _ s1 (range (nodeCount (config s)))) in *.
  pose proof (enter_frame_trans _ _ _ Hf1 Hf2) as (Hc & Hv & _ & Hr & _ & _).
  destruct Hf2 as (_ & _ & _ & _ & Hd & _).
  destruct (entry_keeps_trans _ _ _ Hk1 Hk2) as (Hl2 & Hm2 & Hr2).
  simpl in Hc, Hv, Hr, Hl2, Hm2, Hr2.
  assert (0 ≤ leader < nodeCount (config s)) as Hleader
    by (apply Z.mod_pos_bound; lia).
  unfold start_new_view_consensus. cbv zeta.
  rewrite decide_False.
  2:{ rewrite Hc.
      destruct (pending_new_views s2 !! (old_view + 1)) as [M|] eqn:HM.
      - simpl. apply Z.le_ngt.
        apply (new_view_quorum_met _ leader); [done|done|].
        intros i Hi Hne.
        destruct (Hcol i) as (M' & HM' & His);
          [by apply elem_of_range|done|].
        fold s2 in HM'. by simplify_eq.
      - exfalso.
        destruct (Hcol (if decide (leader = 0) then 1 else 0))
          as (M' & HM' & _);
          [apply elem_of_range; case_decide; lia|case_decide; lia|].
        fold s2 in HM'. by simplify_eq. }
  rewrite decide_True.
  2:{ rewrite Hr. unfold get_current_leader. simpl. by rewrite Hc. }
  match goal with
  | |- context [robot_send_pre_prepare s2 ?h] =>
      destruct (robot_send_pre_prepare_returns s2 h) as (s3 & Hs3);
        [by rewrite Hc| |];
        [|pose proof (enter_frame_robot_send_pre_prepare s2 h) as Hf3;
          pose proof (robot_send_pre_prepare_logs s2 h) as Hlog;
          rewrite Hs3 in Hf3, Hlog |- *; simpl in Hf3, Hlog]
  end.
  - intros r Hr'. apply Hd. apply Hdom. by rewrite Hr in Hr'.
  - eexists s3, _. split; [done|].
    destruct Hf3 as (_ & Hv3 & _).
    split; [by rewrite Hv3, Hv|].
    split.
    + rewrite <- Hm2. apply Hlog.
      * rewrite Hl2, Hv. done.
      * rewrite Hr. unfold get_current_leader. simpl. by rewrite Hv, Hc.
    + simpl. unfold get_current_leader. simpl. rewrite Hv, Hc, Hr2.
      by split_and!.
Qed.

Lemma X17_new_view_quorum_met_at_once_witness :
  ∃ s1 p,
    Handlers.trigger_view_change_enter (started 4 2 9) 0 = Ok s1 ∧
    current_view s1 = 0 + 1 ∧
    prop_view p = 0 + 1.
Proof.
  destruct (X17_new_view_quorum_met_at_once (started 4 2 9) 0)
    as (s1 & p & H1 & H2 & _ & _ & H5 & _).
  - vm_compute. discriminate.
  - vm_compute. discriminate.
  - apply (bool_decide_unpack _). vm_compute. exact I.
  - vm_compute. discriminate.
  - exists s1, p. split; [exact H1|]. split; [exact H2 | exact H5].
Defined.

End NewView.
